(** * The Box lifecycle orchestrator of sing-box (box.go)

    A shallow embedding of [New], [PreStart], [Start], [preStart], [start],
    [postStart], [Close] and [ReloadChan] of package [box], with the
    collaborators (router, inbounds, outbounds, providers, services, log
    factory) kept abstract: every call into one of them is a function on an
    abstract world [W] that returns a value, an error, or panics.  Every such
    call and every log line is recorded in a trace, so that the order and the
    number of calls can be stated. *)

From Stdlib Require Import DecimalString.
From stdpp Require Import base strings list gmap.

#[local] Open Scope string_scope.
#[local] Open Scope list_scope.

(** ** Values shared by every part of the model *)

(** [F.ToString(i)] for a loop index. *)
Definition itoa (i : nat) : string := NilZero.string_of_uint (Nat.to_uint i).

(** Errors: a leaf (errors.New, os.ErrClosed, ...), [E.Cause], and the
    aggregate built by [E.Errors]. *)
#[local] Set Warnings "-register-all".
Inductive error : Type :=
| ENew (msg : string)
| ECause (msg : string) (cause : error)
| EMulti (errs : list error).

(** [E.Cause(cause, message...)]. *)
Definition Cause (cause : error) (msg : string) : error := ECause msg cause.

(** [os.ErrClosed]. *)
Definition ErrClosed : error := ENew "file already closed".

(** [err.Error()]. *)
Fixpoint errorString (e : error) : string :=
  match e with
  | ENew msg => msg
  | ECause msg cause => msg +:+ ": " +:+ errorString cause
  | EMulti errs =>
      (fix join (l : list error) : string :=
         match l with
         | [] => ""
         | x :: l' =>
             match l' with
             | [] => errorString x
             | _ :: _ => errorString x +:+ " | " +:+ join l'
             end
         end) errs
  end.

(** A wrapped error: the result of one [E.Cause]. *)
Definition isWrapped (e : error) : bool :=
  match e with ECause _ _ => true | _ => false end.

(** The value carried by a Go panic: here always a string or an error. *)
Inductive PanicValue : Type :=
| PStr (s : string)
| PErr (e : error).

(** [fmt.Sprint(v)] on a recovered value. *)
Definition Sprint (v : PanicValue) : string :=
  match v with PStr s => s | PErr e => errorString e end.

(** [E.Append(err, other, block)] of the exceptions package folds [other],
    wrapped by [block], into the aggregate [err].  Only its contract on a nil
    [other] is used: the aggregate is returned as it is. *)
Class Exceptions := {
  Append : option error → option error → (error → error) → option error;
  Append_nil : ∀ err block, Append err None block = err
}.

(** The order in which [for k, v := range m] visits a Go map is not
    specified and may change from one loop to the next: an iteration order
    is any rearrangement of the entries, chosen from a seed. *)
Class MapIter := {
  iterOrder : ∀ A : Type, nat → list A → list A;
  iterOrder_perm : ∀ A n (l : list A), iterOrder A n l ≡ₚ l
}.
Arguments iterOrder {_ _} _ _.

(** ** Configuration (package option), reduced to the fields box.go reads *)

Definition Rule := string.
Definition DNSRule := string.

Record RouteOptions := { ro_Rules : list Rule; ro_Final : string }.
Record DNSOptions := { dns_Rules : list DNSRule; dns_Final : string }.
Record InboundOptions := { ib_Type : string; ib_Tag : string }.
Record OutboundOptions := { ob_Type : string; ob_Tag : string }.
Record ProxyProviderOptions := { ppo_Tag : string; ppo_Url : string }.
Record RuleProviderOptions := { rpo_Tag : string; rpo_Url : string }.
Record V2RayAPIOptions := { v2_Listen : string }.
Record ExperimentalOptions := {
  ClashAPI : option string;
  V2RayAPI : option V2RayAPIOptions;
  Debug : option string
}.

(** [common.PtrValueOrDefault] at the option types used by [New]. *)
Definition routeOrDefault (o : option RouteOptions) : RouteOptions :=
  default {| ro_Rules := []; ro_Final := "" |} o.
Definition dnsOrDefault (o : option DNSOptions) : DNSOptions :=
  default {| dns_Rules := []; dns_Final := "" |} o.
Definition experimentalOrDefault (o : option ExperimentalOptions) : ExperimentalOptions :=
  default {| ClashAPI := None; V2RayAPI := None; Debug := None |} o.

(** ** The trace *)

Inductive Level := Trace | Info | Error.

(** How a call into a collaborator ended. *)
Inductive Ret : Type :=
| Returned (err : option error)
| Panicked (v : PanicValue).

(** The collaborators the Box holds, by kind and position. *)
Inductive Comp : Type :=
| PreService (name : string)
| PostService (name : string)
| TheRuleProvider (i : nat)
| TheProxyProvider (i : nat)
| TheInbound (i : nat)
| TheOutbound (i : nat)
| TheRouter
| TheLogFactory
| ThePlatform.

Inductive Method : Type :=
| MPreStart | MStart | MPostStart | MClose
| MSetRouter
| MFormatRule (dnsRules : option (list DNSRule)) (routeRules : option (list Rule))
| MStartGetOutbounds
| MInitialize (inboundTags outboundTags : list string) (default : option string)
| MPlatformInitialize
| MSetClashServer | MSetV2RayServer.

(** Constructors and package-level functions called by box.go, with the
    arguments that box.go computes. *)
Inductive Ctor : Type :=
| NewLogFactory (observable : bool)
| NewRuleProvider (logger tag : string) (opts : RuleProviderOptions)
| NewRouter (route : RouteOptions) (dns : DNSOptions)
| NewInbound (logger : string) (opts : InboundOptions)
| NewOutbound (logger tag : string) (opts : OutboundOptions)
| NewProxyProvider (logger tag : string) (opts : ProxyProviderOptions)
| NewClashServer
| NewV2RayServer (logger : string)
| StartOutbounds.

Inductive Event : Type :=
| EvLog (lvl : Level) (msg : string)
| EvPrintStack
| EvApplyDebugOptions
| EvNew (c : Ctor) (r : Ret)
| EvCall (c : Comp) (m : Method) (r : Ret).

(** ** Results of calls *)

(** What a call into a collaborator does: it changes the world and returns
    a value, returns an error, or panics. *)
Inductive Res (A : Type) : Type :=
| ROk (a : A)
| RErr (e : error)
| RPanic (v : PanicValue).
Arguments ROk {_} _.
Arguments RErr {_} _.
Arguments RPanic {_} _.

(** A Go function ends by returning its results, by returning a non-nil
    error, or by panicking. *)
Inductive Outcome (A : Type) : Type :=
| Ok (a : A)
| Fail (err : error)
| Panic (v : PanicValue).
Arguments Ok {_} _.
Arguments Fail {_} _.
Arguments Panic {_} _.

(** ** Collaborators *)

Section Lifecycle.

Context {W : Type}.

(** A call into a collaborator. *)
Definition Ext (A : Type) : Type := W → Res A * W.

(** [adapter.Service], with the optional [adapter.PreStarter] capability;
    [sv_String] is how the value prints in a log line. *)
Record Service := {
  sv_String : string;
  sv_PreStart : option (Ext unit);
  sv_Start : Ext unit;
  sv_Close : Ext unit
}.

Record Inbound := {
  in_Type : string;
  in_Tag : string;
  in_Start : Ext unit;
  in_Close : Ext unit
}.

(** [adapter.Outbound]: [adapter.PostStarter] and a closer reachable by
    [common.Close] (the value is an [io.Closer], or has an upstream that
    is) are optional capabilities. *)
Record Outbound := {
  out_Type : string;
  out_Tag : string;
  out_String : string;
  out_PostStart : option (Ext unit);
  out_Close : option (Ext unit)
}.

Record ProxyProvider := {
  pp_Tag : string;
  pp_StartGetOutbounds : Ext (list OutboundOptions);
  pp_Start : Ext unit;
  pp_Close : Ext unit
}.

(** [FormatRule] receives pointers to the rule slices of [New]: besides its
    results it may leave other contents behind the pointers it was given
    ([fr_dnsRules], [fr_routeRules]). *)
Record Formatted := {
  newDNSRules : list DNSRule;
  newRouteRules : list Rule;
  fr_dnsRules : list DNSRule → list DNSRule;
  fr_routeRules : list Rule → list Rule
}.

Record RuleProvider := {
  rp_Tag : string;
  rp_FormatRule : option (list DNSRule) → option (list Rule) → Ext Formatted;
  rp_SetRouter : W → W;
  rp_Start : Ext unit;
  rp_Close : Ext unit
}.

(** [adapter.Router].  [r_WantsDefault] and [r_Initialize] are the two
    halves of [Initialize]: whether the default-outbound factory is asked
    for an outbound, and the rest of the initialisation. *)
Record Router := {
  r_WantsDefault : list Outbound → bool;
  r_Initialize : list Inbound → list Outbound → option Outbound →
                 list ProxyProvider → list RuleProvider → Ext unit;
  r_SetClashServer : Service → W → W;
  r_SetV2RayServer : Service → W → W;
  r_Start : Ext unit;
  r_Close : Ext unit
}.

(** [log.Factory]: whether it is a [log.ObservableFactory], and its closer
    if [common.Close] finds one. *)
Record LogFactory := {
  lf_Observable : bool;
  lf_Close : option (Ext unit)
}.

(** [platform.Interface]. *)
Record Platform := { pf_Initialize : Router → Ext unit }.

Record Options := {
  Log : option string;
  DNS : option DNSOptions;
  NTP : option string;
  Inbounds : list InboundOptions;
  Outbounds : list OutboundOptions;
  Route : option RouteOptions;
  Experimental : option ExperimentalOptions;
  ProxyProviders : list ProxyProviderOptions;
  RulProviders : list RuleProviderOptions;
  PlatformInterface : option Platform
}.

(** The packages box.go imports: constructors of the collaborators, the
    clock, and [startOutbounds], a method of [Box] declared in another file
    of the package. *)
Record Packages := {
  time_Now : W → nat;
  time_Since : nat → W → string;
  log_New : bool → option string → Ext LogFactory;
  ruleprovider_NewRuleProvider : string → string → RuleProviderOptions → Ext RuleProvider;
  route_NewRouter : RouteOptions → DNSOptions → option string → list InboundOptions → Ext Router;
  inbound_New : Router → string → InboundOptions → Ext Inbound;
  outbound_New : Router → string → string → OutboundOptions → Ext Outbound;
  proxyprovider_NewProxyProvider : Router → string → string → ProxyProviderOptions → Ext ProxyProvider;
  experimental_NewClashServer : Router → LogFactory → option string → Ext Service;
  experimental_NewV2RayServer : string → option V2RayAPIOptions → Ext Service;
  startOutbounds : list Outbound → Ext unit
}.

(** ** The Box *)

Record Box := {
  createdAt : nat;
  router : Router;
  inbounds : list Inbound;
  outbounds : list Outbound;
  proxyProviders : list ProxyProvider;
  ruleProviders : list RuleProvider;
  logFactory : LogFactory;
  preServices : gmap string Service;
  postServices : gmap string Service
}.

(** What changes while the Box runs: the world of the collaborators, the
    seed of the next map iteration, the trace, and the two channels of the
    Box: [done] (true once closed) and [reloadChan] (the number of
    notifications in its buffer). *)
Record State := mkState {
  world : W;
  seed : nat;
  trace : list Event;
  done : bool;
  reloadChan : nat
}.

(** ** Control flow *)

Definition M (A : Type) : Type := State → Outcome A * State.

#[export] Instance M_ret : MRet M := λ A a st, (Ok a, st).

#[export] Instance M_bind : MBind M := λ A B k m st,
  match m st with
  | (Ok a, st') => k a st'
  | (Fail err, st') => (Fail err, st')
  | (Panic v, st') => (Panic v, st')
  end.

Definition fail {A} (err : error) : M A := λ st, (Fail err, st).
Definition panic {A} (v : PanicValue) : M A := λ st, (Panic v, st).

Definition record (ev : Event) (st : State) : State :=
  mkState (world st) (seed st) (trace st ++ [ev]) (done st) (reloadChan st).

Definition emit (ev : Event) : M unit := λ st, (Ok tt, record ev st).

Definition setWorld (w : W) (st : State) : State :=
  mkState w (seed st) (trace st) (done st) (reloadChan st).

(** A call into a collaborator; an error it returns is a value here, as
    in [x, err := f()]. *)
Definition call {A} (ev : Ret → Event) (f : Ext A) : M (error + A) := λ st,
  match f (world st) with
  | (ROk a, w) => (Ok (inr a), record (ev (Returned None)) (setWorld w st))
  | (RErr e, w) => (Ok (inl e), record (ev (Returned (Some e))) (setWorld w st))
  | (RPanic v, w) => (Panic v, record (ev (Panicked v)) (setWorld w st))
  end.

(** A call without results, such as [SetRouter]. *)
Definition effect (ev : Event) (f : W → W) : M unit := λ st,
  (Ok tt, record ev (setWorld (f (world st)) st)).

(** [if err != nil { return wrap(err) }]. *)
Definition orReturn {A} (r : error + A) (wrap : error → error) : M A :=
  match r with
  | inl err => fail (wrap err)
  | inr a => mret a
  end.

(** The [error] result of a call. *)
Definition errOf {A} (r : error + A) : option error :=
  match r with inl err => Some err | inr _ => None end.

(** [for i, x := range xs], with the variables the body assigns in [acc]. *)
Fixpoint forRange {A B} (body : nat → A → B → M B) (i : nat) (xs : list A) (acc : B) : M B :=
  match xs with
  | [] => mret acc
  | x :: xs' => acc' ← body i x acc; forRange body (S i) xs' acc'
  end.

Context `{!Exceptions} `{!MapIter}.

(** [for k, v := range m] over a map. *)
Definition rangeMap {A} (m : gmap string A) : M (list (string * A)) := λ st,
  (Ok (iterOrder (seed st) (map_to_list m)),
   mkState (world st) (S (seed st)) (trace st) (done st) (reloadChan st)).

(** [s.logger.Trace(...)], [s.logger.Info(...)], [log.Error(...)]. *)
Definition logger (lvl : Level) (msg : string) : M unit := emit (EvLog lvl msg).

(** [common.Close(x)]: calls the closer of [x] if it has one. *)
Definition common_Close (c : Comp) (closer : option (Ext unit)) : M (option error) :=
  match closer with
  | Some f => r ← call (EvCall c MClose) f; mret (errOf r)
  | None => mret None
  end.

(** [common.Must(err)]. *)
Definition common_Must (err : option error) : M unit :=
  match err with
  | Some e => panic (PErr e)
  | None => mret tt
  end.

Variable pk : Packages.

(** ** Close (box.go, lines 388-445) *)

Definition closeDone : M unit := λ st,
  if done st then (Fail ErrClosed, st)
  else (Ok tt, mkState (world st) (seed st) (trace st) true (reloadChan st)).

Definition Close (s : Box) : M unit :=
  closeDone;;
  let errors : option error := None in
  post ← rangeMap (postServices s);
  errors ← forRange (λ _ '(serviceName, service) errors,
    logger Trace ("closing " +:+ serviceName);;
    r ← call (EvCall (PostService serviceName) MClose) (sv_Close service);
    mret (Append errors (errOf r) (λ err, Cause err ("close " +:+ serviceName)))) 0 post errors;
  errors ← forRange (λ i ruleProvider errors,
    logger Trace ("closing ruleprovider " +:+ rp_Tag ruleProvider);;
    r ← call (EvCall (TheRuleProvider i) MClose) (rp_Close ruleProvider);
    mret (Append errors (errOf r) (λ err, Cause err ("close ruleprovider " +:+ rp_Tag ruleProvider))))
    0 (ruleProviders s) errors;
  errors ← forRange (λ i proxyProvider errors,
    logger Trace ("closing proxyprovider " +:+ pp_Tag proxyProvider);;
    r ← call (EvCall (TheProxyProvider i) MClose) (pp_Close proxyProvider);
    mret (Append errors (errOf r) (λ err, Cause err ("close proxyprovider " +:+ pp_Tag proxyProvider))))
    0 (proxyProviders s) errors;
  errors ← forRange (λ i in_ errors,
    logger Trace ("closing inbound/" +:+ in_Type in_ +:+ "[" +:+ itoa i +:+ "]");;
    r ← call (EvCall (TheInbound i) MClose) (in_Close in_);
    mret (Append errors (errOf r)
            (λ err, Cause err ("close inbound/" +:+ in_Type in_ +:+ "[" +:+ itoa i +:+ "]"))))
    0 (inbounds s) errors;
  errors ← forRange (λ i out errors,
    logger Trace ("closing outbound/" +:+ out_Type out +:+ "[" +:+ itoa i +:+ "]");;
    r ← common_Close (TheOutbound i) (out_Close out);
    mret (Append errors r
            (λ err, Cause err ("close outbound/" +:+ out_Type out +:+ "[" +:+ itoa i +:+ "]"))))
    0 (outbounds s) errors;
  logger Trace "closing router";;
  r ← common_Close TheRouter (Some (r_Close (router s)));
  let errors := match r with
                | Some err => Append errors (Some err) (λ err, Cause err "close router")
                | None => errors
                end in
  pre ← rangeMap (preServices s);
  errors ← forRange (λ _ '(serviceName, service) errors,
    logger Trace ("closing " +:+ serviceName);;
    r ← call (EvCall (PreService serviceName) MClose) (sv_Close service);
    mret (Append errors (errOf r) (λ err, Cause err ("close " +:+ serviceName)))) 0 pre errors;
  logger Trace "closing log factory";;
  r ← common_Close TheLogFactory (lf_Close (logFactory s));
  let errors := match r with
                | Some err => Append errors (Some err) (λ err, Cause err "close log factory")
                | None => errors
                end in
  match errors with
  | Some err => fail err
  | None => mret tt
  end.

(** ** PreStart, Start and their stages (box.go, lines 271-386) *)

(** [err := f()], with the error as a value. *)
Definition try (m : M unit) : M (option error) := λ st,
  match m st with
  | (Ok _, st') => (Ok None, st')
  | (Fail err, st') => (Ok (Some err), st')
  | (Panic v, st') => (Panic v, st')
  end.

(** A call statement whose results are dropped, as in [s.Close()]. *)
Definition discard (m : M unit) : M unit := _ ← try m; mret tt.

(** [defer func() { v := recover(); if v != nil { handler } }()] in front
    of [body]: a panic of [body] is handed to [handler]. *)
Definition deferRecover (handler : PanicValue → M unit) (body : M unit) : M unit := λ st,
  match body st with
  | (Panic v, st') => handler v st'
  | r => r
  end.

Definition readWorld {A} (f : W → A) : M A := λ st, (Ok (f (world st)), st).

Definition preStart (s : Box) : M unit :=
  pre ← rangeMap (preServices s);
  forRange (λ _ '(serviceName, service) (_ : unit),
    match sv_PreStart service with
    | Some preService_PreStart =>
        logger Trace ("pre-start " +:+ serviceName);;
        r ← call (EvCall (PreService serviceName) MPreStart) preService_PreStart;
        orReturn r (λ err, Cause err ("pre-starting " +:+ serviceName))
    | None => mret tt
    end) 0 pre tt;;
  r ← call (EvNew StartOutbounds) (startOutbounds pk (outbounds s));
  orReturn r id;;
  r ← call (EvCall TheRouter MStart) (r_Start (router s));
  orReturn r id.

Definition start (s : Box) : M unit :=
  preStart s;;
  pre ← rangeMap (preServices s);
  forRange (λ _ '(serviceName, service) (_ : unit),
    logger Trace ("starting " +:+ serviceName);;
    r ← call (EvCall (PreService serviceName) MStart) (sv_Start service);
    orReturn r (λ err, Cause err ("start " +:+ serviceName))) 0 pre tt;;
  forRange (λ i proxyProvider (_ : unit),
    logger Trace ("starting proxyprovider " +:+ pp_Tag proxyProvider);;
    r ← call (EvCall (TheProxyProvider i) MStart) (pp_Start proxyProvider);
    orReturn r (λ err, Cause err ("start proxyprovider " +:+ pp_Tag proxyProvider)))
    0 (proxyProviders s) tt;;
  forRange (λ i ruleProvider (_ : unit),
    logger Trace ("starting ruleprovider " +:+ rp_Tag ruleProvider);;
    r ← call (EvCall (TheRuleProvider i) MStart) (rp_Start ruleProvider);
    orReturn r (λ err, Cause err ("start ruleprovider " +:+ rp_Tag ruleProvider)))
    0 (ruleProviders s) tt;;
  forRange (λ i in_ (_ : unit),
    let tag := if decide (in_Tag in_ = "") then itoa i else in_Tag in_ in
    logger Trace ("initializing inbound/" +:+ in_Type in_ +:+ "[" +:+ tag +:+ "]");;
    r ← call (EvCall (TheInbound i) MStart) (in_Start in_);
    orReturn r (λ err, Cause err ("initialize inbound/" +:+ in_Type in_ +:+ "[" +:+ tag +:+ "]")))
    0 (inbounds s) tt.

Definition postStart (s : Box) : M unit :=
  post ← rangeMap (postServices s);
  forRange (λ _ '(serviceName, service) (_ : unit),
    logger Trace ("starting " +:+ sv_String service);;
    r ← call (EvCall (PostService serviceName) MStart) (sv_Start service);
    orReturn r (λ err, Cause err ("start " +:+ serviceName))) 0 post tt;;
  forRange (λ serviceName service (_ : unit),
    match out_PostStart service with
    | Some lateService_PostStart =>
        logger Trace ("post-starting " +:+ out_String service);;
        r ← call (EvCall (TheOutbound serviceName) MPostStart) lateService_PostStart;
        orReturn r (λ err, Cause err ("post-start " +:+ itoa serviceName))
    | None => mret tt
    end) 0 (outbounds s) tt.

(** The deferred function of [PreStart] and [Start] (lines 275-282 and
    294-301), for a recovered value [v]. *)
Definition onEarlyClosePanic (err : error) (v : PanicValue) : M unit :=
  logger Error (errorString (Cause err "origin error"));;
  emit EvPrintStack;;
  panic (PStr ("panic on early close: " +:+ Sprint v)).

Definition PreStart (s : Box) : M unit :=
  err ← try (preStart s);
  match err with
  | Some err =>
      deferRecover (onEarlyClosePanic err)
        (discard (Close s);;
         fail err)
  | None =>
      since ← readWorld (time_Since pk (createdAt s));
      logger Info ("sing-box pre-started (" +:+ since +:+ "s)")
  end.

Definition Start (s : Box) : M unit :=
  err ← try (start s);
  match err with
  | Some err =>
      deferRecover (onEarlyClosePanic err)
        (discard (Close s);;
         fail err)
  | None =>
      since ← readWorld (time_Since pk (createdAt s));
      logger Info ("sing-box started (" +:+ since +:+ "s)")
  end.

(** ** New (box.go, lines 51-269) *)

(** Lines 90-122: the body of the loop over [options.RulProviders]; the
    loop assigns [ruleProviders], [routeOptions.Rules] and
    [dnsOptions.Rules]. *)
Definition newRuleProvider (i : nat) (ruleProviderOptions : RuleProviderOptions)
    (acc : list RuleProvider * RouteOptions * DNSOptions)
    : M (list RuleProvider * RouteOptions * DNSOptions) :=
  let '(ruleProviders, routeOptions, dnsOptions) := acc in
  let tag := if decide (rpo_Tag ruleProviderOptions ≠ "")
             then rpo_Tag ruleProviderOptions else itoa i in
  let ruleProviderOptions :=
    if decide (rpo_Tag ruleProviderOptions ≠ "") then ruleProviderOptions
    else {| rpo_Tag := tag; rpo_Url := rpo_Url ruleProviderOptions |} in
  let loggerName := "ruleprovider[" +:+ tag +:+ "]" in
  r ← call (EvNew (NewRuleProvider loggerName tag ruleProviderOptions))
         (ruleprovider_NewRuleProvider pk loggerName tag ruleProviderOptions);
  rp ← orReturn r (λ err, Cause err ("parse ruleprovider[" +:+ itoa i +:+ "]"));
  let routeRules := if decide (ro_Rules routeOptions ≠ [])
                    then Some (ro_Rules routeOptions) else None in
  let dnsRules := if decide (dns_Rules dnsOptions ≠ [])
                  then Some (dns_Rules dnsOptions) else None in
  r ← call (EvCall (TheRuleProvider i) (MFormatRule dnsRules routeRules))
         (rp_FormatRule rp dnsRules routeRules);
  f ← orReturn r (λ err, Cause err ("ruleprovider[" +:+ itoa i +:+ "] format rule"));
  (* what the call left behind the pointers it was given *)
  let routeOptions :=
    match routeRules with
    | Some rules => {| ro_Rules := fr_routeRules f rules; ro_Final := ro_Final routeOptions |}
    | None => routeOptions
    end in
  let dnsOptions :=
    match dnsRules with
    | Some rules => {| dns_Rules := fr_dnsRules f rules; dns_Final := dns_Final dnsOptions |}
    | None => dnsOptions
    end in
  let routeOptions :=
    if decide (ro_Rules routeOptions ≠ [])
    then {| ro_Rules := newRouteRules f; ro_Final := ro_Final routeOptions |}
    else routeOptions in
  let dnsOptions :=
    if decide (dns_Rules dnsOptions ≠ [])
    then {| dns_Rules := newDNSRules f; dns_Final := dns_Final dnsOptions |}
    else dnsOptions in
  mret (ruleProviders ++ [rp], routeOptions, dnsOptions).

(** Lines 144-163: the body of the loop over [options.Inbounds]. *)
Definition newInbound (router : Router) (i : nat) (inboundOptions : InboundOptions)
    (inbounds : list Inbound) : M (list Inbound) :=
  let tag := if decide (ib_Tag inboundOptions ≠ "") then ib_Tag inboundOptions else itoa i in
  let loggerName := "inbound/" +:+ ib_Type inboundOptions +:+ "[" +:+ tag +:+ "]" in
  r ← call (EvNew (NewInbound loggerName inboundOptions))
         (inbound_New pk router loggerName inboundOptions);
  in_ ← orReturn r (λ err, Cause err ("parse inbound[" +:+ itoa i +:+ "]"));
  mret (inbounds ++ [in_]).

(** Lines 164-182: the body of the loop over [options.Outbounds]. *)
Definition newOutbound (router : Router) (i : nat) (outboundOptions : OutboundOptions)
    (outbounds : list Outbound) : M (list Outbound) :=
  let tag := if decide (ob_Tag outboundOptions ≠ "") then ob_Tag outboundOptions else itoa i in
  let loggerName := "outbound/" +:+ ob_Type outboundOptions +:+ "[" +:+ tag +:+ "]" in
  r ← call (EvNew (NewOutbound loggerName tag outboundOptions))
         (outbound_New pk router loggerName tag outboundOptions);
  out ← orReturn r (λ err, Cause err ("parse outbound[" +:+ itoa i +:+ "]"));
  mret (outbounds ++ [out]).

(** Lines 203-216: the body of the loop over the outbound options a proxy
    provider returned. *)
Definition newProviderOutbound (router : Router) (pp : ProxyProvider) (i : nat)
    (outboundOptions : OutboundOptions) (outbounds : list Outbound) : M (list Outbound) :=
  let tag := ob_Tag outboundOptions in
  let loggerName := "outbound/" +:+ ob_Type outboundOptions +:+ "[" +:+ tag +:+ "]" in
  r ← call (EvNew (NewOutbound loggerName tag outboundOptions))
         (outbound_New pk router loggerName tag outboundOptions);
  out ← orReturn r (λ err,
    Cause err ("parse proxyprovider [" +:+ pp_Tag pp +:+ "] outbound[" +:+ itoa i +:+ "]"));
  mret (outbounds ++ [out]).

(** Lines 186-218: the body of the loop over [options.ProxyProviders]; the
    loop assigns [proxyProviders] and [outbounds]. *)
Definition newProxyProvider (router : Router) (i : nat)
    (proxyProviderOptions : ProxyProviderOptions)
    (acc : list ProxyProvider * list Outbound) : M (list ProxyProvider * list Outbound) :=
  let '(proxyProviders, outbounds) := acc in
  let tag := if decide (ppo_Tag proxyProviderOptions ≠ "")
             then ppo_Tag proxyProviderOptions else itoa i in
  let proxyProviderOptions :=
    if decide (ppo_Tag proxyProviderOptions ≠ "") then proxyProviderOptions
    else {| ppo_Tag := tag; ppo_Url := ppo_Url proxyProviderOptions |} in
  let loggerName := "proxyprovider[" +:+ tag +:+ "]" in
  r ← call (EvNew (NewProxyProvider loggerName tag proxyProviderOptions))
         (proxyprovider_NewProxyProvider pk router loggerName tag proxyProviderOptions);
  pp ← orReturn r (λ err, Cause err ("parse proxyprovider[" +:+ itoa i +:+ "]"));
  r ← call (EvCall (TheProxyProvider i) MStartGetOutbounds) (pp_StartGetOutbounds pp);
  outboundOptions ← orReturn r (λ err,
    Cause err ("get outbounds from proxyprovider[" +:+ itoa i +:+ "]"));
  outbounds ← forRange (newProviderOutbound router pp) 0 outboundOptions outbounds;
  mret (proxyProviders ++ [pp], outbounds).

(** Lines 220-225: the closure handed to [Initialize].  It assigns the
    local [outbounds] of [New], which is passed in and returned here. *)
Definition defaultOutbound (router : Router) (outbounds : list Outbound)
    : M (Outbound * list Outbound) :=
  let opts := {| ob_Type := "direct"; ob_Tag := "default" |} in
  r ← call (EvNew (NewOutbound "outbound/direct" "direct" opts))
         (outbound_New pk router "outbound/direct" "direct" opts);
  common_Must (errOf r);;
  match r with
  | inr out => mret (out, outbounds ++ [out])
  | inl _ =>
      (* not reached: [common_Must] has panicked on the error *)
      panic (PStr "invalid memory address or nil pointer dereference")
  end.

(** Modelled from the spec: [Router.Initialize] of package route, which is
    not among the sources.  The router invokes the default-outbound factory
    at most once, and only if no direct outbound is otherwise reachable
    ([r_WantsDefault]); the outbound it gets is part of what it then
    initialises.  The result is the value of the variable the factory
    assigns. *)
Definition Router_Initialize (router : Router) (inbounds : list Inbound)
    (outbounds : list Outbound)
    (factory : list Outbound → M (Outbound * list Outbound))
    (captured : list Outbound)
    (proxyProviders : list ProxyProvider) (ruleProviders : list RuleProvider)
    : M (list Outbound) :=
  if r_WantsDefault router outbounds then
    '(out, captured) ← factory captured;
    r ← call (EvCall TheRouter (MInitialize (in_Tag <$> inbounds) (out_Tag <$> outbounds)
                                  (Some (out_Tag out))))
           (r_Initialize router inbounds outbounds (Some out) proxyProviders ruleProviders);
    orReturn r id;;
    mret captured
  else
    r ← call (EvCall TheRouter (MInitialize (in_Tag <$> inbounds) (out_Tag <$> outbounds) None))
           (r_Initialize router inbounds outbounds None proxyProviders ruleProviders);
    orReturn r id;;
    mret captured.

(** [make(chan struct{}, 1)] and [make(chan struct{})] for the two channels
    of the Box. *)
Definition makeReloadChan : M unit := λ st,
  (Ok tt, mkState (world st) (seed st) (trace st) (done st) 0).
Definition makeDone : M unit := λ st,
  (Ok tt, mkState (world st) (seed st) (trace st) false (reloadChan st)).

Definition New (options : Options) : M Box :=
  createdAt ← readWorld (time_Now pk);
  makeReloadChan;;
  let experimentalOptions := experimentalOrDefault (Experimental options) in
  emit EvApplyDebugOptions;;
  let needClashAPI :=
    match ClashAPI experimentalOptions, PlatformInterface options with
    | None, None => false
    | _, _ => true
    end in
  let needV2RayAPI :=
    match V2RayAPI experimentalOptions with
    | Some v2 => bool_decide (v2_Listen v2 ≠ "")
    | None => false
    end in
  r ← call (EvNew (NewLogFactory needClashAPI)) (log_New pk needClashAPI (Log options));
  logFactory ← orReturn r (λ err, Cause err "create log factory");
  let routeOptions := routeOrDefault (Route options) in
  let dnsOptions := dnsOrDefault (DNS options) in
  '(ruleProviders, routeOptions, dnsOptions) ←
    forRange newRuleProvider 0 (RulProviders options) ([], routeOptions, dnsOptions);
  r ← call (EvNew (NewRouter routeOptions dnsOptions))
         (route_NewRouter pk routeOptions dnsOptions (NTP options) (Inbounds options));
  router ← orReturn r (λ err, Cause err "parse route options");
  forRange (λ i ruleProvider (_ : unit),
    effect (EvCall (TheRuleProvider i) MSetRouter (Returned None)) (rp_SetRouter ruleProvider))
    0 ruleProviders tt;;
  inbounds ← forRange (newInbound router) 0 (Inbounds options) [];
  outbounds ← forRange (newOutbound router) 0 (Outbounds options) [];
  '(proxyProviders, outbounds) ←
    forRange (newProxyProvider router) 0 (ProxyProviders options) ([], outbounds);
  outbounds ← Router_Initialize router inbounds outbounds (defaultOutbound router) outbounds
                 proxyProviders ruleProviders;
  match PlatformInterface options with
  | Some platformInterface =>
      r ← call (EvCall ThePlatform MPlatformInitialize) (pf_Initialize platformInterface router);
      orReturn r (λ err, Cause err "initialize platform interface")
  | None => mret tt
  end;;
  let preServices : gmap string Service := ∅ in
  let postServices : gmap string Service := ∅ in
  preServices ←
    (if needClashAPI then
       (* logFactory.(log.ObservableFactory) *)
       (if lf_Observable logFactory then mret tt
        else panic (PStr "interface conversion: log.Factory is not log.ObservableFactory"));;
       r ← call (EvNew NewClashServer)
              (experimental_NewClashServer pk router logFactory (ClashAPI experimentalOptions));
       clashServer ← orReturn r (λ err, Cause err "create clash api server");
       effect (EvCall TheRouter MSetClashServer (Returned None))
              (r_SetClashServer router clashServer);;
       mret (<["clash api" := clashServer]> preServices)
     else mret preServices);
  preServices ←
    (if needV2RayAPI then
       r ← call (EvNew (NewV2RayServer "v2ray-api"))
              (experimental_NewV2RayServer pk "v2ray-api" (V2RayAPI experimentalOptions));
       v2rayServer ← orReturn r (λ err, Cause err "create v2ray api server");
       effect (EvCall TheRouter MSetV2RayServer (Returned None))
              (r_SetV2RayServer router v2rayServer);;
       mret (<["v2ray api" := v2rayServer]> preServices)
     else mret preServices);
  makeDone;;
  mret {| router := router;
          inbounds := inbounds;
          outbounds := outbounds;
          proxyProviders := proxyProviders;
          ruleProviders := ruleProviders;
          createdAt := createdAt;
          logFactory := logFactory;
          preServices := preServices;
          postServices := postServices |}.

(** ** The reload channel (box.go, lines 59 and 451-453) *)

(** The capacity given to [make(chan struct{}, 1)]. *)
Definition reloadChanCap : nat := 1.

(** The direction of a channel type: [chan struct{}] or [<-chan struct{}]. *)
Inductive ChanDir := Bidirectional | ReceiveOnly.

Definition ReloadChan (s : Box) : ChanDir := ReceiveOnly.

(** Modelled from the spec: the producers' post into the reload channel,
    which lives in the router and the providers and not in box.go: a
    non-blocking send that is dropped when the buffer is full.  The result
    tells whether the notification was queued. *)
Definition postReload : M bool := λ st,
  if decide (reloadChan st < reloadChanCap)
  then (Ok true, mkState (world st) (seed st) (trace st) (done st) (S (reloadChan st)))
  else (Ok false, st).

(** A receive that does not wait: [None] when nothing is pending. *)
Definition readReload : M (option unit) := λ st,
  match reloadChan st with
  | S n => (Ok (Some tt), mkState (world st) (seed st) (trace st) (done st) n)
  | 0 => (Ok None, st)
  end.

(** Sending through a channel value of the given direction: the compiler
    rejects a send on a receive-only channel. *)
Definition sendOn (dir : ChanDir) : option (M bool) :=
  match dir with
  | Bidirectional => Some postReload
  | ReceiveOnly => None
  end.

Inductive ReloadOp := Post | Read.

Definition runReloadOp (op : ReloadOp) : M unit :=
  match op with
  | Post => _ ← postReload; mret tt
  | Read => _ ← readReload; mret tt
  end.

Fixpoint runReloadOps (ops : list ReloadOp) : M unit :=
  match ops with
  | [] => mret tt
  | op :: ops' => runReloadOp op;; runReloadOps ops'
  end.

End Lifecycle.


(** * Vocabulary of the statements *)

Section Vocabulary.

Context {W : Type}.

(** A subsystem as [Close] handles it: which collaborator it is, the name
    that follows "closing " in the log and "close " in the wrapped error,
    and its closer, if it has one. *)
Record Target := {
  tg_comp : Comp;
  tg_name : string;
  tg_closer : option (@Ext W unit)
}.

Definition serviceTarget (kind : string → Comp) (entry : string * @Service W) : Target :=
  {| tg_comp := kind entry.1; tg_name := entry.1; tg_closer := Some (sv_Close entry.2) |}.

Definition ruleProviderTarget (i : nat) (rp : @RuleProvider W) : Target :=
  {| tg_comp := TheRuleProvider i;
     tg_name := "ruleprovider " +:+ rp_Tag rp;
     tg_closer := Some (rp_Close rp) |}.

Definition proxyProviderTarget (i : nat) (pp : @ProxyProvider W) : Target :=
  {| tg_comp := TheProxyProvider i;
     tg_name := "proxyprovider " +:+ pp_Tag pp;
     tg_closer := Some (pp_Close pp) |}.

Definition inboundTarget (i : nat) (in_ : @Inbound W) : Target :=
  {| tg_comp := TheInbound i;
     tg_name := "inbound/" +:+ in_Type in_ +:+ "[" +:+ itoa i +:+ "]";
     tg_closer := Some (in_Close in_) |}.

Definition outboundTarget (i : nat) (out : @Outbound W) : Target :=
  {| tg_comp := TheOutbound i;
     tg_name := "outbound/" +:+ out_Type out +:+ "[" +:+ itoa i +:+ "]";
     tg_closer := out_Close out |}.

Definition routerTarget (r : @Router W) : Target :=
  {| tg_comp := TheRouter; tg_name := "router"; tg_closer := Some (r_Close r) |}.

Definition logFactoryTarget (lf : @LogFactory W) : Target :=
  {| tg_comp := TheLogFactory; tg_name := "log factory"; tg_closer := lf_Close lf |}.

(** The subsystems of a Box in teardown order, for given iteration orders
    of the two service maps. *)
Definition closeTargets (s : Box) (post pre : list (string * @Service W)) : list Target :=
  (serviceTarget PostService <$> post) ++
  imap ruleProviderTarget (ruleProviders s) ++
  imap proxyProviderTarget (proxyProviders s) ++
  imap inboundTarget (inbounds s) ++
  imap outboundTarget (outbounds s) ++
  [routerTarget (router s)] ++
  (serviceTarget PreService <$> pre) ++
  [logFactoryTarget (logFactory s)].

(** One visit of [Close]: the subsystem and the error its close gave. *)
Definition Visit : Type := Target * option error.

(** What a visit leaves in the trace: the log line, and the call of the
    closer when there is one. *)
Definition visitEvents (v : Visit) : list Event :=
  EvLog Trace ("closing " +:+ tg_name v.1) ::
  match tg_closer v.1 with
  | Some _ => [EvCall (tg_comp v.1) MClose (Returned v.2)]
  | None => []
  end.

(** A subsystem without a closer gives no error. *)
Definition visitOk (v : Visit) : Prop := tg_closer v.1 = None → v.2 = None.

(** The aggregate of a sequence of visits: every result folded in by
    [E.Append], wrapped with the subsystem's name. *)
Definition foldVisits `{!Exceptions} (vs : list Visit) (errors : option error) : option error :=
  foldl (λ errors v, Append errors v.2 (λ err, Cause err ("close " +:+ tg_name v.1))) errors vs.

(** What [Close] returns for an aggregate. *)
Definition returned (errors : option error) : Outcome unit :=
  match errors with
  | Some err => Fail err
  | None => Ok tt
  end.

(** The two entry points that start a Box, and the stage each one runs. *)
Inductive Entry := ViaPreStart | ViaStart.

Definition stage `{!MapIter} (pk : @Packages W) (e : Entry) : @Box W → M unit :=
  match e with
  | ViaPreStart => preStart pk
  | ViaStart => start pk
  end.

Definition entry `{!Exceptions} `{!MapIter} (pk : @Packages W) (e : Entry)
    : @Box W → M unit :=
  match e with
  | ViaPreStart => PreStart pk
  | ViaStart => Start pk
  end.

(** The label of an inbound in the log lines and errors of [start]. *)
Definition startLabel (i : nat) (in_ : @Inbound W) : string :=
  "inbound/" +:+ in_Type in_ +:+ "[" +:+
  (if decide (in_Tag in_ = "") then itoa i else in_Tag in_) +:+ "]".

(** The label of an inbound in the log lines and errors of [Close]. *)
Definition closeLabel (i : nat) (in_ : @Inbound W) : string :=
  "inbound/" +:+ in_Type in_ +:+ "[" +:+ itoa i +:+ "]".

(** How a start stage fails: the call that returned an error, and the error
    the stage returns for it. *)
Inductive StartFailure (s : @Box W) : Event → error → Prop :=
| fail_preService name e :
    StartFailure s (EvCall (PreService name) MPreStart (Returned (Some e)))
                   (Cause e ("pre-starting " +:+ name))
| fail_startOutbounds e :
    StartFailure s (EvNew StartOutbounds (Returned (Some e))) e
| fail_router e :
    StartFailure s (EvCall TheRouter MStart (Returned (Some e))) e
| fail_service name e :
    StartFailure s (EvCall (PreService name) MStart (Returned (Some e)))
                   (Cause e ("start " +:+ name))
| fail_proxyProvider i pp e :
    proxyProviders s !! i = Some pp →
    StartFailure s (EvCall (TheProxyProvider i) MStart (Returned (Some e)))
                   (Cause e ("start proxyprovider " +:+ pp_Tag pp))
| fail_ruleProvider i rp e :
    ruleProviders s !! i = Some rp →
    StartFailure s (EvCall (TheRuleProvider i) MStart (Returned (Some e)))
                   (Cause e ("start ruleprovider " +:+ rp_Tag rp))
| fail_inbound i in_ e :
    inbounds s !! i = Some in_ →
    StartFailure s (EvCall (TheInbound i) MStart (Returned (Some e)))
                   (Cause e ("initialize " +:+ startLabel i in_)).

(** What [PreStart] and [Start] do once their stage has failed with [err]
    in a state from which the rollback [Close] ends as [rc] in [st2]. *)
Definition afterRollback (err : error) (rc : Outcome unit) (st2 : @State W)
    : Outcome unit * @State W :=
  match rc with
  | Panic v =>
      (Panic (PStr ("panic on early close: " +:+ Sprint v)),
       record EvPrintStack
         (record (EvLog Error (errorString (Cause err "origin error"))) st2))
  | _ => (Fail err, st2)
  end.

(** A computation returned [a] in some run and added the events [evs] to
    the trace. *)
Definition Ran {A} (m : @M W A) (a : A) (evs : list Event) : Prop :=
  ∃ st st', m st = (Ok a, st') ∧ trace st' = trace st ++ evs.

(** A [for ... range] loop ran to its end: every iteration returned, each
    from the variables the one before left. *)
Inductive Iterated {A B} (body : nat → A → B → @M W B)
    : nat → list A → B → B → list Event → Prop :=
| iterated_nil i acc : Iterated body i [] acc acc []
| iterated_cons i x xs acc acc1 acc2 evs1 evs2 :
    Ran (body i x acc) acc1 evs1 →
    Iterated body (S i) xs acc1 acc2 evs2 →
    Iterated body i (x :: xs) acc acc2 (evs1 ++ evs2).

(** The tag [New] computes for the component configured at index [i] with
    tag [configured]. *)
Definition assignedTag (configured : string) (i : nat) : string :=
  if decide (configured ≠ "") then configured else itoa i.

(** A call into a collaborator returned [a] in some world. *)
Definition Built {A} (f : @Ext W A) (a : A) : Prop := ∃ w w', f w = (ROk a, w').

(** The logger names [New] asks the log factory for. *)
Definition inboundLogger (o : InboundOptions) (tag : string) : string :=
  "inbound/" +:+ ib_Type o +:+ "[" +:+ tag +:+ "]".
Definition outboundLogger (o : OutboundOptions) (tag : string) : string :=
  "outbound/" +:+ ob_Type o +:+ "[" +:+ tag +:+ "]".
Definition proxyProviderLogger (tag : string) : string := "proxyprovider[" +:+ tag +:+ "]".
Definition ruleProviderLogger (tag : string) : string := "ruleprovider[" +:+ tag +:+ "]".

(** The options a provider is constructed from: the configured ones, with
    the assigned tag written into them when none was configured. *)
Definition taggedProxyProviderOptions (o : ProxyProviderOptions) (i : nat)
    : ProxyProviderOptions :=
  if decide (ppo_Tag o ≠ "") then o
  else {| ppo_Tag := assignedTag (ppo_Tag o) i; ppo_Url := ppo_Url o |}.
Definition taggedRuleProviderOptions (o : RuleProviderOptions) (i : nat)
    : RuleProviderOptions :=
  if decide (rpo_Tag o ≠ "") then o
  else {| rpo_Tag := assignedTag (rpo_Tag o) i; rpo_Url := rpo_Url o |}.

(** The constructor calls of [New], as events. *)
Definition inboundBuilt (i : nat) (o : InboundOptions) : Event :=
  EvNew (NewInbound (inboundLogger o (assignedTag (ib_Tag o) i)) o) (Returned None).
Definition outboundBuilt (i : nat) (o : OutboundOptions) : Event :=
  EvNew (NewOutbound (outboundLogger o (assignedTag (ob_Tag o) i)) (assignedTag (ob_Tag o) i) o)
        (Returned None).
Definition providedOutboundBuilt (o : OutboundOptions) : Event :=
  EvNew (NewOutbound (outboundLogger o (ob_Tag o)) (ob_Tag o) o) (Returned None).
Definition proxyProviderBuilt (i : nat) (o : ProxyProviderOptions) : Event :=
  EvNew (NewProxyProvider (proxyProviderLogger (assignedTag (ppo_Tag o) i))
           (assignedTag (ppo_Tag o) i) (taggedProxyProviderOptions o i)) (Returned None).
Definition ruleProviderBuilt (i : nat) (o : RuleProviderOptions) : Event :=
  EvNew (NewRuleProvider (ruleProviderLogger (assignedTag (rpo_Tag o) i))
           (assignedTag (rpo_Tag o) i) (taggedRuleProviderOptions o i)) (Returned None).

(** An outbound built from the static configuration at index [i], and one
    built from a definition a proxy provider returned. *)
Definition StaticOutbound (pk : @Packages W) (rt : @Router W) (i : nat)
    (o : OutboundOptions) (out : @Outbound W) : Prop :=
  Built (outbound_New pk rt (outboundLogger o (assignedTag (ob_Tag o) i))
           (assignedTag (ob_Tag o) i) o) out.
Definition ProvidedOutbound (pk : @Packages W) (rt : @Router W)
    (o : OutboundOptions) (out : @Outbound W) : Prop :=
  Built (outbound_New pk rt (outboundLogger o (ob_Tag o)) (ob_Tag o) o) out.

(** A proxy provider built from the configuration at index [i]. *)
Definition ConfiguredProxyProvider (pk : @Packages W) (rt : @Router W) (i : nat)
    (o : ProxyProviderOptions) (pp : @ProxyProvider W) : Prop :=
  Built (proxyprovider_NewProxyProvider pk rt (proxyProviderLogger (assignedTag (ppo_Tag o) i))
           (assignedTag (ppo_Tag o) i) (taggedProxyProviderOptions o i)) pp.

(** The options of the default outbound, and the event of its
    construction. *)
Definition directOptions : OutboundOptions := {| ob_Type := "direct"; ob_Tag := "default" |}.
Definition defaultBuilt (r : Ret) : Event :=
  EvNew (NewOutbound "outbound/direct" "direct" directOptions) r.

(** The pointer [New] hands to [FormatRule] for a rule list: nil for an
    empty list. *)
Definition passed {A} (rules : list A) : option (list A) :=
  if decide (rules ≠ []) then Some rules else None.

(** A rule list after the call of [FormatRule]: [left] is what the call
    left behind the pointer, [new] the list it returned. *)
Definition afterFormat {A} (rules : list A) (left : list A → list A) (new : list A) : list A :=
  let rules := match passed rules with Some rules => left rules | None => rules end in
  if decide (rules ≠ []) then new else rules.

(** The loop of [New] over the configured rule providers, provider by
    provider: each is constructed and its [FormatRule] is called once, on
    the lists the provider before it left. *)
Inductive FormatChain (pk : @Packages W)
    : nat → list RuleProviderOptions → list (@RuleProvider W) →
      list DNSRule * list Rule → list DNSRule * list Rule → list Event → Prop :=
| formatChain_nil i rules : FormatChain pk i [] [] rules rules []
| formatChain_cons i o os rp rps dnsRules routeRules f final evs :
    Built (ruleprovider_NewRuleProvider pk (ruleProviderLogger (assignedTag (rpo_Tag o) i))
             (assignedTag (rpo_Tag o) i) (taggedRuleProviderOptions o i)) rp →
    Built (rp_FormatRule rp (passed dnsRules) (passed routeRules)) f →
    FormatChain pk (S i) os rps
      (afterFormat dnsRules (fr_dnsRules f) (newDNSRules f),
       afterFormat routeRules (fr_routeRules f) (newRouteRules f)) final evs →
    FormatChain pk i (o :: os) (rp :: rps) (dnsRules, routeRules) final
      (ruleProviderBuilt i o ::
       EvCall (TheRuleProvider i) (MFormatRule (passed dnsRules) (passed routeRules))
              (Returned None) :: evs).

(** The calls of [FormatRule] in a trace: the index of the provider and
    the two pointers it was given. *)
Definition formatCall (ev : Event) : option (nat * option (list DNSRule) * option (list Rule)) :=
  match ev with
  | EvCall (TheRuleProvider i) (MFormatRule dnsRules routeRules) _ =>
      Some (i, dnsRules, routeRules)
  | _ => None
  end.

Definition formatCalls (evs : list Event) : list (nat * option (list DNSRule) * option (list Rule)) :=
  omap formatCall evs.

(** What a proxy provider contributed to the outbounds: the definitions
    its [StartGetOutbounds] returned, each built under its own tag. *)
Definition Provided (pk : @Packages W) (rt : @Router W) (pp : @ProxyProvider W)
    (outs : list (@Outbound W)) : Prop :=
  ∃ cfgs, Built (pp_StartGetOutbounds pp) cfgs ∧ Forall2 (ProvidedOutbound pk rt) cfgs outs.

(** The event of [Router.Initialize]. *)
Definition initialized (ins : list (@Inbound W)) (outs : list (@Outbound W))
    (dflt : option (@Outbound W)) : Event :=
  EvCall TheRouter (MInitialize (in_Tag <$> ins) (out_Tag <$> outs) (out_Tag <$> dflt))
         (Returned None).

(** A call that returned without error. *)
Definition called (c : Comp) (m : Method) : Event := EvCall c m (Returned None).

(** What a [preStart], a [start] and a [postStart] that succeed leave in
    the trace, for given iteration orders of the service maps. *)
Definition preStartEvents (pre : list (string * @Service W)) : list Event :=
  concat ((λ entry : string * @Service W,
             match sv_PreStart entry.2 with
             | Some _ => [EvLog Trace ("pre-start " +:+ entry.1);
                          called (PreService entry.1) MPreStart]
             | None => []
             end) <$> pre) ++
  [EvNew StartOutbounds (Returned None); called TheRouter MStart].

Definition startEvents (s : @Box W) (pre1 pre2 : list (string * @Service W)) : list Event :=
  preStartEvents pre1 ++
  concat ((λ entry : string * @Service W,
             [EvLog Trace ("starting " +:+ entry.1); called (PreService entry.1) MStart])
          <$> pre2) ++
  concat (imap (λ i pp, [EvLog Trace ("starting proxyprovider " +:+ pp_Tag pp);
                         called (TheProxyProvider i) MStart]) (proxyProviders s)) ++
  concat (imap (λ i rp, [EvLog Trace ("starting ruleprovider " +:+ rp_Tag rp);
                         called (TheRuleProvider i) MStart]) (ruleProviders s)) ++
  concat (imap (λ i in_, [EvLog Trace ("initializing " +:+ startLabel i in_);
                          called (TheInbound i) MStart]) (inbounds s)).

Definition postStartEvents (s : @Box W) (post : list (string * @Service W)) : list Event :=
  concat ((λ entry : string * @Service W,
             [EvLog Trace ("starting " +:+ sv_String entry.2);
              called (PostService entry.1) MStart]) <$> post) ++
  concat (imap (λ i out,
                  match out_PostStart out with
                  | Some _ => [EvLog Trace ("post-starting " +:+ out_String out);
                               called (TheOutbound i) MPostStart]
                  | None => []
                  end) (outbounds s)).

(** The four functions that walk the service maps. *)
Inductive Phase := PreStarting | Starting | PostStarting | Closing.

Definition phaseRun `{!Exceptions} `{!MapIter} (pk : @Packages W) (ph : Phase)
    : @Box W → M unit :=
  match ph with
  | PreStarting => preStart pk
  | Starting => start pk
  | PostStarting => postStart
  | Closing => Close
  end.

(** The phase went through all its loops: a start phase succeeded; a
    [Close] on a Box not yet closed returned. *)
Definition phaseCompleted (ph : Phase) (st : @State W) (r : Outcome unit) : Prop :=
  match ph with
  | Closing => done st = false ∧ ∀ v, r ≠ Panic v
  | _ => r = Ok tt
  end.

(** An iteration order of a service map: its entries, each once. *)
Definition orderOf (m : gmap string (@Service W)) (l : list (string * @Service W)) : Prop :=
  l ≡ₚ map_to_list m.

(** What the phase visited, from the trace it left. *)
Definition phaseVisited `{!Exceptions} (ph : Phase) (s : @Box W) (st st' : @State W) : Prop :=
  match ph with
  | PreStarting =>
      ∃ pre, orderOf (preServices s) pre ∧ trace st' = trace st ++ preStartEvents pre
  | Starting =>
      ∃ pre1 pre2, orderOf (preServices s) pre1 ∧ orderOf (preServices s) pre2 ∧
                   trace st' = trace st ++ startEvents s pre1 pre2
  | PostStarting =>
      ∃ post, orderOf (postServices s) post ∧ trace st' = trace st ++ postStartEvents s post
  | Closing =>
      ∃ post pre (vs : list Visit),
        orderOf (postServices s) post ∧ orderOf (preServices s) pre ∧
        vs.*1 = closeTargets s post pre ∧
        trace st' = trace st ++ concat (visitEvents <$> vs)
  end.

(** The names of the pre-services in the order a trace shows them being
    closed. *)
Definition preServicesClosed (evs : list Event) : list string :=
  omap (λ ev, match ev with
              | EvCall (PreService name) MClose _ => Some name
              | _ => None
              end) evs.

(** ** What a run leaves alone *)

(** A relation between the state before and after a step that every
    primitive step of the model respects. *)
Class Frame (P : @State W → @State W → Prop) := {
  frame_refl : ∀ st, P st st;
  frame_trans : ∀ st1 st2 st3, P st1 st2 → P st2 st3 → P st1 st3;
  frame_record : ∀ ev st, P st (record ev st);
  frame_world : ∀ w st, P st (setWorld w st);
  frame_seed : ∀ st, P st (mkState (world st) (S (seed st)) (trace st) (done st) (reloadChan st))
}.

(** The closed marker is left as it was. *)
Definition sameDone (st st' : @State W) : Prop := done st' = done st.

(** The trace only grows. *)
Definition traceGrows (st st' : @State W) : Prop := ∃ evs, trace st' = trace st ++ evs.

(** The buffer of the reload channel is left as it was. *)
Definition sameReload (st st' : @State W) : Prop := reloadChan st' = reloadChan st.

(** Every run of [m] relates the state before to the state after by [P]. *)
Definition preserves (P : @State W → @State W → Prop) {A} (m : @M W A) : Prop :=
  ∀ st r st', m st = (r, st') → P st st'.

End Vocabulary.

(** ** Readings of a trace *)

(** The messages logged at trace level. *)
Definition logLines (evs : list Event) : list string :=
  omap (λ ev, match ev with EvLog Trace msg => Some msg | _ => None end) evs.

(** The tag arguments of the outbound constructor calls. *)
Definition outboundTagsBuilt (evs : list Event) : list string :=
  omap (λ ev, match ev with EvNew (NewOutbound _ tag _) _ => Some tag | _ => None end) evs.

(** The tags of the outbounds handed to [Router.Initialize]. *)
Definition initializedWith (evs : list Event) : list (list string) :=
  omap (λ ev, match ev with
              | EvCall TheRouter (MInitialize _ outboundTags _) _ => Some outboundTags
              | _ => None
              end) evs.

(** * Vocabulary of the further properties *)

Section Outcomes.

Context {W : Type}.

(** The line [PreStart] and [Start] log once their stage has succeeded,
    for the elapsed time [since]. *)
Definition startedLine (e : Entry) (since : string) : Event :=
  match e with
  | ViaPreStart => EvLog Info ("sing-box pre-started (" +:+ since +:+ "s)")
  | ViaStart => EvLog Info ("sing-box started (" +:+ since +:+ "s)")
  end.

(** What a stage that succeeds leaves in the trace. *)
Definition stageEvents (e : Entry) (s : @Box W) (pre1 pre2 : list (string * @Service W))
    : list Event :=
  match e with
  | ViaPreStart => preStartEvents pre1
  | ViaStart => startEvents s pre1 pre2
  end.

(** How [postStart] fails: the call that returned an error, and the error
    [postStart] returns for it. *)
Inductive PostStartFailure (s : @Box W) : Event → error → Prop :=
| fail_postService name e :
    PostStartFailure s (EvCall (PostService name) MStart (Returned (Some e)))
                       (Cause e ("start " +:+ name))
| fail_postStarter i out e :
    outbounds s !! i = Some out →
    is_Some (out_PostStart out) →
    PostStartFailure s (EvCall (TheOutbound i) MPostStart (Returned (Some e)))
                       (Cause e ("post-start " +:+ itoa i)).

End Outcomes.

(** The function a call event belongs to: a constructor or package-level
    function, or a method of a collaborator. *)
Inductive Callee : Type :=
| Construct (c : Ctor)
| Invoke (c : Comp) (m : Method).

Definition callOf (k : Callee) (r : Ret) : Event :=
  match k with
  | Construct c => EvNew c r
  | Invoke c m => EvCall c m r
  end.

(** [evs] is the run [full] cut short at a call: the same events up to
    some call that returned without error in [full], then that call
    returning an error, and nothing after it. *)
Definition CutShort (full evs : list Event) : Prop :=
  ∃ before k e after,
    full = before ++ callOf k (Returned None) :: after ∧
    evs = before ++ [callOf k (Returned (Some e))].

(** A run from [st] to [st'] that was cut short within [full]. *)
Definition failsWithin {W} (full : list Event) (st st' : @State W) : Prop :=
  ∃ evs, trace st' = trace st ++ evs ∧ CutShort full evs.

Section NewOutcomes.

Context {W : Type}.

(** The constructor calls of [New], with the arguments it computes for
    the component configured at index [i]. *)
Definition ruleProviderCtor (i : nat) (o : RuleProviderOptions) : Ctor :=
  NewRuleProvider (ruleProviderLogger (assignedTag (rpo_Tag o) i))
    (assignedTag (rpo_Tag o) i) (taggedRuleProviderOptions o i).
Definition inboundCtor (i : nat) (o : InboundOptions) : Ctor :=
  NewInbound (inboundLogger o (assignedTag (ib_Tag o) i)) o.
Definition outboundCtor (i : nat) (o : OutboundOptions) : Ctor :=
  NewOutbound (outboundLogger o (assignedTag (ob_Tag o) i)) (assignedTag (ob_Tag o) i) o.
Definition providedOutboundCtor (o : OutboundOptions) : Ctor :=
  NewOutbound (outboundLogger o (ob_Tag o)) (ob_Tag o) o.
Definition proxyProviderCtor (i : nat) (o : ProxyProviderOptions) : Ctor :=
  NewProxyProvider (proxyProviderLogger (assignedTag (ppo_Tag o) i))
    (assignedTag (ppo_Tag o) i) (taggedProxyProviderOptions o i).

(** How [New] fails: the call that returned an error, and the error [New]
    returns for it. *)
Inductive NewFailure (pk : @Packages W) (opts : @Options W) : Event → error → Prop :=
| fail_logFactory observable e :
    NewFailure pk opts (EvNew (NewLogFactory observable) (Returned (Some e)))
      (Cause e "create log factory")
| fail_newRuleProvider i o e :
    RulProviders opts !! i = Some o →
    NewFailure pk opts (EvNew (ruleProviderCtor i o) (Returned (Some e)))
      (Cause e ("parse ruleprovider[" +:+ itoa i +:+ "]"))
| fail_formatRule i o dnsRules routeRules e :
    RulProviders opts !! i = Some o →
    NewFailure pk opts
      (EvCall (TheRuleProvider i) (MFormatRule dnsRules routeRules) (Returned (Some e)))
      (Cause e ("ruleprovider[" +:+ itoa i +:+ "] format rule"))
| fail_newRouter ro dns e :
    NewFailure pk opts (EvNew (NewRouter ro dns) (Returned (Some e)))
      (Cause e "parse route options")
| fail_newInbound i o e :
    Inbounds opts !! i = Some o →
    NewFailure pk opts (EvNew (inboundCtor i o) (Returned (Some e)))
      (Cause e ("parse inbound[" +:+ itoa i +:+ "]"))
| fail_newOutbound i o e :
    Outbounds opts !! i = Some o →
    NewFailure pk opts (EvNew (outboundCtor i o) (Returned (Some e)))
      (Cause e ("parse outbound[" +:+ itoa i +:+ "]"))
| fail_newProxyProvider i o e :
    ProxyProviders opts !! i = Some o →
    NewFailure pk opts (EvNew (proxyProviderCtor i o) (Returned (Some e)))
      (Cause e ("parse proxyprovider[" +:+ itoa i +:+ "]"))
| fail_getOutbounds i o e :
    ProxyProviders opts !! i = Some o →
    NewFailure pk opts (EvCall (TheProxyProvider i) MStartGetOutbounds (Returned (Some e)))
      (Cause e ("get outbounds from proxyprovider[" +:+ itoa i +:+ "]"))
| fail_providedOutbound rt i o pp cfgs j cfg e :
    ProxyProviders opts !! i = Some o →
    ConfiguredProxyProvider pk rt i o pp →
    Built (pp_StartGetOutbounds pp) cfgs →
    cfgs !! j = Some cfg →
    NewFailure pk opts (EvNew (providedOutboundCtor cfg) (Returned (Some e)))
      (Cause e ("parse proxyprovider [" +:+ pp_Tag pp +:+ "] outbound[" +:+ itoa j +:+ "]"))
| fail_initialize inboundTags outboundTags dflt e :
    NewFailure pk opts
      (EvCall TheRouter (MInitialize inboundTags outboundTags dflt) (Returned (Some e))) e
| fail_platform e :
    is_Some (PlatformInterface opts) →
    NewFailure pk opts (EvCall ThePlatform MPlatformInitialize (Returned (Some e)))
      (Cause e "initialize platform interface")
| fail_clashServer e :
    NewFailure pk opts (EvNew NewClashServer (Returned (Some e)))
      (Cause e "create clash api server")
| fail_v2rayServer e :
    NewFailure pk opts (EvNew (NewV2RayServer "v2ray-api") (Returned (Some e)))
      (Cause e "create v2ray api server").

End NewOutcomes.

Section NewResults.

Context {W : Type}.

(** Lines 62-69: whether [New] sets up the Clash API server and the V2Ray
    API server. *)
Definition needClashAPI (opts : @Options W) : bool :=
  match ClashAPI (experimentalOrDefault (Experimental opts)), PlatformInterface opts with
  | None, None => false
  | _, _ => true
  end.

Definition needV2RayAPI (opts : @Options W) : bool :=
  match V2RayAPI (experimentalOrDefault (Experimental opts)) with
  | Some v2 => bool_decide (v2_Listen v2 ≠ "")
  | None => false
  end.

(** The pre-service map [New] fills (lines 235-254), for the servers it
    created. *)
Definition registered (clash v2ray : option (@Service W)) : gmap string (@Service W) :=
  let preServices : gmap string (@Service W) :=
    match clash with
    | Some clashServer => <["clash api" := clashServer]> ∅
    | None => ∅
    end in
  match v2ray with
  | Some v2rayServer => <["v2ray api" := v2rayServer]> preServices
  | None => preServices
  end.

(** What the last part of a [New] that succeeds leaves in the trace
    (lines 229-254). *)
Definition apiEvents (opts : @Options W) : list Event :=
  match PlatformInterface opts with
   | Some _ => [called ThePlatform MPlatformInitialize]
   | None => []
   end ++
  (if needClashAPI opts
   then [EvNew NewClashServer (Returned None); called TheRouter MSetClashServer] else []) ++
  (if needV2RayAPI opts
   then [EvNew (NewV2RayServer "v2ray-api") (Returned None); called TheRouter MSetV2RayServer]
   else []).

(** Every run of [m] adds only events that satisfy [P] to the trace. *)
Definition emitsOnly (P : Event → Prop) {A} (m : @M W A) : Prop :=
  ∀ st r st', m st = (r, st') → ∃ evs, trace st' = trace st ++ evs ∧ Forall P evs.

End NewResults.

(** The calls that start or stop a collaborator. *)
Definition lifecycleCall (ev : Event) : bool :=
  match ev with
  | EvCall _ (MPreStart | MStart | MPostStart | MClose) _ => true
  | EvNew StartOutbounds _ => true
  | _ => false
  end.

(** The construction of the router and the calls that hand it to a rule
    provider. *)
Definition routerBinding (ev : Event) : bool :=
  match ev with
  | EvNew (NewRouter _ _) _ => true
  | EvCall _ MSetRouter _ => true
  | _ => false
  end.

Section ClosedMarker.

Context {W : Type}.

(** The state with the closed marker set to [b]. *)
Definition withDone (b : bool) (st : @State W) : @State W :=
  mkState (world st) (seed st) (trace st) b (reloadChan st).

(** [m] never looks at the closed marker: it runs the same whatever the
    marker is, and leaves it as it was. *)
Definition ignoresDone {A} (m : @M W A) : Prop :=
  ∀ b st, m (withDone b st) = ((m st).1, withDone b (m st).2).

End ClosedMarker.

Section Panics.

Context {W : Type}.

(** How [New] panics: the last event of the trace, and the value of the
    panic. *)
Inductive NewPanic (pk : @Packages W) (opts : @Options W) : Event → PanicValue → Prop :=
| panic_collaborator k v :
    lifecycleCall (callOf k (Panicked v)) = false →
    NewPanic pk opts (callOf k (Panicked v)) v
| panic_defaultOutbound e :
    NewPanic pk opts (defaultBuilt (Returned (Some e))) (PErr e)
| panic_notObservable lf ev msg :
    needClashAPI opts = true →
    Built (log_New pk true (Log opts)) lf →
    lf_Observable lf = false →
    NewPanic pk opts ev (PStr msg).

End Panics.

(** * Concrete collaborators

    A world without state and collaborators with fixed behaviour, on which
    the functions of the model can be run. *)

Module Demo.

(** An aggregate kept as the list of the wrapped errors, in the order in
    which they were appended. *)
Definition appendList (err other : option error) (block : error → error) : option error :=
  match other with
  | None => err
  | Some o =>
      Some match err with
           | None => block o
           | Some (EMulti errs) => EMulti (errs ++ [block o])
           | Some e => EMulti [e; block o]
           end
  end.

#[export] Instance listExceptions : Exceptions :=
  {| Append := appendList; Append_nil := λ _ _, eq_refl |}.

(** An iteration order that follows the seed: the entries as listed on an
    even seed, reversed on an odd one. *)
Definition bySeed (A : Type) (n : nat) (l : list A) : list A :=
  if Nat.even n then l else reverse l.

Lemma bySeed_perm A n (l : list A) : bySeed A n l ≡ₚ l.
Proof. unfold bySeed. destruct (Nat.even n); [done | apply reverse_Permutation]. Defined.

Definition seededIter : MapIter := {| iterOrder := bySeed; iterOrder_perm := bySeed_perm |}.

Definition ok {A} (a : A) : @Ext unit A := λ w, (ROk a, w).
Definition failing {A} (msg : string) : @Ext unit A := λ w, (RErr (ENew msg), w).
Definition panicking {A} (msg : string) : @Ext unit A := λ w, (RPanic (PStr msg), w).

Definition service (name : string) : @Service unit :=
  {| sv_String := name; sv_PreStart := Some (ok tt); sv_Start := ok tt; sv_Close := ok tt |}.

Definition inboundOf (o : InboundOptions) : @Inbound unit :=
  {| in_Type := ib_Type o; in_Tag := ib_Tag o; in_Start := ok tt; in_Close := ok tt |}.

(** An outbound keeps the tag its constructor was given; only "direct"
    outbounds have nothing to close. *)
Definition outboundOf (tag : string) (o : OutboundOptions) : @Outbound unit :=
  {| out_Type := ob_Type o;
     out_Tag := tag;
     out_String := ob_Type o +:+ "[" +:+ tag +:+ "]";
     out_PostStart := None;
     out_Close := if decide (ob_Type o = "direct") then None else Some (ok tt) |}.

(** Every proxy provider serves the same two nodes. *)
Definition nodes : list OutboundOptions :=
  [ {| ob_Type := "shadowsocks"; ob_Tag := "node-a" |};
    {| ob_Type := "vmess"; ob_Tag := "node-b" |} ].

Definition proxyProviderOf (tag : string) : @ProxyProvider unit :=
  {| pp_Tag := tag; pp_StartGetOutbounds := ok nodes; pp_Start := ok tt; pp_Close := ok tt |}.

(** A rule provider that appends one rule of its own to each list it is
    given and leaves the lists behind the pointers alone. *)
Definition ruleProviderOf (tag : string) : @RuleProvider unit :=
  {| rp_Tag := tag;
     rp_FormatRule := λ dnsRules routeRules,
       ok {| newDNSRules := default [] dnsRules ++ ["dns:" +:+ tag];
             newRouteRules := default [] routeRules ++ ["route:" +:+ tag];
             fr_dnsRules := id;
             fr_routeRules := id |};
     rp_SetRouter := id;
     rp_Start := ok tt;
     rp_Close := ok tt |}.

(** A router that asks for the default outbound when it was given no
    outbound of type "direct". *)
Definition routerOf (start close : @Ext unit unit) : @Router unit :=
  {| r_WantsDefault := λ outbounds,
       forallb (λ out, negb (String.eqb (out_Type out) "direct")) outbounds;
     r_Initialize := λ _ _ _ _ _, ok tt;
     r_SetClashServer := λ _, id;
     r_SetV2RayServer := λ _, id;
     r_Start := start;
     r_Close := close |}.

Definition packages : @Packages unit :=
  {| time_Now := λ _, 0;
     time_Since := λ _ _, "0.00";
     log_New := λ observable _,
       ok {| lf_Observable := observable; lf_Close := Some (ok tt) |};
     ruleprovider_NewRuleProvider := λ _ tag _, ok (ruleProviderOf tag);
     route_NewRouter := λ _ _ _ _, ok (routerOf (ok tt) (ok tt));
     inbound_New := λ _ _ o, ok (inboundOf o);
     outbound_New := λ _ _ tag o, ok (outboundOf tag o);
     proxyprovider_NewProxyProvider := λ _ _ tag _, ok (proxyProviderOf tag);
     experimental_NewClashServer := λ _ _ _, ok (service "clash");
     experimental_NewV2RayServer := λ _ _, ok (service "v2ray");
     startOutbounds := λ _, ok tt |}.

(** The same packages, except that no direct outbound can be built. *)
Definition packagesWithoutDirect : @Packages unit :=
  {| time_Now := time_Now packages;
     time_Since := time_Since packages;
     log_New := log_New packages;
     ruleprovider_NewRuleProvider := ruleprovider_NewRuleProvider packages;
     route_NewRouter := route_NewRouter packages;
     inbound_New := inbound_New packages;
     outbound_New := λ r lg tag o,
       if decide (ob_Type o = "direct") then failing "direct: not available"
       else outbound_New packages r lg tag o;
     proxyprovider_NewProxyProvider := proxyprovider_NewProxyProvider packages;
     experimental_NewClashServer := experimental_NewClashServer packages;
     experimental_NewV2RayServer := experimental_NewV2RayServer packages;
     startOutbounds := startOutbounds packages |}.

Definition st0 : @State unit :=
  {| world := tt; seed := 0; trace := []; done := false; reloadChan := 0 |}.

Definition noOptions : @Options unit :=
  {| Log := None; DNS := None; NTP := None; Inbounds := []; Outbounds := [];
     Route := None; Experimental := None; ProxyProviders := []; RulProviders := [];
     PlatformInterface := None |}.

(** A Box put together by hand: an inbound whose close fails, an outbound
    without closer, a router whose close fails, and two pre-services. *)
Definition box : @Box unit :=
  {| createdAt := 0;
     router := routerOf (ok tt) (failing "router busy");
     inbounds := [ {| in_Type := "mixed"; in_Tag := "in-a";
                      in_Start := ok tt; in_Close := failing "listener gone" |} ];
     outbounds := [ outboundOf "direct" {| ob_Type := "direct"; ob_Tag := "" |};
                    outboundOf "proxy" {| ob_Type := "vmess"; ob_Tag := "proxy" |} ];
     proxyProviders := [ proxyProviderOf "pp" ];
     ruleProviders := [ ruleProviderOf "rp" ];
     logFactory := {| lf_Observable := true; lf_Close := Some (ok tt) |};
     preServices := <["v2ray api" := service "v2ray"]> (<["clash api" := service "clash"]> ∅);
     postServices := ∅ |}.

(** The same Box with a router that does not start. *)
Definition boxRouterDown : @Box unit :=
  {| createdAt := 0;
     router := routerOf (failing "listen tcp :53: bind: address already in use") (ok tt);
     inbounds := inbounds box;
     outbounds := outbounds box;
     proxyProviders := proxyProviders box;
     ruleProviders := ruleProviders box;
     logFactory := logFactory box;
     preServices := preServices box;
     postServices := postServices box |}.

(** The same Box with an inbound that neither starts nor closes, and one
    whose close panics. *)
Definition boxInboundDown (close : @Ext unit unit) : @Box unit :=
  {| createdAt := 0;
     router := routerOf (ok tt) (ok tt);
     inbounds := [ {| in_Type := "mixed"; in_Tag := "in-a";
                      in_Start := failing "listen tcp :1080: bind: permission denied";
                      in_Close := close |} ];
     outbounds := outbounds box;
     proxyProviders := proxyProviders box;
     ruleProviders := ruleProviders box;
     logFactory := logFactory box;
     preServices := preServices box;
     postServices := postServices box |}.

(** A Box whose inbound does not start and whose close panics, and the
    error its [start] returns. *)
Definition boxPanicsOnClose : @Box unit := boxInboundDown (panicking "close of nil listener").

Definition inboundStartError : error :=
  ECause "initialize inbound/mixed[in-a]" (ENew "listen tcp :1080: bind: permission denied").

(** Configurations. *)
Definition oneTaggedInbound : @Options unit :=
  {| Log := None; DNS := None; NTP := None;
     Inbounds := [ {| ib_Type := "mixed"; ib_Tag := "in-a" |};
                   {| ib_Type := "tun"; ib_Tag := "" |} ];
     Outbounds := [ {| ob_Type := "direct"; ob_Tag := "" |} ];
     Route := None; Experimental := None; ProxyProviders := [];
     RulProviders := [];
     PlatformInterface := None |}.

Definition oneRuleProviderNoRules : @Options unit :=
  {| Log := None; DNS := None; NTP := None; Inbounds := [];
     Outbounds := [ {| ob_Type := "direct"; ob_Tag := "" |} ];
     Route := None; Experimental := None; ProxyProviders := [];
     RulProviders := [ {| rpo_Tag := ""; rpo_Url := "https://rules.example/a.yaml" |} ];
     PlatformInterface := None |}.

Definition twoRuleProvidersWithRouteRules : @Options unit :=
  {| Log := None; DNS := None; NTP := None; Inbounds := [];
     Outbounds := [ {| ob_Type := "direct"; ob_Tag := "" |} ];
     Route := Some {| ro_Rules := ["geoip:private"]; ro_Final := "direct" |};
     Experimental := None; ProxyProviders := [];
     RulProviders := [ {| rpo_Tag := "ads"; rpo_Url := "https://rules.example/ads.yaml" |};
                       {| rpo_Tag := ""; rpo_Url := "https://rules.example/b.yaml" |} ];
     PlatformInterface := None |}.

Definition bothApis : @Options unit :=
  {| Log := None; DNS := None; NTP := None; Inbounds := [];
     Outbounds := [ {| ob_Type := "direct"; ob_Tag := "" |} ];
     Route := None;
     Experimental := Some {| ClashAPI := Some "127.0.0.1:9090";
                             V2RayAPI := Some {| v2_Listen := "127.0.0.1:8080" |};
                             Debug := None |};
     ProxyProviders := []; RulProviders := [];
     PlatformInterface := None |}.

Definition twoProxyProviders : @Options unit :=
  {| Log := None; DNS := None; NTP := None; Inbounds := [];
     Outbounds := [ {| ob_Type := "vmess"; ob_Tag := "static" |} ];
     Route := None; Experimental := None;
     ProxyProviders := [ {| ppo_Tag := "sub-1"; ppo_Url := "https://sub.example/1" |};
                         {| ppo_Tag := ""; ppo_Url := "https://sub.example/2" |} ];
     RulProviders := [];
     PlatformInterface := None |}.

(** The Box [New] returns for a configuration, from the state [st0]. *)
Definition newBox (pk : @Packages unit) (options : @Options unit) : @Box unit :=
  match (New pk options st0).1 with
  | Ok b => b
  | _ => box
  end.

(** The state [New] leaves, and the same state with another seed for the
    next map iteration. *)
Definition afterNew (options : @Options unit) : @State unit := (New packages options st0).2.

Definition reseeded (n : nat) (st : @State unit) : @State unit :=
  {| world := world st; seed := n; trace := trace st; done := done st;
     reloadChan := reloadChan st |}.

(** A Box with an outbound whose [PostStart] fails, after one that has no
    [PostStart] method. *)
Definition boxLateOutbound : @Box unit :=
  {| createdAt := 0;
     router := routerOf (ok tt) (ok tt);
     inbounds := [];
     outbounds := [ outboundOf "direct" {| ob_Type := "direct"; ob_Tag := "" |};
                    {| out_Type := "selector";
                       out_Tag := "select";
                       out_String := "selector[select]";
                       out_PostStart := Some (failing "dependency[proxy] not found");
                       out_Close := Some (ok tt) |} ];
     proxyProviders := [];
     ruleProviders := [];
     logFactory := {| lf_Observable := false; lf_Close := Some (ok tt) |};
     preServices := ∅;
     postServices := ∅ |}.

(** The initial state of a Box that has been closed. *)
Definition closed : @State unit := withDone true st0.

(** Packages whose log factory is never observable. *)
Definition packagesPlainLog : @Packages unit :=
  {| time_Now := time_Now packages;
     time_Since := time_Since packages;
     log_New := λ _ _, ok {| lf_Observable := false; lf_Close := Some (ok tt) |};
     ruleprovider_NewRuleProvider := ruleprovider_NewRuleProvider packages;
     route_NewRouter := route_NewRouter packages;
     inbound_New := inbound_New packages;
     outbound_New := outbound_New packages;
     proxyprovider_NewProxyProvider := proxyprovider_NewProxyProvider packages;
     experimental_NewClashServer := experimental_NewClashServer packages;
     experimental_NewV2RayServer := experimental_NewV2RayServer packages;
     startOutbounds := startOutbounds packages |}.

(** A Box whose router panics when it is started. *)
Definition boxRouterPanics : @Box unit :=
  {| createdAt := 0;
     router := routerOf (panicking "nil map") (ok tt);
     inbounds := inbounds box;
     outbounds := outbounds box;
     proxyProviders := proxyProviders box;
     ruleProviders := ruleProviders box;
     logFactory := logFactory box;
     preServices := preServices box;
     postServices := postServices box |}.

End Demo.

(** * Proofs *)

Section Proofs.

Context {W : Type} `{!Exceptions} `{!MapIter}.

Implicit Types (s : @Box W) (st : @State W).

(** ** Running the control-flow combinators *)

Lemma bind_run {A B} (m : M A) (k : A → M B) st :
  (m ≫= k) st =
  match m st with
  | (Ok a, st') => k a st'
  | (Fail err, st') => (Fail err, st')
  | (Panic v, st') => (Panic v, st')
  end.
Proof. reflexivity. Qed.

Lemma forRange_nil {A B} (body : nat → A → B → M B) i acc st :
  forRange body i [] acc st = (Ok acc, st).
Proof. reflexivity. Qed.

Lemma forRange_cons {A B} (body : nat → A → B → M B) i x xs acc st :
  forRange body i (x :: xs) acc st =
  match body i x acc st with
  | (Ok acc', st') => forRange body (S i) xs acc' st'
  | (Fail err, st') => (Fail err, st')
  | (Panic v, st') => (Panic v, st')
  end.
Proof. reflexivity. Qed.

Lemma forRange_shift {A B} (body : nat → A → B → M B) i xs acc st :
  forRange body (S i) xs acc st = forRange (λ j, body (S j)) i xs acc st.
Proof.
  revert i acc st. induction xs as [|x xs IH]; intros i acc st; [done|].
  rewrite !forRange_cons. destruct (body (S i) x acc st) as [[acc'|err|v] st']; auto.
Qed.

(** Unfolds the straight-line part of a run. *)
Ltac munfold :=
  repeat (unfold mbind, mret, M_bind, M_ret, logger, emit, effect, fail, panic,
            orReturn, readWorld, common_Must in *; cbn in * ).

Lemma imap_ignore {A B} (f : A → B) (l : list A) : imap (λ _ : nat, f) l = f <$> l.
Proof. apply imap_const. Qed.

(** ** Close *)

(** One step of the teardown, in the shape shared by every loop body of
    [Close]. *)
Lemma closeStep_run (t : @Target W) (errors : option error) (m : M (option error)) st r st' :
  (∀ st0, m st0 =
     (logger Trace ("closing " +:+ tg_name t);;
      e ← common_Close (tg_comp t) (tg_closer t);
      mret (Append errors e (λ err, Cause err ("close " +:+ tg_name t)))) st0) →
  m st = (r, st') →
  (∀ v, r ≠ Panic v) →
  ∃ e, visitOk (t, e) ∧
       trace st' = trace st ++ visitEvents (t, e) ∧
       done st' = done st ∧
       r = Ok (Append errors e (λ err, Cause err ("close " +:+ tg_name t))).
Proof.
  intros Hm Hrun Hnp. rewrite Hm in Hrun. clear Hm.
  unfold visitOk, visitEvents, common_Close, call in *. munfold.
  destruct (tg_closer t) as [f|] eqn:Hf; munfold.
  - destruct (f (world st)) as [[[]|e|v] w]; munfold; simplify_eq.
    + exists None. cbn. rewrite <- app_assoc. done.
    + exists (Some e). cbn. rewrite <- app_assoc. done.
    + by destruct (Hnp v).
  - simplify_eq. exists None. done.
Qed.

Lemma closeLoop_run {A} (tgt : nat → A → @Target W)
    (body : nat → A → option error → M (option error)) xs errors st r st' :
  (∀ i x errors st0, body i x errors st0 =
     (logger Trace ("closing " +:+ tg_name (tgt i x));;
      e ← common_Close (tg_comp (tgt i x)) (tg_closer (tgt i x));
      mret (Append errors e (λ err, Cause err ("close " +:+ tg_name (tgt i x))))) st0) →
  forRange body 0 xs errors st = (r, st') →
  (∀ v, r ≠ Panic v) →
  ∃ vs, vs.*1 = imap tgt xs ∧
        Forall visitOk vs ∧
        trace st' = trace st ++ concat (visitEvents <$> vs) ∧
        done st' = done st ∧
        r = Ok (foldVisits vs errors).
Proof.
  revert tgt body errors st.
  induction xs as [|x xs IH]; intros tgt body errors st Hbody Hrun Hnp.
  - rewrite forRange_nil in Hrun. simplify_eq. exists []. by rewrite app_nil_r.
  - rewrite forRange_cons in Hrun.
    destruct (body 0 x errors st) as [r1 st1] eqn:H1.
    assert (∀ v, r1 ≠ Panic v) as Hnp1.
    { intros v ->. simplify_eq. by destruct (Hnp v). }
    destruct (closeStep_run (tgt 0 x) errors (body 0 x errors) st r1 st1)
      as (e & Hok & Htr & Hd & ->); auto.
    rewrite forRange_shift in Hrun.
    edestruct (IH (λ j, tgt (S j)) (λ j, body (S j))) as (vs & Hvs & Hoks & Htr' & Hd' & ->);
      [intros; apply Hbody | exact Hrun | exact Hnp |].
    exists ((tgt 0 x, e) :: vs). cbn. split_and!.
    + by rewrite Hvs.
    + by constructor.
    + by rewrite Htr', Htr, <- app_assoc.
    + congruence.
    + done.
Qed.

Lemma bind_inv {A B} (m : M A) (k : A → M B) st r st' :
  (m ≫= k) st = (r, st') →
  (∀ v, r ≠ Panic v) →
  ∃ r1 st1, m st = (r1, st1) ∧ (∀ v, r1 ≠ Panic v) ∧
            match r1 with
            | Ok a => k a st1 = (r, st')
            | Fail err => r = Fail err ∧ st' = st1
            | Panic _ => False
            end.
Proof.
  intros Hrun Hnp. rewrite bind_run in Hrun.
  destruct (m st) as [[a|err|v] st1].
  - exists (Ok a), st1. done.
  - exists (Fail err), st1. by simplify_eq.
  - simplify_eq. by destruct (Hnp v).
Qed.

Lemma foldVisits_app (vs1 vs2 : list (@Visit W)) errors :
  foldVisits (vs1 ++ vs2) errors = foldVisits vs2 (foldVisits vs1 errors).
Proof. apply foldl_app. Qed.

Lemma common_Close_run (c : Comp) (closer : option (@Ext W unit)) st r st' :
  common_Close c closer st = (r, st') →
  (∀ v, r ≠ Panic v) →
  ∃ e, r = Ok e ∧ (closer = None → e = None) ∧
       trace st' = trace st ++
         match closer with Some _ => [EvCall c MClose (Returned e)] | None => [] end ∧
       done st' = done st.
Proof.
  intros Hrun Hnp. unfold common_Close, call in Hrun. munfold.
  destruct closer as [f|]; munfold.
  - destruct (f (world st)) as [[[]|e|v] w]; munfold; simplify_eq.
    + by exists None.
    + by exists (Some e).
    + by destruct (Hnp v).
  - simplify_eq. exists None. by rewrite app_nil_r.
Qed.

Lemma guarded_Append (errors r : option error) (block : error → error) :
  match r with
  | Some err => Append errors (Some err) block
  | None => errors
  end = Append errors r block.
Proof. destruct r; by rewrite ?Append_nil. Qed.

(** Applies [closeLoop_run] to a loop of [Close] and proves that the body
    of the loop is a teardown step. *)
Ltac step_shape :=
  unfold common_Close, call, mbind, mret, M_bind, M_ret, logger, emit; cbn;
  repeat (match goal with
          | |- context [match ?c with Some _ => _ | None => _ end] => destruct c
          | |- context [?f (world ?st)] => destruct (f (world st)) as [[[]|?|?] ?]
          end; cbn);
  try done.

Ltac close_loop tgt H1 Hnp1 vs Hvs Hok Htr Hd :=
  let HL := fresh "HL" in
  pose proof (λ Hb, closeLoop_run tgt _ _ _ _ _ _ Hb H1 Hnp1) as HL;
  destruct HL as (vs & Hvs & Hok & Htr & Hd & ->);
  [ let x := fresh "x" in
    intros ? x ? ?; try destruct x as [? ?]; step_shape
  | clear H1 Hnp1 ].

(** What a call of [Close] that returns has done. *)
Lemma Close_run s st r st' :
  done st = false →
  Close s st = (r, st') →
  (∀ v, r ≠ Panic v) →
  ∃ (post pre : list (string * Service)) (vs : list Visit),
    post ≡ₚ map_to_list (postServices s) ∧
    pre ≡ₚ map_to_list (preServices s) ∧
    vs.*1 = closeTargets s post pre ∧
    Forall visitOk vs ∧
    trace st' = trace st ++ concat (visitEvents <$> vs) ∧
    r = returned (foldVisits vs None).
Proof.
  intros Hd Hrun Hnp. unfold Close in Hrun.
  apply bind_inv in Hrun as (r0 & st0 & H0' & _ & Hrun); [|done].
  unfold closeDone in H0'. rewrite Hd in H0'. simplify_eq.
  apply bind_inv in Hrun as (r1 & st1 & H1 & _ & Hrun); [|done].
  unfold rangeMap in H1. simplify_eq. cbn [world seed trace done reloadChan] in *.
  set (post := iterOrder (seed st) (map_to_list (postServices s))) in *.
  apply bind_inv in Hrun as (r1 & st1 & H1 & Hnp1 & Hrun); [|done].
  close_loop (λ _ : nat, serviceTarget (W:=W) PostService) H1 Hnp1 vs1 Hvs1 Hok1 Htr1 Hd1.
  apply bind_inv in Hrun as (r2 & st2 & H2 & Hnp2 & Hrun); [|done].
  close_loop (ruleProviderTarget (W:=W)) H2 Hnp2 vs2 Hvs2 Hok2 Htr2 Hd2.
  apply bind_inv in Hrun as (r3 & st3 & H3 & Hnp3 & Hrun); [|done].
  close_loop (proxyProviderTarget (W:=W)) H3 Hnp3 vs3 Hvs3 Hok3 Htr3 Hd3.
  apply bind_inv in Hrun as (r4 & st4 & H4 & Hnp4 & Hrun); [|done].
  close_loop (inboundTarget (W:=W)) H4 Hnp4 vs4 Hvs4 Hok4 Htr4 Hd4.
  apply bind_inv in Hrun as (r5 & st5 & H5 & Hnp5 & Hrun); [|done].
  close_loop (outboundTarget (W:=W)) H5 Hnp5 vs5 Hvs5 Hok5 Htr5 Hd5.
  apply bind_inv in Hrun as (r6 & st6 & H6 & _ & Hrun); [|done].
  unfold logger, emit in H6. simplify_eq.
  apply bind_inv in Hrun as (r7 & st7 & H7 & Hnp7 & Hrun); [|done].
  destruct (common_Close_run _ _ _ _ _ H7 Hnp7) as (e7 & -> & _ & Htr7 & Hd7).
  clear H7 Hnp7. rewrite guarded_Append in Hrun.
  apply bind_inv in Hrun as (r8 & st8 & H8 & _ & Hrun); [|done].
  unfold rangeMap in H8. simplify_eq. cbn [world seed trace done reloadChan] in *.
  set (pre := iterOrder (seed st7) (map_to_list (preServices s))) in *.
  apply bind_inv in Hrun as (r9 & st9 & H9 & Hnp9 & Hrun); [|done].
  close_loop (λ _ : nat, serviceTarget (W:=W) PreService) H9 Hnp9 vs9 Hvs9 Hok9 Htr9 Hd9.
  apply bind_inv in Hrun as (r10 & st10 & H10 & _ & Hrun); [|done].
  unfold logger, emit in H10. simplify_eq.
  apply bind_inv in Hrun as (r11 & st11 & H11 & Hnp11 & Hrun); [|done].
  destruct (common_Close_run _ _ _ _ _ H11 Hnp11) as (e11 & -> & Hnone & Htr11 & Hd11).
  clear H11 Hnp11. rewrite guarded_Append in Hrun.
  set (vs := vs1 ++ vs2 ++ vs3 ++ vs4 ++ vs5 ++ [(routerTarget (router s), e7)] ++
             vs9 ++ [(logFactoryTarget (logFactory s), e11)]).
  assert (foldVisits vs None =
          Append (foldVisits vs9 (Append (foldVisits vs5 (foldVisits vs4 (foldVisits vs3
            (foldVisits vs2 (foldVisits vs1 None))))) e7 (λ err, Cause err "close router")))
            e11 (λ err, Cause err "close log factory")) as Hfold.
  { unfold vs. by rewrite !foldVisits_app. }
  rewrite <- Hfold in Hrun.
  assert (r = returned (foldVisits vs None) ∧ st' = st11) as [Hr ->].
  { destruct (foldVisits vs None); munfold; by simplify_eq. }
  exists post, pre, vs. split_and!.
  - apply iterOrder_perm.
  - apply iterOrder_perm.
  - unfold vs, closeTargets. rewrite !fmap_app, Hvs1, Hvs2, Hvs3, Hvs4, Hvs5, Hvs9.
    by rewrite !imap_ignore.
  - unfold vs. rewrite !Forall_app. split_and!; try done.
    + by constructor.
    + constructor; [exact Hnone | constructor].
  - rewrite Htr11. cbn [record trace]. rewrite Htr9. cbn [trace]. rewrite Htr7.
    cbn [record trace]. rewrite Htr5, Htr4, Htr3, Htr2, Htr1.
    unfold vs. rewrite !fmap_app, !concat_app. cbn. rewrite !app_nil_r, <- !app_assoc.
    by destruct (lf_Close (logFactory s)).
  - exact Hr.
Qed.

(** ** What a run leaves alone *)

#[export] Instance sameDone_frame : Frame (sameDone (W:=W)).
Proof. split; unfold sameDone; intros; cbn; congruence. Qed.

#[export] Instance traceGrows_frame : Frame (traceGrows (W:=W)).
Proof.
  split; unfold traceGrows.
  - intros st. exists []. by rewrite app_nil_r.
  - intros st1 st2 st3 [e1 H1] [e2 H2]. exists (e1 ++ e2). by rewrite H2, H1, app_assoc.
  - intros ev st. by exists [ev].
  - intros w st. exists []. by rewrite app_nil_r.
  - intros st. exists []. cbn. by rewrite app_nil_r.
Qed.

Section Preserves.

Context (P : @State W → @State W → Prop) `{!Frame P}.

Lemma preserves_ret {A} (a : A) : preserves P (mret a : M A).
Proof. intros st r st' Hrun. munfold. simplify_eq. apply frame_refl. Qed.

Lemma preserves_fail {A} err : preserves P (fail err : M A).
Proof. intros st r st' Hrun. munfold. simplify_eq. apply frame_refl. Qed.

Lemma preserves_panic {A} v : preserves P (panic v : M A).
Proof. intros st r st' Hrun. munfold. simplify_eq. apply frame_refl. Qed.

Lemma preserves_bind {A B} (m : M A) (k : A → M B) :
  preserves P m → (∀ a, preserves P (k a)) → preserves P (m ≫= k).
Proof.
  intros Hm Hk st r st' Hrun. rewrite bind_run in Hrun.
  destruct (m st) as [[a|err|v] st1] eqn:H1; apply Hm in H1.
  - apply Hk in Hrun. by eapply frame_trans.
  - by simplify_eq.
  - by simplify_eq.
Qed.

Lemma preserves_logger lvl msg : preserves P (logger lvl msg).
Proof. intros st r st' Hrun. munfold. simplify_eq. apply frame_record. Qed.

Lemma preserves_emit ev : preserves P (emit ev).
Proof. intros st r st' Hrun. munfold. simplify_eq. apply frame_record. Qed.

Lemma preserves_effect ev (f : W → W) : preserves P (effect ev f).
Proof.
  intros st r st' Hrun. munfold. simplify_eq.
  eapply frame_trans; [apply frame_world | apply frame_record].
Qed.

Lemma preserves_readWorld {A} (f : W → A) : preserves P (readWorld f).
Proof. intros st r st' Hrun. munfold. simplify_eq. apply frame_refl. Qed.

Lemma preserves_call {A} ev (f : Ext A) : preserves P (call ev f).
Proof.
  intros st r st' Hrun. unfold call in Hrun.
  destruct (f (world st)) as [[a|e|v] w]; simplify_eq;
    (eapply frame_trans; [apply frame_world | apply frame_record]).
Qed.

Lemma preserves_orReturn {A} (r : error + A) wrap : preserves P (orReturn r wrap).
Proof. destruct r; [apply preserves_fail | apply preserves_ret]. Qed.

Lemma preserves_common_Must err : preserves P (common_Must err).
Proof. destruct err; [apply preserves_panic | apply preserves_ret]. Qed.

Lemma preserves_rangeMap {A} (m : gmap string A) : preserves P (rangeMap m).
Proof. intros st r st' Hrun. unfold rangeMap in Hrun. simplify_eq. apply frame_seed. Qed.

Lemma preserves_common_Close c (closer : option (@Ext W unit)) :
  preserves P (common_Close c closer).
Proof.
  destruct closer; cbn.
  - apply preserves_bind; [apply preserves_call | intros; apply preserves_ret].
  - apply preserves_ret.
Qed.

Lemma preserves_forRange {A B} (body : nat → A → B → M B) i xs acc :
  (∀ i x acc, preserves P (body i x acc)) → preserves P (forRange body i xs acc).
Proof.
  intros Hbody. revert i acc.
  induction xs as [|x xs IH]; intros i acc; cbn.
  - apply preserves_ret.
  - apply preserves_bind; auto.
Qed.

End Preserves.

Create HintDb frame discriminated.
#[local] Hint Resolve preserves_ret preserves_fail preserves_panic preserves_logger
  preserves_emit preserves_effect preserves_readWorld preserves_call preserves_orReturn
  preserves_common_Must preserves_rangeMap preserves_common_Close : frame.
#[local] Hint Extern 0 (Frame _) => apply _ : frame.

(** Proves [preserves] of a computation built from the combinators. *)
Ltac frame :=
  repeat first
    [ match goal with |- Frame _ => apply _ end
    | progress eauto with frame
    | apply preserves_bind
    | apply preserves_forRange
    | progress intros
    | progress lazy zeta
    | match goal with
      | |- preserves _ ((match ?x with _ => _ end) _) => destruct x
      | |- preserves _ (match ?x with _ => _ end) => destruct x
      end ].

Lemma Close_sets_done s st : done (Close s st).2 = true.
Proof.
  unfold Close. rewrite bind_run. unfold closeDone at 1.
  destruct (done st) eqn:Hd; [done|].
  match goal with |- done (?m ?st0).2 = true =>
    destruct (m st0) as [r st'] eqn:Hrun; assert (preserves sameDone m) as Hk; [clear Hrun|] end.
  { frame. }
  by apply Hk in Hrun.
Qed.

(** C2: [Close] is idempotent.  Whatever state the Box is in, once a call
    of [Close] has ended, a later call returns [os.ErrClosed] and changes
    nothing: no event is added to the trace (no subsystem is closed a
    second time) and the state after it is the state before it; and so for
    every further call. *)
Theorem Close_idempotent s st :
  let st1 := (Close s st).2 in
  Close s st1 = (Fail ErrClosed, st1) ∧
  ∀ n, Nat.iter n (λ st', (Close s st').2) st1 = st1.
Proof.
  intros st1.
  assert (Close s st1 = (Fail ErrClosed, st1)) as Hagain.
  { unfold Close at 1. rewrite bind_run. unfold closeDone.
    subst st1. by rewrite Close_sets_done. }
  split; [done|].
  induction n as [|n IH]; [done|]. by rewrite Nat.iter_succ, IH, Hagain.
Qed.

(** ** PreStart and Start *)

Variable pk : @Packages W.

Lemma bind_fail_inv {A B} (m : M A) (k : A → M B) st err st' :
  (m ≫= k) st = (Fail err, st') →
  m st = (Fail err, st') ∨ ∃ a st1, m st = (Ok a, st1) ∧ k a st1 = (Fail err, st').
Proof.
  rewrite bind_run. destruct (m st) as [[a|e|v] st1]; intros Hrun; simplify_eq; eauto.
Qed.

Lemma forRange_fail {A B} (body : nat → A → B → M B) xs i acc st err st' :
  forRange body i xs acc st = (Fail err, st') →
  ∃ j x acc0 st0, xs !! j = Some x ∧ body (i + j) x acc0 st0 = (Fail err, st').
Proof.
  revert i acc st. induction xs as [|x xs IH]; intros i acc st Hrun; [done|].
  rewrite forRange_cons in Hrun.
  destruct (body i x acc st) as [[acc'|e|v] st1] eqn:H1; simplify_eq.
  - apply IH in Hrun as (j & y & acc0 & st0 & Hj & Hy).
    exists (S j), y, acc0, st0. split; [done|]. by replace (i + S j) with (S i + j) by lia.
  - exists 0, x, acc, st. by rewrite Nat.add_0_r.
Qed.

Lemma callStep_fail (ev : Ret → Event) (f : Ext unit) (wrap : error → error) st err st' :
  (r ← call ev f; orReturn r wrap) st = (Fail err, st') →
  ∃ e, last (trace st') = Some (ev (Returned (Some e))) ∧ err = wrap e.
Proof.
  unfold call. munfold. intros Hrun.
  destruct (f (world st)) as [[[]|e|v] w]; munfold; simplify_eq.
  exists e. cbn. by rewrite last_snoc.
Qed.

Lemma loggedStep_fail lvl msg (ev : Ret → Event) (f : Ext unit) (wrap : error → error)
    st err st' :
  (logger lvl msg;; r ← call ev f; orReturn r wrap) st = (Fail err, st') →
  ∃ e, last (trace st') = Some (ev (Returned (Some e))) ∧ err = wrap e.
Proof.
  intros Hrun. apply bind_fail_inv in Hrun as [Hrun | (a & st1 & _ & Hrun)].
  - unfold logger, emit in Hrun. by simplify_eq.
  - by apply callStep_fail in Hrun.
Qed.

Lemma preStart_failure s st err st' :
  preStart pk s st = (Fail err, st') →
  ∃ ev, last (trace st') = Some ev ∧ StartFailure s ev err.
Proof.
  unfold preStart. intros Hrun.
  apply bind_fail_inv in Hrun as [Hrun | (pre & st1 & _ & Hrun)].
  { unfold rangeMap in Hrun. by simplify_eq. }
  apply bind_fail_inv in Hrun as [Hrun | ([] & st2 & _ & Hrun)].
  { apply forRange_fail in Hrun as (j & [name sv] & [] & st0 & _ & Hrun).
    destruct (sv_PreStart sv) as [f|]; [|munfold; by simplify_eq].
    apply loggedStep_fail in Hrun as (e & Hlast & ->).
    eexists. split; [exact Hlast | constructor]. }
  apply bind_fail_inv in Hrun as [Hrun | (r & st3 & Hcall & Hrun)].
  { unfold call in Hrun. by destruct (startOutbounds _ _ _) as [[[]|?|?] ?]. }
  apply bind_fail_inv in Hrun as [Hrun | ([] & st4 & _ & Hrun)].
  { destruct (callStep_fail (EvNew StartOutbounds) (startOutbounds pk (outbounds s)) id st2 err st')
      as (e & Hlast & ->).
    - rewrite bind_run, Hcall. exact Hrun.
    - eexists. split; [exact Hlast | constructor]. }
  apply callStep_fail in Hrun as (e & Hlast & ->).
  eexists. split; [exact Hlast | constructor].
Qed.

Lemma start_failure s st err st' :
  start pk s st = (Fail err, st') →
  ∃ ev, last (trace st') = Some ev ∧ StartFailure s ev err.
Proof.
  unfold start. intros Hrun.
  apply bind_fail_inv in Hrun as [Hrun | ([] & st1 & _ & Hrun)].
  { by eapply preStart_failure. }
  apply bind_fail_inv in Hrun as [Hrun | (pre & st2 & _ & Hrun)].
  { unfold rangeMap in Hrun. by simplify_eq. }
  apply bind_fail_inv in Hrun as [Hrun | ([] & st3 & _ & Hrun)].
  { apply forRange_fail in Hrun as (j & [name sv] & [] & st0 & _ & Hrun).
    apply loggedStep_fail in Hrun as (e & Hlast & ->).
    eexists. split; [exact Hlast | constructor]. }
  apply bind_fail_inv in Hrun as [Hrun | ([] & st4 & _ & Hrun)].
  { apply forRange_fail in Hrun as (j & pp & [] & st0 & Hj & Hrun).
    apply loggedStep_fail in Hrun as (e & Hlast & ->).
    eexists. split; [exact Hlast | by constructor]. }
  apply bind_fail_inv in Hrun as [Hrun | ([] & st5 & _ & Hrun)].
  { apply forRange_fail in Hrun as (j & rp & [] & st0 & Hj & Hrun).
    apply loggedStep_fail in Hrun as (e & Hlast & ->).
    eexists. split; [exact Hlast | by constructor]. }
  apply forRange_fail in Hrun as (j & in_ & [] & st0 & Hj & Hrun).
  apply loggedStep_fail in Hrun as (e & Hlast & ->).
  eexists. split; [exact Hlast | by apply fail_inbound].
Qed.

Lemma stage_failure (e : Entry) s st err st' :
  stage pk e s st = (Fail err, st') →
  ∃ ev, last (trace st') = Some ev ∧ StartFailure s ev err.
Proof. destruct e; [apply preStart_failure | apply start_failure]. Qed.


Lemma rollback_run (e : Entry) s st err st1 :
  stage pk e s st = (Fail err, st1) →
  entry pk e s st = afterRollback err (Close s st1).1 (Close s st1).2.
Proof.
  intros Hstage.
  assert (∀ m : M unit, m st = (Fail err, st1) →
          (x ← try m;
           match x with
           | Some err0 => deferRecover (onEarlyClosePanic err0) (discard (Close s);; fail err0)
           | None => mret tt
           end) st = afterRollback err (Close s st1).1 (Close s st1).2) as Hgen.
  { intros m Hm. unfold try, discard, try, deferRecover, onEarlyClosePanic, afterRollback.
    munfold. rewrite Hm. cbn.
    by destruct (Close s st1) as [[[]|e1|v] st2]. }
  destruct e; cbn in *; unfold PreStart, Start.
  - specialize (Hgen _ Hstage). unfold try in *. munfold. by rewrite Hstage in *.
  - specialize (Hgen _ Hstage). unfold try in *. munfold. by rewrite Hstage in *.
Qed.

(** C3, as the code has it: when the stage of [PreStart] or [Start] fails,
    [Close] is run on the Box in the state the failure left, and the caller
    gets the error of the stage unchanged, whatever the rollback returned;
    if the rollback panics, the original error is logged, the stack is
    printed and the panic is raised again.  That error is the error of the
    call that failed last, wrapped with the name of the component for a
    pre-service, a proxy provider, a rule provider or an inbound, and passed
    on as it is for [startOutbounds] and for the router. *)
Theorem rollback_returns_original_error (e : Entry) s st err st1 :
  stage pk e s st = (Fail err, st1) →
  (∃ ev, last (trace st1) = Some ev ∧ StartFailure s ev err) ∧
  entry pk e s st = afterRollback err (Close s st1).1 (Close s st1).2 ∧
  (∀ v, (Close s st1).1 = Panic v →
        (entry pk e s st).1 = Panic (PStr ("panic on early close: " +:+ Sprint v)) ∧
        trace (entry pk e s st).2 =
          trace (Close s st1).2 ++
          [EvLog Error (errorString (Cause err "origin error")); EvPrintStack]) ∧
  ((∀ v, (Close s st1).1 ≠ Panic v) → (entry pk e s st).1 = Fail err).
Proof.
  intros Hstage. split; [by eapply stage_failure|].
  pose proof (rollback_run e s st err st1 Hstage) as Hrun.
  split; [done|]. rewrite Hrun. unfold afterRollback. split.
  - intros v ->. cbn. by rewrite <- app_assoc.
  - intros Hnp. destruct (Close s st1).1 as [[]|e1|v]; try done. by destruct (Hnp v).
Qed.

(** ** New *)

Lemma bind_ok_inv {A B} (m : M A) (k : A → M B) st b st' :
  (m ≫= k) st = (Ok b, st') →
  ∃ a st1, m st = (Ok a, st1) ∧ k a st1 = (Ok b, st').
Proof.
  rewrite bind_run. destruct (m st) as [[a|e|v] st1]; intros Hrun; simplify_eq; eauto.
Qed.

Lemma ran_of_run {A} (m : M A) st a st' :
  preserves traceGrows m →
  m st = (Ok a, st') →
  ∃ evs, trace st' = trace st ++ evs ∧ Ran m a evs.
Proof.
  intros Hm Hrun. destruct (Hm _ _ _ Hrun) as [evs Hevs].
  exists evs. split; [done|]. by exists st, st'.
Qed.

Lemma forRange_Iterated {A B} (body : nat → A → B → M B) i xs acc st acc' st' :
  (∀ i x acc, preserves traceGrows (body i x acc)) →
  forRange body i xs acc st = (Ok acc', st') →
  ∃ evs, trace st' = trace st ++ evs ∧ Iterated body i xs acc acc' evs.
Proof.
  intros Hbody. revert i acc st.
  induction xs as [|x xs IH]; intros i acc st Hrun.
  - rewrite forRange_nil in Hrun. simplify_eq. exists []. rewrite app_nil_r.
    split; [done | constructor].
  - rewrite forRange_cons in Hrun.
    destruct (body i x acc st) as [[acc1|e|v] st1] eqn:H1; simplify_eq.
    apply ran_of_run in H1 as (evs1 & Htr1 & Hran1); [|done].
    apply IH in Hrun as (evs2 & Htr2 & Hit).
    exists (evs1 ++ evs2). split; [by rewrite Htr2, Htr1, app_assoc | by econstructor].
Qed.

Lemma newRuleProvider_grows i x acc : preserves traceGrows (newRuleProvider pk i x acc).
Proof. unfold newRuleProvider. frame. Qed.

Lemma newInbound_grows rt i x acc : preserves traceGrows (newInbound pk rt i x acc).
Proof. unfold newInbound. frame. Qed.

Lemma newOutbound_grows rt i x acc : preserves traceGrows (newOutbound pk rt i x acc).
Proof. unfold newOutbound. frame. Qed.

Lemma newProviderOutbound_grows rt pp i x acc :
  preserves traceGrows (newProviderOutbound pk rt pp i x acc).
Proof. unfold newProviderOutbound. frame. Qed.

Lemma newProxyProvider_grows rt i x acc : preserves traceGrows (newProxyProvider pk rt i x acc).
Proof.
  unfold newProxyProvider. pose proof (newProviderOutbound_grows rt) as Hin. frame.
Qed.

Lemma defaultOutbound_grows rt outs : preserves traceGrows (defaultOutbound pk rt outs).
Proof. unfold defaultOutbound. frame. Qed.

Lemma Router_Initialize_grows rt ins outs captured pps rps :
  preserves traceGrows
    (Router_Initialize rt ins outs (defaultOutbound pk rt) captured pps rps).
Proof.
  unfold Router_Initialize. pose proof (defaultOutbound_grows rt) as Hd. frame.
Qed.

Lemma grows_of_run {A} (m : M A) st r st' :
  preserves traceGrows m → m st = (r, st') → ∃ evs, trace st' = trace st ++ evs.
Proof. intros Hm Hrun. exact (Hm _ _ _ Hrun). Qed.

(** What a successful [New] went through. *)
Lemma New_inv opts st box st' :
  New pk opts st = (Ok box, st') →
  ∃ ro dns outs0 outs1 evs0 evsRP evs1 evsIn evsOut evsPP evsInit evs2,
    Iterated (newRuleProvider pk) 0 (RulProviders opts)
      ([], routeOrDefault (Route opts), dnsOrDefault (DNS opts))
      (ruleProviders box, ro, dns) evsRP ∧
    EvNew (NewRouter ro dns) (Returned None) ∈ evs1 ∧
    Iterated (newInbound pk (router box)) 0 (Inbounds opts) [] (inbounds box) evsIn ∧
    Iterated (newOutbound pk (router box)) 0 (Outbounds opts) [] outs0 evsOut ∧
    Iterated (newProxyProvider pk (router box)) 0 (ProxyProviders opts)
      ([], outs0) (proxyProviders box, outs1) evsPP ∧
    Ran (Router_Initialize (router box) (inbounds box) outs1
           (defaultOutbound pk (router box)) outs1 (proxyProviders box) (ruleProviders box))
        (outbounds box) evsInit ∧
    trace st' = trace st ++ evs0 ++ evsRP ++ evs1 ++ evsIn ++ evsOut ++ evsPP ++
                evsInit ++ evs2 ∧
    done st' = false ∧
    postServices box = ∅.
Proof.
  unfold New. intros Hrun.
  apply bind_ok_inv in Hrun as (now & sa & Ha & Hrun).
  apply bind_ok_inv in Hrun as ([] & sb & Hb & Hrun).
  apply bind_ok_inv in Hrun as ([] & sc & Hc & Hrun).
  apply bind_ok_inv in Hrun as (rl & sd & Hd & Hrun).
  apply bind_ok_inv in Hrun as (lf & se & He & Hrun).
  assert (∃ evs0, trace se = trace st ++ evs0) as [evs0 Htr0].
  { unfold call in Hd. munfold. unfold makeReloadChan in Hb.
    destruct (log_New _ _ _ _) as [[?|?|?] ?]; simplify_eq; munfold; simplify_eq.
    cbn. eexists. by rewrite <- app_assoc. }
  clear Ha Hb Hc Hd He.
  apply bind_ok_inv in Hrun as ([[rps ro] dns] & sf & Hf & Hrun).
  apply forRange_Iterated in Hf as (evsRP & HtrRP & HitRP); [|apply newRuleProvider_grows].
  apply bind_ok_inv in Hrun as (rr & sg & Hg & Hrun).
  apply bind_ok_inv in Hrun as (rt & sh & Hh & Hrun).
  apply bind_ok_inv in Hrun as ([] & si & Hi & Hrun).
  assert (∃ evs1, trace si = trace sf ++ evs1 ∧
                  EvNew (NewRouter ro dns) (Returned None) ∈ evs1) as (evs1 & Htr1 & Hin1).
  { apply grows_of_run in Hi as [evsS HtrS];
      [|apply preserves_forRange; [apply _ | intros; apply preserves_effect; apply _]].
    unfold call in Hg. munfold.
    destruct (route_NewRouter _ _ _ _ _ _) as [[?|?|?] ?]; simplify_eq; munfold; simplify_eq.
    cbn in HtrS. eexists. rewrite HtrS, <- app_assoc. split; [done|]. set_solver. }
  clear Hg Hh Hi.
  apply bind_ok_inv in Hrun as (ins & sj & Hj & Hrun).
  apply forRange_Iterated in Hj as (evsIn & HtrIn & HitIn); [|apply newInbound_grows].
  apply bind_ok_inv in Hrun as (outs0 & sk & Hk & Hrun).
  apply forRange_Iterated in Hk as (evsOut & HtrOut & HitOut); [|apply newOutbound_grows].
  apply bind_ok_inv in Hrun as ([pps outs1] & sl & Hl & Hrun).
  apply forRange_Iterated in Hl as (evsPP & HtrPP & HitPP); [|apply newProxyProvider_grows].
  apply bind_ok_inv in Hrun as (outs2 & sm & Hm & Hrun).
  apply ran_of_run in Hm as (evsInit & HtrInit & HranInit); [|apply Router_Initialize_grows].
  apply bind_ok_inv in Hrun as ([] & sn & Hn & Hrun).
  apply grows_of_run in Hn as [evsn Htrn]; [|frame].
  apply bind_ok_inv in Hrun as (pre1 & so & Ho & Hrun).
  apply grows_of_run in Ho as [evso Htro]; [|frame].
  apply bind_ok_inv in Hrun as (pre2 & sp & Hp & Hrun).
  apply grows_of_run in Hp as [evsp Htrp]; [|frame].
  unfold makeDone in Hrun. munfold. simplify_eq. cbn.
  exists ro, dns, outs0, outs1, evs0, evsRP, evs1, evsIn, evsOut, evsPP, evsInit,
    (evsn ++ evso ++ evsp).
  split_and!; try done.
  rewrite Htrp, Htro, Htrn, HtrInit, HtrPP, HtrOut, HtrIn, Htr1, HtrRP, Htr0.
  by rewrite <- !app_assoc.
Qed.

(** *** One iteration of each loop of [New] *)

(** Runs the next call into a collaborator inside a hypothesis [Hrun]. *)
Ltac run_call Hrun :=
  let E := fresh "Hcall" in
  unfold call in Hrun; munfold;
  match type of Hrun with
  | context [match ?f with (_, _) => _ end] =>
      lazymatch type of f with
      | (Res _ * _)%type => destruct f as [[?|?|?] ?] eqn:E
      end
  end; munfold; simplify_eq.

Lemma newInbound_ran rt i o ins ins' evs :
  Ran (newInbound pk rt i o ins) ins' evs →
  ∃ in_, Built (inbound_New pk rt (inboundLogger o (assignedTag (ib_Tag o) i)) o) in_ ∧
         ins' = ins ++ [in_] ∧ evs = [inboundBuilt i o].
Proof.
  intros (st & st' & Hrun & Htr). unfold newInbound in Hrun. run_call Hrun.
  eexists. split; [eexists _, _; exact Hcall|]. split; [done|].
  cbn in Htr. by apply app_inv_head in Htr.
Qed.

Lemma newOutbound_ran rt i o outs outs' evs :
  Ran (newOutbound pk rt i o outs) outs' evs →
  ∃ out, StaticOutbound pk rt i o out ∧ outs' = outs ++ [out] ∧ evs = [outboundBuilt i o].
Proof.
  intros (st & st' & Hrun & Htr). unfold newOutbound in Hrun. run_call Hrun.
  eexists. split; [eexists _, _; exact Hcall|]. split; [done|].
  cbn in Htr. by apply app_inv_head in Htr.
Qed.

Lemma newProviderOutbound_ran rt pp i o outs outs' evs :
  Ran (newProviderOutbound pk rt pp i o outs) outs' evs →
  ∃ out, ProvidedOutbound pk rt o out ∧ outs' = outs ++ [out] ∧
         evs = [providedOutboundBuilt o].
Proof.
  intros (st & st' & Hrun & Htr). unfold newProviderOutbound in Hrun. run_call Hrun.
  eexists. split; [eexists _, _; exact Hcall|]. split; [done|].
  cbn in Htr. by apply app_inv_head in Htr.
Qed.

(** A loop whose iterations each append one element and leave one event. *)
Lemma Iterated_append {A C} (body : nat → A → list C → @M W (list C))
    (R : nat → A → C → Prop) (E : nat → A → Event) i xs acc acc' evs :
  (∀ i x acc acc' evs, Ran (body i x acc) acc' evs →
     ∃ c, R i x c ∧ acc' = acc ++ [c] ∧ evs = [E i x]) →
  Iterated body i xs acc acc' evs →
  ∃ cs, acc' = acc ++ cs ∧ length cs = length xs ∧
        (∀ j x c, xs !! j = Some x → cs !! j = Some c → R (i + j) x c) ∧
        evs = imap (λ j, E (i + j)) xs.
Proof.
  intros Hbody Hit.
  induction Hit as [i acc | i x xs acc acc1 acc2 evs1 evs2 Hran _ IH].
  - exists []. by rewrite app_nil_r.
  - apply Hbody in Hran as (c & Hc & -> & ->).
    destruct IH as (cs & -> & Hlen & Hcs & ->).
    exists (c :: cs). split_and!.
    + by rewrite <- app_assoc.
    + cbn. by rewrite Hlen.
    + intros [|j] y d Hy Hd; cbn in *; simplify_eq.
      * by rewrite Nat.add_0_r.
      * replace (i + S j) with (S i + j) by lia. by eapply Hcs.
    + cbn. rewrite Nat.add_0_r. f_equal. apply imap_ext. intros j y _. cbn.
      by replace (i + S j) with (S i + j) by lia.
Qed.

Lemma lookup_Forall2 {A C} (R : A → C → Prop) (xs : list A) (cs : list C) :
  length cs = length xs →
  (∀ j x c, xs !! j = Some x → cs !! j = Some c → R x c) →
  Forall2 R xs cs.
Proof.
  intros Hlen Hall. apply Forall2_same_length_lookup_2; [by symmetry | done].
Qed.

Lemma newProxyProvider_ran rt i o pps outs pps' outs' evs :
  Ran (newProxyProvider pk rt i o (pps, outs)) (pps', outs') evs →
  ∃ pp cfgs news,
    Built (proxyprovider_NewProxyProvider pk rt (proxyProviderLogger (assignedTag (ppo_Tag o) i))
             (assignedTag (ppo_Tag o) i) (taggedProxyProviderOptions o i)) pp ∧
    Built (pp_StartGetOutbounds pp) cfgs ∧
    Forall2 (ProvidedOutbound pk rt) cfgs news ∧
    pps' = pps ++ [pp] ∧
    outs' = outs ++ news ∧
    evs = proxyProviderBuilt i o ::
          EvCall (TheProxyProvider i) MStartGetOutbounds (Returned None) ::
          (providedOutboundBuilt <$> cfgs).
Proof.
  intros (st & st' & Hrun & Htr). unfold newProxyProvider in Hrun.
  run_call Hrun. run_call Hrun.
  match type of Hrun with
  | context [forRange ?b 0 ?xs ?acc ?s] =>
      destruct (forRange b 0 xs acc s) as [[outs2|?|?] st2] eqn:Hloop
  end; munfold; simplify_eq.
  apply forRange_Iterated in Hloop as (evs2 & Htr2 & Hit);
    [|apply newProviderOutbound_grows].
  eapply (Iterated_append _ (λ _, ProvidedOutbound pk rt) (λ _, providedOutboundBuilt))
    in Hit as (news & -> & Hlen & Hnews & ->); [|apply newProviderOutbound_ran].
  eexists _, _, news. split_and!.
  - eexists _, _. exact Hcall.
  - eexists _, _. exact Hcall0.
  - apply lookup_Forall2; [done|]. intros j x c. apply Hnews.
  - done.
  - done.
  - rewrite Htr2 in Htr. cbn in Htr. rewrite <- !app_assoc in Htr.
    apply app_inv_head in Htr. rewrite <- Htr. cbn. by rewrite imap_ignore.
Qed.

Lemma newRuleProvider_ran i o rps ro dns rps' ro' dns' evs :
  Ran (newRuleProvider pk i o (rps, ro, dns)) (rps', ro', dns') evs →
  ∃ rp f,
    Built (ruleprovider_NewRuleProvider pk (ruleProviderLogger (assignedTag (rpo_Tag o) i))
             (assignedTag (rpo_Tag o) i) (taggedRuleProviderOptions o i)) rp ∧
    Built (rp_FormatRule rp (passed (dns_Rules dns)) (passed (ro_Rules ro))) f ∧
    rps' = rps ++ [rp] ∧
    dns_Rules dns' = afterFormat (dns_Rules dns) (fr_dnsRules f) (newDNSRules f) ∧
    ro_Rules ro' = afterFormat (ro_Rules ro) (fr_routeRules f) (newRouteRules f) ∧
    evs = [ruleProviderBuilt i o;
           EvCall (TheRuleProvider i)
             (MFormatRule (passed (dns_Rules dns)) (passed (ro_Rules ro))) (Returned None)].
Proof.
  intros (st & st' & Hrun & Htr). unfold newRuleProvider in Hrun.
  run_call Hrun. run_call Hrun.
  eexists _, _. split_and!.
  - eexists _, _. exact Hcall.
  - eexists _, _. exact Hcall0.
  - done.
  - unfold afterFormat, passed. by repeat case_decide.
  - unfold afterFormat, passed. by repeat case_decide.
  - cbn in Htr. rewrite <- !app_assoc in Htr. by apply app_inv_head in Htr.
Qed.

Lemma Iterated_FormatChain i os acc acc' evs :
  Iterated (newRuleProvider pk) i os acc acc' evs →
  ∃ news, acc'.1.1 = acc.1.1 ++ news ∧
          FormatChain pk i os news (dns_Rules acc.2, ro_Rules acc.1.2)
            (dns_Rules acc'.2, ro_Rules acc'.1.2) evs.
Proof.
  induction 1 as [i acc | i o os acc acc1 acc2 evs1 evs2 Hran _ IH].
  - exists []. rewrite app_nil_r. split; [done | constructor].
  - destruct acc as [[rps ro] dns], acc1 as [[rps1 ro1] dns1].
    apply newRuleProvider_ran in Hran as (rp & f & Hrp & Hf & -> & Hdns & Hro & ->).
    destruct IH as (news & Hnews & Hchain). cbn in *.
    exists (rp :: news). split; [by rewrite Hnews, <- app_assoc|].
    rewrite Hdns, Hro in Hchain. by econstructor.
Qed.

Lemma FormatChain_calls i os rps rules final evs :
  FormatChain pk i os rps rules final evs →
  length rps = length os ∧ (formatCalls evs).*1.*1 = seq i (length os).
Proof.
  induction 1 as [|i o os rp rps d r f final evs _ _ _ [IHlen IHcalls]]; [done|].
  unfold formatCalls in *. cbn. by rewrite IHlen, IHcalls.
Qed.

Lemma afterFormat_nil {A} (left : list A → list A) (new : list A) :
  afterFormat [] left new = [].
Proof. done. Qed.

Lemma FormatChain_empty i os rps final evs :
  FormatChain pk i os rps ([], []) final evs →
  final = ([], []) ∧ formatCalls evs = (λ j, (j, None, None)) <$> seq i (length os).
Proof.
  intros Hchain. remember ([], []) as rules eqn:Hrules.
  induction Hchain as [|i o os rp rps d r f final evs _ _ _ IH]; [done|].
  simplify_eq. rewrite !afterFormat_nil in IH. destruct IH as [-> IH]; [done|].
  split; [done|]. unfold formatCalls in *. cbn. by rewrite IH.
Qed.

Lemma Router_Initialize_ran rt ins outs captured pps rps result evs :
  Ran (Router_Initialize rt ins outs (defaultOutbound pk rt) captured pps rps) result evs →
  if r_WantsDefault rt outs
  then ∃ out, Built (outbound_New pk rt "outbound/direct" "direct" directOptions) out ∧
              Built (r_Initialize rt ins outs (Some out) pps rps) tt ∧
              result = captured ++ [out] ∧
              evs = [defaultBuilt (Returned None); initialized ins outs (Some out)]
  else Built (r_Initialize rt ins outs None pps rps) tt ∧
       result = captured ∧
       evs = [initialized ins outs None].
Proof.
  intros (st & st' & Hrun & Htr). unfold Router_Initialize in Hrun.
  destruct (r_WantsDefault rt outs).
  - unfold defaultOutbound in Hrun. run_call Hrun. run_call Hrun.
    match goal with u : unit |- _ => destruct u end.
    eexists. split_and!.
    + eexists _, _. exact Hcall.
    + eexists _, _. exact Hcall0.
    + done.
    + cbn in Htr. rewrite <- !app_assoc in Htr. by apply app_inv_head in Htr.
  - run_call Hrun. match goal with u : unit |- _ => destruct u end. split_and!.
    + eexists _, _. exact Hcall.
    + done.
    + cbn in Htr. by apply app_inv_head in Htr.
Qed.

Lemma Iterated_providers rt i os acc acc' evs :
  Iterated (newProxyProvider pk rt) i os acc acc' evs →
  ∃ news provided,
    acc'.1 = acc.1 ++ news ∧
    acc'.2 = acc.2 ++ concat provided ∧
    Forall2 (Provided pk rt) news provided ∧
    length news = length os ∧
    (∀ j o, os !! j = Some o → proxyProviderBuilt (i + j) o ∈ evs) ∧
    (∀ j o pp, os !! j = Some o → news !! j = Some pp →
               ConfiguredProxyProvider pk rt (i + j) o pp).
Proof.
  induction 1 as [i acc | i o os acc acc1 acc2 evs1 evs2 Hran _ IH].
  - exists [], []. rewrite !app_nil_r. split_and!; by try constructor.
  - destruct acc as [pps outs], acc1 as [pps1 outs1].
    apply newProxyProvider_ran in Hran as (pp & cfgs & outsp & Hpp & Hcfgs & Houts & -> & -> & ->).
    destruct IH as (news & provided & Hnews & Hprov & Hall & Hlen & Hev & Hconf). cbn in *.
    exists (pp :: news), (outsp :: provided). split_and!.
    + by rewrite Hnews, <- app_assoc.
    + by rewrite Hprov, <- app_assoc.
    + constructor; [by exists cfgs | done].
    + cbn. by rewrite Hlen.
    + intros [|j] o' Ho'; cbn in *; simplify_eq.
      * rewrite Nat.add_0_r. apply elem_of_cons. by left.
      * replace (i + S j) with (S i + j) by lia.
        apply elem_of_cons. right. apply elem_of_cons. right.
        apply elem_of_app. right. by apply Hev.
    + intros [|j] o' pp' Ho' Hpp'; cbn in *; simplify_eq.
      * by rewrite Nat.add_0_r.
      * replace (i + S j) with (S i + j) by lia. by eapply Hconf.
Qed.

(** ** The claims about Close *)

(** C1: a call of [Close] on a Box that is not yet closed, if it returns,
    has visited every subsystem exactly once, in the order post-services,
    rule providers, proxy providers, inbounds, outbounds, router,
    pre-services, log factory (lists in index order, the two maps in the
    order the iteration chose).  An error of one subsystem did not stop the
    traversal: the result is the fold by [E.Append] of the results of all
    the visits, and it is nil when every subsystem closed without error. *)
Theorem Close_visits_every_subsystem s st r st' :
  done st = false →
  Close s st = (r, st') →
  (∀ v, r ≠ Panic v) →
  ∃ (post pre : list (string * Service)) (vs : list Visit),
    post ≡ₚ map_to_list (postServices s) ∧
    pre ≡ₚ map_to_list (preServices s) ∧
    vs.*1 = closeTargets s post pre ∧
    Forall visitOk vs ∧
    trace st' = trace st ++ concat (visitEvents <$> vs) ∧
    r = returned (foldVisits vs None) ∧
    (Forall (λ v, v.2 = None) vs → r = Ok tt).
Proof.
  intros Hd Hrun Hnp.
  destruct (Close_run s st r st' Hd Hrun Hnp)
    as (post & pre & vs & Hpost & Hpre & Hvs & Hok & Htr & Hr).
  exists post, pre, vs. split_and!; try done.
  intros Hclean. rewrite Hr.
  assert (∀ errors, foldVisits vs errors = errors) as Hfold; [|by rewrite Hfold].
  clear -Hclean. induction Hclean as [|v vs Hv _ IH]; intros errors; [done|].
  cbn. rewrite Hv, Append_nil. apply IH.
Qed.

Lemma elem_of_concat {A} (x : A) (ls : list (list A)) (l : list A) :
  x ∈ l → l ∈ ls → x ∈ concat ls.
Proof.
  intros Hx Hl. induction ls as [|l' ls IH]; [by apply elem_of_nil in Hl|].
  cbn. apply elem_of_app. apply elem_of_cons in Hl as [->|Hl]; auto.
Qed.

Lemma visit_logged (vs : list (@Visit W)) t :
  t ∈ vs.*1 →
  EvLog Trace ("closing " +:+ tg_name t) ∈ concat (visitEvents <$> vs) ∧
  (is_Some (tg_closer t) →
   ∃ e, EvCall (tg_comp t) MClose (Returned e) ∈ concat (visitEvents <$> vs)).
Proof.
  intros Hin. apply list_elem_of_fmap in Hin as ([t' e] & -> & Hin).
  assert (visitEvents (t', e) ∈ visitEvents <$> vs) as Hev.
  { apply list_elem_of_fmap. eauto. }
  split.
  - eapply elem_of_concat; [|exact Hev]. apply elem_of_cons. by left.
  - intros [f Hf]. exists e. eapply elem_of_concat; [|exact Hev].
    unfold visitEvents. cbn in *. rewrite Hf.
    apply elem_of_cons. right. apply elem_of_cons. by left.
Qed.

Lemma Close_reaches s st r st' t :
  done st = false →
  Close s st = (r, st') →
  (∀ v, r ≠ Panic v) →
  (∀ post pre, t ∈ closeTargets s post pre) →
  EvLog Trace ("closing " +:+ tg_name t) ∈ trace st' ∧
  (is_Some (tg_closer t) → ∃ e, EvCall (tg_comp t) MClose (Returned e) ∈ trace st').
Proof.
  intros Hd Hrun Hnp Ht.
  destruct (Close_run s st r st' Hd Hrun Hnp) as (post & pre & vs & _ & _ & Hvs & _ & Htr & _).
  specialize (Ht post pre). rewrite <- Hvs in Ht.
  apply visit_logged in Ht as [Hlog Hcall]. rewrite Htr. split.
  - apply elem_of_app. by right.
  - intros Hsome. destruct (Hcall Hsome) as [e He]. exists e. apply elem_of_app. by right.
Qed.

Lemma inbound_in_closeTargets s i in_ post pre :
  inbounds s !! i = Some in_ → inboundTarget i in_ ∈ closeTargets s post pre.
Proof.
  intros Hi. unfold closeTargets. rewrite !elem_of_app. do 3 right. left.
  by apply elem_of_lookup_imap_2.
Qed.

Lemma outbound_in_closeTargets s i out post pre :
  outbounds s !! i = Some out → outboundTarget i out ∈ closeTargets s post pre.
Proof.
  intros Hi. unfold closeTargets. rewrite !elem_of_app. do 4 right. left.
  by apply elem_of_lookup_imap_2.
Qed.

(** ** The claims about New *)

Lemma imap_shift_lookup {A} (E : nat → A → Event) (xs : list A) i x :
  xs !! i = Some x → E i x ∈ imap (λ j, E (0 + j)) xs.
Proof. intros Hi. by apply (elem_of_lookup_imap_2 (λ j, E (0 + j))). Qed.

(** C8, as the code has it: the outbound list [New] hands to
    [Router.Initialize] is the list of the outbounds built from the static
    configuration, in index order, followed by the outbounds built from the
    definitions each proxy provider returned from [StartGetOutbounds],
    provider by provider and in the order returned, each built under the
    tag its definition carries.  The Box keeps this list, followed by the
    default outbound if the router asked for one. *)
Theorem Initialize_receives_static_then_provided opts st box st' :
  New pk opts st = (Ok box, st') →
  ∃ (statics : list Outbound) (provided : list (list Outbound)) (dflt : option Outbound),
    length statics = length (Outbounds opts) ∧
    (∀ i o out, Outbounds opts !! i = Some o → statics !! i = Some out →
                StaticOutbound pk (router box) i o out) ∧
    length (proxyProviders box) = length (ProxyProviders opts) ∧
    (∀ i o pp, ProxyProviders opts !! i = Some o → proxyProviders box !! i = Some pp →
               ConfiguredProxyProvider pk (router box) i o pp) ∧
    Forall2 (Provided pk (router box)) (proxyProviders box) provided ∧
    Built (r_Initialize (router box) (inbounds box) (statics ++ concat provided) dflt
             (proxyProviders box) (ruleProviders box)) tt ∧
    initialized (inbounds box) (statics ++ concat provided) dflt ∈ trace st' ∧
    outbounds box = statics ++ concat provided ++ option_list dflt.
Proof.
  intros Hnew.
  destruct (New_inv _ _ _ _ Hnew)
    as (ro & dns & outs0 & outs1 & evs0 & evsRP & evs1 & evsIn & evsOut & evsPP & evsInit &
        evs2 & _ & _ & _ & HitOut & HitPP & Hinit & Htr & _).
  apply (Iterated_append _ (StaticOutbound pk (router box)) outboundBuilt) in HitOut
    as (statics & Hstat & Hlen & Hbuilt & _); [|apply newOutbound_ran].
  apply Iterated_providers in HitPP as (pps & provided & Hpps & Hprov & Hall & Hlenp & _ & Hconf).
  cbn in *. subst outs0 outs1. rewrite Hpps in *.
  apply Router_Initialize_ran in Hinit.
  assert (∀ ev, ev ∈ evsInit → ev ∈ trace st') as Hsub.
  { intros ev Hev. rewrite Htr, !elem_of_app. do 7 right. by left. }
  destruct (r_WantsDefault (router box) (statics ++ concat provided)).
  - destruct Hinit as (out & _ & Hcall & Hres & ->).
    exists statics, provided, (Some out). split_and!; try done.
    + apply Hsub. apply elem_of_cons. right. apply elem_of_cons. by left.
    + by rewrite Hres, <- app_assoc.
  - destruct Hinit as (Hcall & Hres & ->).
    exists statics, provided, None. split_and!; try done.
    + apply Hsub. apply elem_of_cons. by left.
    + by rewrite Hres, app_nil_r.
Qed.

(** C7, as the code has it: within [Router.Initialize] the factory is
    invoked at most once.  When it is invoked it builds one outbound, with
    the tag "direct", from options of type "direct" whose own tag field is
    "default"; that outbound is the last element of the outbounds of the
    Box, and a [Close] of the Box that returns has logged its closing and
    called its closer if it has one.  When it is not invoked the Box keeps
    the list that was handed to the router. *)
Theorem default_outbound_built_once_and_closed opts st box st' :
  New pk opts st = (Ok box, st') →
  ∃ (outs : list Outbound) (before evsInit after : list Event),
    trace st' = trace st ++ before ++ evsInit ++ after ∧
    (if r_WantsDefault (router box) outs
     then ∃ out,
       Built (outbound_New pk (router box) "outbound/direct" "direct" directOptions) out ∧
       evsInit = [defaultBuilt (Returned None); initialized (inbounds box) outs (Some out)] ∧
       outbounds box = outs ++ [out] ∧
       ∀ stc r stc', done stc = false → Close box stc = (r, stc') → (∀ v, r ≠ Panic v) →
         EvLog Trace ("closing outbound/" +:+ out_Type out +:+ "[" +:+ itoa (length outs) +:+ "]")
           ∈ trace stc' ∧
         (is_Some (out_Close out) →
          ∃ e, EvCall (TheOutbound (length outs)) MClose (Returned e) ∈ trace stc')
     else evsInit = [initialized (inbounds box) outs None] ∧ outbounds box = outs).
Proof.
  intros Hnew.
  destruct (New_inv _ _ _ _ Hnew)
    as (ro & dns & outs0 & outs1 & evs0 & evsRP & evs1 & evsIn & evsOut & evsPP & evsInit &
        evs2 & _ & _ & _ & _ & _ & Hinit & Htr & _).
  exists outs1, (evs0 ++ evsRP ++ evs1 ++ evsIn ++ evsOut ++ evsPP), evsInit, evs2.
  split; [by rewrite Htr, <- !app_assoc|].
  apply Router_Initialize_ran in Hinit.
  destruct (r_WantsDefault (router box) outs1); [|by destruct Hinit as (_ & ? & ?)].
  destruct Hinit as (out & Hout & _ & Hres & ->).
  exists out. split_and!; try done.
  intros stc r stc' Hd Hclose Hnp.
  apply (Close_reaches box stc r stc' (outboundTarget (length outs1) out) Hd Hclose Hnp).
  intros post pre. apply outbound_in_closeTargets. rewrite Hres.
  by rewrite lookup_app_r, Nat.sub_diag.
Qed.

(** C10: the factory handed to [Router.Initialize] never returns an error.
    In every state it returns the outbound it built, having appended it to
    the outbounds of [New]; or, when the construction returned an error, it
    panics with that error through [common.Must]; or the construction
    itself panicked. *)
Theorem defaultOutbound_panics_on_error rt (outs : list Outbound) st :
  (∀ err st', defaultOutbound pk rt outs st ≠ (Fail err, st')) ∧
  match outbound_New pk rt "outbound/direct" "direct" directOptions (world st) with
  | (ROk out, w) =>
      defaultOutbound pk rt outs st =
        (Ok (out, outs ++ [out]), record (defaultBuilt (Returned None)) (setWorld w st))
  | (RErr oErr, w) =>
      defaultOutbound pk rt outs st =
        (Panic (PErr oErr), record (defaultBuilt (Returned (Some oErr))) (setWorld w st))
  | (RPanic v, w) =>
      defaultOutbound pk rt outs st =
        (Panic v, record (defaultBuilt (Panicked v)) (setWorld w st))
  end.
Proof.
  unfold defaultOutbound, defaultBuilt, directOptions, call. munfold.
  destruct (outbound_New pk rt _ _ _ (world st)) as [[out|oErr|v] w]; by munfold.
Qed.

(** C5, as the code has it: in a [New] that succeeds, every configured
    rule provider, in index order, is constructed and its [FormatRule] is
    called exactly once, whether the rule lists are empty or not.  Each of
    the two lists is passed only if it is non-empty (a nil pointer is passed
    for an empty list), and after the call each list that is non-empty is
    replaced by the list the provider returned, while an empty list stays
    empty.  The router is built from the lists the last provider left.  In
    particular, when both configured lists are empty, every provider is
    still called, with two nil pointers. *)
Theorem FormatRule_called_for_every_rule_provider opts st box st' :
  New pk opts st = (Ok box, st') →
  ∃ (dnsRules : list DNSRule) (routeRules : list Rule) (before evs after : list Event),
    FormatChain pk 0 (RulProviders opts) (ruleProviders box)
      (dns_Rules (dnsOrDefault (DNS opts)), ro_Rules (routeOrDefault (Route opts)))
      (dnsRules, routeRules) evs ∧
    trace st' = trace st ++ before ++ evs ++ after ∧
    (formatCalls evs).*1.*1 = seq 0 (length (RulProviders opts)) ∧
    (∃ ro dns, ro_Rules ro = routeRules ∧ dns_Rules dns = dnsRules ∧
               EvNew (NewRouter ro dns) (Returned None) ∈ after) ∧
    (dns_Rules (dnsOrDefault (DNS opts)) = [] →
     ro_Rules (routeOrDefault (Route opts)) = [] →
     formatCalls evs = (λ j, (j, None, None)) <$> seq 0 (length (RulProviders opts)) ∧
     dnsRules = [] ∧ routeRules = []).
Proof.
  intros Hnew.
  destruct (New_inv _ _ _ _ Hnew)
    as (ro & dns & outs0 & outs1 & evs0 & evsRP & evs1 & evsIn & evsOut & evsPP & evsInit &
        evs2 & HitRP & Hrouter & _ & _ & _ & _ & Htr & _).
  apply Iterated_FormatChain in HitRP as (news & Hnews & Hchain). cbn in *. subst news.
  exists (dns_Rules dns), (ro_Rules ro), evs0, evsRP,
    (evs1 ++ evsIn ++ evsOut ++ evsPP ++ evsInit ++ evs2).
  split_and!.
  - done.
  - done.
  - by apply FormatChain_calls in Hchain as [_ ?].
  - exists ro, dns. split_and!; try done. apply elem_of_app. by left.
  - intros Hd Hr. rewrite Hd, Hr in Hchain.
    apply FormatChain_empty in Hchain as [Hfinal Hcalls]. by simplify_eq.
Qed.

Lemma FormatChain_built k os rps rules final evs :
  FormatChain pk k os rps rules final evs →
  ∀ j o, os !! j = Some o → ruleProviderBuilt (k + j) o ∈ evs.
Proof.
  induction 1 as [|k o' os rp rps d r f final evs _ _ _ IH]; intros j o Hj; [done|].
  destruct j as [|j]; cbn in Hj; simplify_eq.
  - rewrite Nat.add_0_r. apply elem_of_cons. by left.
  - replace (k + S j) with (S k + j) by lia.
    apply elem_of_cons. right. apply elem_of_cons. right. by apply IH.
Qed.

Lemma startLabel_assigned i (in_ : @Inbound W) (o : InboundOptions) :
  in_Type in_ = ib_Type o → in_Tag in_ = ib_Tag o →
  startLabel i in_ = inboundLogger o (assignedTag (ib_Tag o) i).
Proof.
  intros Hty Htag. unfold startLabel, inboundLogger, assignedTag. rewrite Hty, Htag.
  by repeat case_decide.
Qed.

Lemma startLabel_closeLabel i (in_ : @Inbound W) :
  in_Tag in_ = "" → startLabel i in_ = closeLabel i in_.
Proof. intros Htag. unfold startLabel, closeLabel. rewrite Htag. by case_decide. Qed.

(** C4, as the code has it: in a [New] that succeeds, every configured
    inbound, outbound, proxy provider and rule provider is constructed with
    the tag [assignedTag]: the configured tag if there is one, the index
    written in decimal otherwise.  The tag names the logger and, for
    outbounds and providers, is the tag argument of the constructor (and is
    written into the options of a provider).  The Box does not store it:
    [start] computes the label of inbound [i] again, from [Tag()] and [i],
    and wraps a start error with it; [Close] labels the inbound by [i]
    alone.  The two labels agree when [Tag()] is empty. *)
Theorem tags_assigned_by_New opts st box st' :
  New pk opts st = (Ok box, st') →
  (∀ i o, Inbounds opts !! i = Some o → inboundBuilt i o ∈ trace st') ∧
  (∀ i o, Outbounds opts !! i = Some o → outboundBuilt i o ∈ trace st') ∧
  (∀ i o, ProxyProviders opts !! i = Some o → proxyProviderBuilt i o ∈ trace st') ∧
  (∀ i o, RulProviders opts !! i = Some o → ruleProviderBuilt i o ∈ trace st') ∧
  length (inbounds box) = length (Inbounds opts) ∧
  ∀ i in_, inbounds box !! i = Some in_ →
    (∃ o, Inbounds opts !! i = Some o ∧
          Built (inbound_New pk (router box) (inboundLogger o (assignedTag (ib_Tag o) i)) o) in_ ∧
          (in_Type in_ = ib_Type o → in_Tag in_ = ib_Tag o →
           startLabel i in_ = inboundLogger o (assignedTag (ib_Tag o) i))) ∧
    (∀ st1 err st2 e,
       start pk box st1 = (Fail err, st2) →
       last (trace st2) = Some (EvCall (TheInbound i) MStart (Returned (Some e))) →
       err = Cause e ("initialize " +:+ startLabel i in_)) ∧
    (∀ st1 r st2,
       done st1 = false → Close box st1 = (r, st2) → (∀ v, r ≠ Panic v) →
       EvLog Trace ("closing " +:+ closeLabel i in_) ∈ trace st2 ∧
       ∀ j out, outbounds box !! j = Some out →
         EvLog Trace ("closing outbound/" +:+ out_Type out +:+ "[" +:+ itoa j +:+ "]")
           ∈ trace st2) ∧
    (in_Tag in_ = "" → startLabel i in_ = closeLabel i in_).
Proof.
  intros Hnew.
  destruct (New_inv _ _ _ _ Hnew)
    as (ro & dns & outs0 & outs1 & evs0 & evsRP & evs1 & evsIn & evsOut & evsPP & evsInit &
        evs2 & HitRP & _ & HitIn & HitOut & HitPP & _ & Htr & _).
  apply (Iterated_append _ (λ i o in_, Built (inbound_New pk (router box)
           (inboundLogger o (assignedTag (ib_Tag o) i)) o) in_) inboundBuilt) in HitIn
    as (ins & Hins & Hlen & Hbuilt & ->); [|apply newInbound_ran].
  apply (Iterated_append _ (StaticOutbound pk (router box)) outboundBuilt) in HitOut
    as (statics & _ & _ & _ & ->); [|apply newOutbound_ran].
  apply Iterated_providers in HitPP as (pps & provided & _ & _ & _ & _ & HevPP & _).
  apply Iterated_FormatChain in HitRP as (news & _ & Hchain).
  cbn in Hins. subst ins.
  split_and!.
  - intros i o Hi. rewrite Htr, !elem_of_app. do 4 right. left. by apply imap_shift_lookup.
  - intros i o Hi. rewrite Htr, !elem_of_app. do 5 right. left. by apply imap_shift_lookup.
  - intros i o Hi. rewrite Htr, !elem_of_app. do 6 right. left. by apply (HevPP i o).
  - intros i o Hi. rewrite Htr, !elem_of_app. do 2 right. left.
    by apply (FormatChain_built _ _ _ _ _ _ Hchain i o).
  - done.
  - intros i in_ Hi. split_and!.
    + destruct (lookup_lt_is_Some_2 (Inbounds opts) i) as [o Ho].
      { rewrite <- Hlen. by eapply lookup_lt_Some. }
      exists o. split; [done|]. split; [by apply (Hbuilt i o in_)|].
      apply startLabel_assigned.
    + intros st1 err st2 e Hstart Hlast.
      apply start_failure in Hstart as (ev & Hev & Hfail).
      rewrite Hlast in Hev. simplify_eq. inversion Hfail; simplify_eq. done.
    + intros st1 r st2 Hd Hclose Hnp. split.
      * apply (Close_reaches box st1 r st2 (inboundTarget i in_) Hd Hclose Hnp).
        intros post pre. by apply inbound_in_closeTargets.
      * intros j out Hj.
        apply (Close_reaches box st1 r st2 (outboundTarget j out) Hd Hclose Hnp).
        intros post pre. by apply outbound_in_closeTargets.
    + apply startLabel_closeLabel.
Qed.

(** ** The order of the services *)

(** A loop without variables whose iterations, when they succeed, each
    leave the events [E i x]. *)
Lemma unitLoop_run {A} (body : nat → A → unit → @M W unit) (E : nat → A → list Event)
    i xs st st' :
  (∀ i x st st', body i x tt st = (Ok tt, st') → trace st' = trace st ++ E i x) →
  forRange body i xs tt st = (Ok tt, st') →
  trace st' = trace st ++ concat (imap (λ j, E (i + j)) xs).
Proof.
  intros Hbody. revert i st.
  induction xs as [|x xs IH]; intros i st Hrun.
  - rewrite forRange_nil in Hrun. simplify_eq. by rewrite app_nil_r.
  - rewrite forRange_cons in Hrun.
    destruct (body i x tt st) as [[[]|e|v] st1] eqn:H1; simplify_eq.
    apply Hbody in H1. apply IH in Hrun. rewrite Hrun, H1. cbn.
    rewrite Nat.add_0_r, <- app_assoc. do 3 f_equal.
    apply imap_ext. intros j y _. cbn. by replace (i + S j) with (S i + j) by lia.
Qed.

Lemma loggedStep_ok lvl msg (ev : Ret → Event) (f : Ext unit) (wrap : error → error) st st' :
  (logger lvl msg;; r ← call ev f; orReturn r wrap) st = (Ok tt, st') →
  trace st' = trace st ++ [EvLog lvl msg; ev (Returned None)].
Proof.
  intros Hrun. run_call Hrun. cbn. by rewrite <- app_assoc.
Qed.

Lemma callStep_ok (ev : Ret → Event) (f : Ext unit) (wrap : error → error) st st' :
  (r ← call ev f; orReturn r wrap) st = (Ok tt, st') →
  trace st' = trace st ++ [ev (Returned None)].
Proof. intros Hrun. by run_call Hrun. Qed.

Lemma preStart_run s st st' :
  preStart pk s st = (Ok tt, st') →
  ∃ pre, orderOf (preServices s) pre ∧ trace st' = trace st ++ preStartEvents pre.
Proof.
  unfold preStart. intros Hrun.
  apply bind_ok_inv in Hrun as (pre & st1 & H1 & Hrun).
  unfold rangeMap in H1. simplify_eq.
  apply bind_ok_inv in Hrun as ([] & st2 & H2 & Hrun).
  apply (unitLoop_run _ (λ _ (entry : string * Service),
           match sv_PreStart entry.2 with
           | Some _ => [EvLog Trace ("pre-start " +:+ entry.1);
                        called (PreService entry.1) MPreStart]
           | None => []
           end)) in H2.
  2:{ intros i [name sv] sa sb Hbody. cbn in *. destruct (sv_PreStart sv).
      - by apply loggedStep_ok in Hbody.
      - munfold. simplify_eq. by rewrite app_nil_r. }
  apply bind_ok_inv in Hrun as (r3 & st3 & H3 & Hrun).
  apply bind_ok_inv in Hrun as ([] & st4 & H4 & Hrun).
  assert (trace st4 = trace st2 ++ [EvNew StartOutbounds (Returned None)]) as Htr4.
  { apply (callStep_ok (EvNew StartOutbounds) (startOutbounds pk (outbounds s)) id).
    by rewrite bind_run, H3. }
  apply callStep_ok in Hrun.
  eexists. split; [apply iterOrder_perm|].
  rewrite Hrun, Htr4, H2. cbn. unfold preStartEvents. rewrite imap_ignore.
  by rewrite <- !app_assoc.
Qed.

Lemma start_run s st st' :
  start pk s st = (Ok tt, st') →
  ∃ pre1 pre2, orderOf (preServices s) pre1 ∧ orderOf (preServices s) pre2 ∧
               trace st' = trace st ++ startEvents s pre1 pre2.
Proof.
  unfold start. intros Hrun.
  apply bind_ok_inv in Hrun as ([] & st1 & H1 & Hrun).
  apply preStart_run in H1 as (pre1 & Hpre1 & Htr1).
  apply bind_ok_inv in Hrun as (pre2 & st2 & H2 & Hrun).
  unfold rangeMap in H2. simplify_eq.
  apply bind_ok_inv in Hrun as ([] & st3 & H3 & Hrun).
  apply (unitLoop_run _ (λ _ (entry : string * Service),
           [EvLog Trace ("starting " +:+ entry.1); called (PreService entry.1) MStart])) in H3.
  2:{ intros i [name sv] sa sb Hbody. by apply loggedStep_ok in Hbody. }
  apply bind_ok_inv in Hrun as ([] & st4 & H4 & Hrun).
  apply (unitLoop_run _ (λ i pp,
           [EvLog Trace ("starting proxyprovider " +:+ pp_Tag pp);
            called (TheProxyProvider i) MStart])) in H4.
  2:{ intros i pp sa sb Hbody. by apply loggedStep_ok in Hbody. }
  apply bind_ok_inv in Hrun as ([] & st5 & H5 & Hrun).
  apply (unitLoop_run _ (λ i rp,
           [EvLog Trace ("starting ruleprovider " +:+ rp_Tag rp);
            called (TheRuleProvider i) MStart])) in H5.
  2:{ intros i rp sa sb Hbody. by apply loggedStep_ok in Hbody. }
  apply (unitLoop_run _ (λ i in_,
           [EvLog Trace ("initializing " +:+ startLabel i in_);
            called (TheInbound i) MStart])) in Hrun.
  2:{ intros i in_ sa sb Hbody. by apply loggedStep_ok in Hbody. }
  eexists pre1, _. split; [done|]. split; [apply iterOrder_perm|].
  rewrite Hrun, H5, H4, H3. cbn. rewrite Htr1. unfold startEvents.
  rewrite imap_ignore. by rewrite <- !app_assoc.
Qed.

Lemma postStart_run s st st' :
  postStart s st = (Ok tt, st') →
  ∃ post, orderOf (postServices s) post ∧ trace st' = trace st ++ postStartEvents s post.
Proof.
  unfold postStart. intros Hrun.
  apply bind_ok_inv in Hrun as (post & st1 & H1 & Hrun).
  unfold rangeMap in H1. simplify_eq.
  apply bind_ok_inv in Hrun as ([] & st2 & H2 & Hrun).
  apply (unitLoop_run _ (λ _ (entry : string * Service),
           [EvLog Trace ("starting " +:+ sv_String entry.2);
            called (PostService entry.1) MStart])) in H2.
  2:{ intros i [name sv] sa sb Hbody. by apply loggedStep_ok in Hbody. }
  apply (unitLoop_run _ (λ i out,
           match out_PostStart out with
           | Some _ => [EvLog Trace ("post-starting " +:+ out_String out);
                        called (TheOutbound i) MPostStart]
           | None => []
           end)) in Hrun.
  2:{ intros i out sa sb Hbody. cbn in *. destruct (out_PostStart out).
      - by apply loggedStep_ok in Hbody.
      - munfold. simplify_eq. by rewrite app_nil_r. }
  eexists. split; [apply iterOrder_perm|].
  rewrite Hrun, H2. cbn. unfold postStartEvents. rewrite imap_ignore.
  by rewrite <- !app_assoc.
Qed.

(** C6, as the code has it: [preStart], [start], [postStart] and [Close]
    walk the pre-service and post-service maps in the order the iteration
    of the map yields at that moment.  Every registered service is visited
    once in each loop, but the order is some rearrangement of the entries
    of the map, chosen anew for every loop: it need not be the order of
    registration and need not be the same in two executions. *)
Theorem services_visited_in_iteration_order (ph : Phase) s st r st' :
  phaseRun pk ph s st = (r, st') →
  phaseCompleted ph st r →
  phaseVisited ph s st st'.
Proof.
  destruct ph; cbn; intros Hrun Hdone.
  - subst r. by apply preStart_run.
  - subst r. by apply start_run.
  - subst r. by apply postStart_run.
  - destruct Hdone as [Hd Hnp].
    destruct (Close_run s st r st' Hd Hrun Hnp) as (post & pre & vs & ? & ? & ? & _ & ? & _).
    by exists post, pre, vs.
Qed.

(** ** The reload channel *)

#[export] Instance sameReload_frame : Frame (sameReload (W:=W)).
Proof. split; unfold sameReload; intros; cbn; congruence. Qed.

Lemma makeDone_sameReload : preserves sameReload (makeDone (W:=W)).
Proof. intros st r st' Hrun. unfold makeDone in Hrun. by simplify_eq. Qed.

Lemma New_makes_reloadChan opts st r st' :
  New pk opts st = (r, st') → reloadChan st' = 0.
Proof.
  unfold New. intros Hrun.
  rewrite bind_run in Hrun. unfold readWorld at 1 in Hrun. lazy beta iota in Hrun.
  rewrite bind_run in Hrun. unfold makeReloadChan at 1 in Hrun. lazy beta iota in Hrun.
  match type of Hrun with
  | ?m ?st0 = _ => assert (preserves sameReload m) as Hk
  end.
  { pose proof makeDone_sameReload.
    unfold newRuleProvider, newInbound, newOutbound, newProxyProvider, newProviderOutbound,
      Router_Initialize, defaultOutbound.
    frame. }
  by apply Hk in Hrun.
Qed.

Lemma runReloadOp_bound op st :
  (reloadChan st ≤ reloadChanCap)%nat → (reloadChan (runReloadOp op st).2 ≤ reloadChanCap)%nat.
Proof.
  unfold reloadChanCap. intros Hle.
  destruct op; unfold runReloadOp, postReload, readReload, reloadChanCap; munfold.
  - case_decide; cbn; lia.
  - destruct (reloadChan st) eqn:Hn; cbn; lia.
Qed.

Lemma runReloadOp_returns op st : ∃ st', runReloadOp op st = (Ok tt, st').
Proof.
  destruct op; unfold runReloadOp, postReload, readReload; munfold.
  - case_decide; eauto.
  - destruct (reloadChan st); eauto.
Qed.

Lemma runReloadOps_bound ops st :
  (reloadChan st ≤ reloadChanCap)%nat → (reloadChan (runReloadOps ops st).2 ≤ reloadChanCap)%nat.
Proof.
  revert st. induction ops as [|op ops IH]; intros st Hle; [done|].
  cbn [runReloadOps]. rewrite bind_run.
  destruct (runReloadOp_returns op st) as [st1 H1].
  pose proof (runReloadOp_bound op st Hle) as Hle1.
  rewrite H1 in *. by apply IH.
Qed.

(** C9: the reload channel [New] makes has room for one notification and
    starts empty.  Whatever sequence of non-blocking posts and reads
    follows, at most one notification is pending; a post always returns at
    once, and when a notification is pending it is dropped and changes
    nothing, so two posts before any read leave exactly one pending.  The
    channel [ReloadChan] returns is receive-only: a send on it is
    rejected. *)
Theorem reload_notification_coalesces opts (s : @Box W) (ops : list ReloadOp) st :
  let fresh := (New pk opts st).2 in
  reloadChan fresh = 0 ∧
  (reloadChan (runReloadOps ops fresh).2 ≤ 1)%nat ∧
  (∀ st1, ∃ queued st2, postReload st1 = (Ok queued, st2)) ∧
  (∀ st1, reloadChan st1 = 1 → postReload st1 = (Ok false, st1)) ∧
  (postReload fresh).1 = Ok true ∧
  (postReload (postReload fresh).2).1 = Ok false ∧
  reloadChan (postReload (postReload fresh).2).2 = 1 ∧
  sendOn (W:=W) (ReloadChan s) = None.
Proof.
  intros fresh.
  assert (reloadChan fresh = 0) as Hfresh.
  { unfold fresh. destruct (New pk opts st) as [r st'] eqn:Hnew.
    by eapply New_makes_reloadChan. }
  split_and!.
  - done.
  - apply (runReloadOps_bound ops fresh). rewrite Hfresh. unfold reloadChanCap. lia.
  - intros st1. unfold postReload. case_decide; eauto.
  - intros st1 Hfull. unfold postReload, reloadChanCap. rewrite Hfull.
    by case_decide; [lia|].
  - clearbody fresh. destruct fresh. cbn in Hfresh. by subst.
  - clearbody fresh. destruct fresh. cbn in Hfresh. by subst.
  - clearbody fresh. destruct fresh. cbn in Hfresh. by subst.
  - done.
Qed.


(** ** Further properties of PreStart, Start and Close *)

Lemma Close_closed s st : done st = true → Close s st = (Fail ErrClosed, st).
Proof. intros Hd. unfold Close. rewrite bind_run. unfold closeDone. by rewrite Hd. Qed.

Section PreservesStage.

Context (P : @State W → @State W → Prop) `{!Frame P}.

Lemma preserves_stage (e : Entry) s : preserves P (stage pk e s).
Proof. destruct e; cbn; unfold start, preStart; frame. Qed.

Lemma preserves_postStart s : preserves P (postStart s).
Proof. unfold postStart. frame. Qed.

End PreservesStage.

(** X1: when the stage of [PreStart] or [Start] fails, the Box is closed
    when the call ends, whether the rollback returned or panicked and
    whether the Box was open before: a later [Close] returns
    [os.ErrClosed] and changes nothing. *)
Theorem failed_start_leaves_Box_closed (e : Entry) s st err st1 :
  stage pk e s st = (Fail err, st1) →
  done (entry pk e s st).2 = true ∧
  Close s (entry pk e s st).2 = (Fail ErrClosed, (entry pk e s st).2).
Proof.
  intros Hstage. rewrite (rollback_run e s st err st1 Hstage).
  assert (done (afterRollback err (Close s st1).1 (Close s st1).2).2 = true) as Hd.
  { pose proof (Close_sets_done s st1) as Hd. unfold afterRollback.
    by destruct (Close s st1).1 as [[]|?|?]. }
  split; [done | by apply Close_closed].
Qed.

(** X2: when the stage of [PreStart] or [Start] fails on a Box that is not
    closed and the rollback does not panic, the rollback goes through every
    subsystem of the Box in the order of [Close], also through those that
    the stage had not reached, and nothing else is added to the trace; the
    caller gets the error of the stage. *)
Theorem failed_start_tears_down_every_subsystem (e : Entry) s st err st1 :
  stage pk e s st = (Fail err, st1) →
  done st = false →
  (∀ v, (Close s st1).1 ≠ Panic v) →
  ∃ (post pre : list (string * Service)) (vs : list Visit),
    orderOf (postServices s) post ∧
    orderOf (preServices s) pre ∧
    vs.*1 = closeTargets s post pre ∧
    Forall visitOk vs ∧
    (entry pk e s st).1 = Fail err ∧
    trace (entry pk e s st).2 = trace st1 ++ concat (visitEvents <$> vs).
Proof.
  intros Hstage Hd Hnp.
  assert (done st1 = false) as Hd1.
  { pose proof (preserves_stage sameDone e s _ _ _ Hstage) as Hsame.
    unfold sameDone in Hsame. congruence. }
  destruct (Close s st1) as [r st2] eqn:Hclose. cbn in Hnp.
  destruct (Close_run s st1 r st2 Hd1 Hclose Hnp)
    as (post & pre & vs & Hpost & Hpre & Hvs & Hok & Htr & _).
  exists post, pre, vs. rewrite (rollback_run e s st err st1 Hstage), Hclose.
  unfold afterRollback. cbn.
  destruct r as [[]|e1|v]; [done | done | by destruct (Hnp v)].
Qed.

Lemma entry_ok (e : Entry) s st st' :
  entry pk e s st = (Ok tt, st') →
  ∃ st1, stage pk e s st = (Ok tt, st1) ∧
         st' = record (startedLine e (time_Since pk (createdAt s) (world st1))) st1.
Proof.
  intros Hrun. destruct (stage pk e s st) as [[[]|err|v] st1] eqn:Hs.
  - exists st1. split; [done|].
    destruct e; cbn in *; unfold PreStart, Start, try in Hrun; munfold;
      rewrite Hs in Hrun; munfold; by simplify_eq.
  - rewrite (rollback_run e s st err st1 Hs) in Hrun. unfold afterRollback in Hrun.
    by destruct (Close s st1).1 as [[]|?|?].
  - destruct e; cbn in *; unfold PreStart, Start, try in Hrun; munfold;
      rewrite Hs in Hrun; munfold; by simplify_eq.
Qed.

Lemma stage_run (e : Entry) s st st' :
  stage pk e s st = (Ok tt, st') →
  ∃ pre1 pre2, orderOf (preServices s) pre1 ∧ orderOf (preServices s) pre2 ∧
               trace st' = trace st ++ stageEvents e s pre1 pre2.
Proof.
  destruct e; cbn; intros Hrun.
  - apply preStart_run in Hrun as (pre & Hpre & Htr). by exists pre, pre.
  - by apply start_run.
Qed.

(** X3: [PreStart] and [Start] close the Box only when their stage fails.
    When the call returns nil, the trace is the one of the stage followed by
    the one line "sing-box started" or "sing-box pre-started" with the time
    elapsed since the Box was created, the closed marker is as it was
    before the call and no subsystem was closed.  The
    three stages themselves never change the closed marker, however they
    end. *)
Theorem start_success_keeps_Box_open (e : Entry) s st st' :
  entry pk e s st = (Ok tt, st') →
  (∃ pre1 pre2,
     orderOf (preServices s) pre1 ∧ orderOf (preServices s) pre2 ∧
     trace st' = trace st ++ stageEvents e s pre1 pre2 ++
                 [startedLine e (time_Since pk (createdAt s) (world st'))]) ∧
  done st' = done st ∧
  (∀ ph st0, ph ≠ Closing → done (phaseRun pk ph s st0).2 = done st0).
Proof.
  intros Hrun. apply entry_ok in Hrun as (st1 & Hstage & ->). split_and!.
  - apply stage_run in Hstage as (pre1 & pre2 & Hpre1 & Hpre2 & Htr).
    exists pre1, pre2. split; [done|]. split; [done|].
    cbn. by rewrite Htr, <- app_assoc.
  - exact (preserves_stage sameDone e s _ _ _ Hstage).
  - intros ph st0 Hph. destruct (phaseRun pk ph s st0) as [r st2] eqn:Hph2. cbn.
    destruct ph; cbn in Hph2.
    + exact (preserves_stage sameDone ViaPreStart s _ _ _ Hph2).
    + exact (preserves_stage sameDone ViaStart s _ _ _ Hph2).
    + exact (preserves_postStart sameDone s _ _ _ Hph2).
    + done.
Qed.

(** X4: [start] runs the whole of [preStart] again.  When [PreStart] and
    then [Start] both return nil, the pre-services with a [PreStart]
    method are pre-started, [startOutbounds] is called and the router is
    started twice: once by [PreStart] and once more at the beginning of
    [Start], before any service is started. *)
Theorem PreStart_then_Start_prestarts_twice s st st1 st2 :
  PreStart pk s st = (Ok tt, st1) →
  Start pk s st1 = (Ok tt, st2) →
  ∃ pre0 pre1 pre2 since0 since1 rest,
    orderOf (preServices s) pre0 ∧ orderOf (preServices s) pre1 ∧
    orderOf (preServices s) pre2 ∧
    startEvents s pre1 pre2 = preStartEvents pre1 ++ rest ∧
    trace st2 = trace st ++
      preStartEvents pre0 ++ [startedLine ViaPreStart since0] ++
      preStartEvents pre1 ++ rest ++ [startedLine ViaStart since1].
Proof.
  intros Hpre Hstart.
  apply (entry_ok ViaPreStart) in Hpre as (sa & Ha & ->).
  apply (entry_ok ViaStart) in Hstart as (sb & Hb & ->).
  apply (stage_run ViaPreStart) in Ha as (pre0 & pre0' & Hpre0 & _ & Htr0).
  apply (stage_run ViaStart) in Hb as (pre1 & pre2 & Hpre1 & Hpre2 & Htr1).
  exists pre0, pre1, pre2, (time_Since pk (createdAt s) (world sa)),
    (time_Since pk (createdAt s) (world sb)).
  eexists. split_and!; [done | done | done | reflexivity |].
  cbn [record trace stageEvents] in *. rewrite Htr1, Htr0. unfold startEvents.
  by rewrite <- !app_assoc.
Qed.

(** ** postStart *)

(** X5: when [postStart] returns an error, the call that failed is the last
    event of the trace, so nothing was started after it, and the error is
    the error of that call wrapped with "start " and the name of the
    service for a post-service, and with "post-start " and the index of the
    outbound, not its tag, for an outbound that has a [PostStart] method. *)
Theorem postStart_failure s st err st' :
  postStart s st = (Fail err, st') →
  ∃ ev, last (trace st') = Some ev ∧ PostStartFailure s ev err.
Proof.
  unfold postStart. intros Hrun.
  apply bind_fail_inv in Hrun as [Hrun | (post & st1 & _ & Hrun)].
  { unfold rangeMap in Hrun. by simplify_eq. }
  apply bind_fail_inv in Hrun as [Hrun | ([] & st2 & _ & Hrun)].
  { apply forRange_fail in Hrun as (j & [name sv] & [] & st0 & _ & Hrun).
    apply loggedStep_fail in Hrun as (e & Hlast & ->).
    eexists. split; [exact Hlast | constructor]. }
  apply forRange_fail in Hrun as (j & out & [] & st0 & Hj & Hrun). cbn in Hj, Hrun.
  destruct (out_PostStart out) as [f|] eqn:Hf; [|munfold; by simplify_eq].
  apply loggedStep_fail in Hrun as (e & Hlast & ->).
  eexists. split; [exact Hlast|]. eapply fail_postStarter; [exact Hj | by rewrite Hf].
Qed.

(** ** A stage that fails *)

Lemma CutShort_earlier full1 full2 evs : CutShort full1 evs → CutShort (full1 ++ full2) evs.
Proof.
  intros (b & k & e & a & -> & ->). exists b, k, e, (a ++ full2).
  by rewrite <- app_assoc.
Qed.

Lemma CutShort_later full1 full2 evs :
  CutShort full2 evs → CutShort (full1 ++ full2) (full1 ++ evs).
Proof.
  intros (b & k & e & a & -> & ->). exists (full1 ++ b), k, e, a.
  by rewrite <- !app_assoc.
Qed.

Lemma failsWithin_earlier full1 full2 st st' :
  failsWithin full1 st st' → failsWithin (full1 ++ full2) st st'.
Proof. intros (evs & Htr & Hcut). exists evs. split; [done | by apply CutShort_earlier]. Qed.

Lemma failsWithin_later full1 full2 st st1 st' :
  trace st1 = trace st ++ full1 →
  failsWithin full2 st1 st' → failsWithin (full1 ++ full2) st st'.
Proof.
  intros Htr1 (evs & Htr & Hcut). exists (full1 ++ evs).
  split; [by rewrite Htr, Htr1, app_assoc | by apply CutShort_later].
Qed.

Lemma callStep_cut (k : Callee) (f : Ext unit) (wrap : error → error) st err st' :
  (r ← call (callOf k) f; orReturn r wrap) st = (Fail err, st') →
  failsWithin [callOf k (Returned None)] st st'.
Proof.
  unfold call. munfold. intros Hrun.
  destruct (f (world st)) as [[[]|e|v] w]; munfold; simplify_eq.
  exists [callOf k (Returned (Some e))]. split; [done|]. by exists [], k, e, [].
Qed.

Lemma loggedStep_cut lvl msg (k : Callee) (f : Ext unit) (wrap : error → error) st err st' :
  (logger lvl msg;; r ← call (callOf k) f; orReturn r wrap) st = (Fail err, st') →
  failsWithin [EvLog lvl msg; callOf k (Returned None)] st st'.
Proof.
  intros Hrun. apply bind_fail_inv in Hrun as [Hrun | ([] & st1 & Hlog & Hrun)].
  - unfold logger, emit in Hrun. by simplify_eq.
  - unfold logger, emit in Hlog. simplify_eq.
    apply (failsWithin_later [EvLog lvl msg] _ st (record (EvLog lvl msg) st)); [done|].
    by eapply callStep_cut.
Qed.

Lemma unitLoop_cut {A} (body : nat → A → unit → @M W unit) (E : nat → A → list Event)
    i xs st err st' :
  (∀ i x st st', body i x tt st = (Ok tt, st') → trace st' = trace st ++ E i x) →
  (∀ i x st err st', body i x tt st = (Fail err, st') → failsWithin (E i x) st st') →
  forRange body i xs tt st = (Fail err, st') →
  failsWithin (concat (imap (λ j, E (i + j)) xs)) st st'.
Proof.
  intros Hok Hfail. revert i st.
  induction xs as [|x xs IH]; intros i st Hrun; [done|].
  rewrite forRange_cons in Hrun. cbn. rewrite Nat.add_0_r.
  assert (imap ((λ j, E (i + j)) ∘ S) xs = imap (λ j, E (S i + j)) xs) as ->.
  { apply imap_ext. intros j y _. cbn. by replace (i + S j) with (S i + j) by lia. }
  destruct (body i x tt st) as [[[]|e|v] st1] eqn:H1; simplify_eq.
  - apply Hok in H1. apply IH in Hrun. by eapply failsWithin_later.
  - apply Hfail in H1. by apply failsWithin_earlier.
Qed.

Lemma preStart_cut s st err st' :
  preStart pk s st = (Fail err, st') →
  ∃ pre, orderOf (preServices s) pre ∧ failsWithin (preStartEvents pre) st st'.
Proof.
  unfold preStart. intros Hrun.
  apply bind_fail_inv in Hrun as [Hrun | (pre & st1 & H1 & Hrun)].
  { unfold rangeMap in Hrun. by simplify_eq. }
  unfold rangeMap in H1. simplify_eq.
  exists (iterOrder (seed st) (map_to_list (preServices s))).
  split; [apply iterOrder_perm|].
  set (pre := iterOrder (seed st) (map_to_list (preServices s))) in *.
  set (E := λ (_ : nat) (entry : string * @Service W),
         match sv_PreStart entry.2 with
         | Some _ => [EvLog Trace ("pre-start " +:+ entry.1);
                      called (PreService entry.1) MPreStart]
         | None => []
         end).
  assert (preStartEvents pre =
          concat (imap (λ j, E (0 + j)) pre) ++
          [EvNew StartOutbounds (Returned None)] ++ [called TheRouter MStart]) as ->.
  { unfold preStartEvents, E. cbn. by rewrite imap_ignore. }
  match type of Hrun with
  | _ ?s1 = _ => assert (∀ ff, failsWithin ff s1 st' → failsWithin ff st st') as Hshift
  end.
  { intros ff (evs & Htr & Hcut). by exists evs. }
  apply Hshift. clear Hshift.
  apply bind_fail_inv in Hrun as [Hrun | ([] & st2 & H2 & Hrun)].
  { apply failsWithin_earlier. apply (unitLoop_cut _ E) in Hrun; [done | |].
    - intros i [name sv] sa sb Hbody. unfold E. cbn in *. destruct (sv_PreStart sv).
      + by apply loggedStep_ok in Hbody.
      + munfold. simplify_eq. by rewrite app_nil_r.
    - intros i [name sv] sa e sb Hbody. unfold E. cbn in *. destruct (sv_PreStart sv).
      + by apply (loggedStep_cut _ _ (Invoke (PreService name) MPreStart)) in Hbody.
      + munfold. by simplify_eq. }
  apply (unitLoop_run _ E) in H2.
  2:{ intros i [name sv] sa sb Hbody. unfold E. cbn in *. destruct (sv_PreStart sv).
      - by apply loggedStep_ok in Hbody.
      - munfold. simplify_eq. by rewrite app_nil_r. }
  eapply failsWithin_later; [exact H2|].
  apply bind_fail_inv in Hrun as [Hrun | (r & st3 & Hcall & Hrun)].
  { unfold call in Hrun. by destruct (startOutbounds _ _ _) as [[[]|?|?] ?]. }
  apply bind_fail_inv in Hrun as [Hrun | ([] & st4 & H4 & Hrun)].
  { apply failsWithin_earlier.
    apply (callStep_cut (Construct StartOutbounds) (startOutbounds pk (outbounds s)) id _ err).
    change ((r ← call (EvNew StartOutbounds) (startOutbounds pk (outbounds s));
             orReturn r id) st2 = (Fail err, st')).
    by rewrite bind_run, Hcall. }
  assert (trace st4 = trace st2 ++ [EvNew StartOutbounds (Returned None)]) as Htr4.
  { apply (callStep_ok (EvNew StartOutbounds) (startOutbounds pk (outbounds s)) id).
    by rewrite bind_run, Hcall. }
  eapply failsWithin_later; [exact Htr4|].
  by apply (callStep_cut (Invoke TheRouter MStart)) in Hrun.
Qed.

Lemma start_cut s st err st' :
  start pk s st = (Fail err, st') →
  ∃ pre1 pre2, orderOf (preServices s) pre1 ∧ orderOf (preServices s) pre2 ∧
               failsWithin (startEvents s pre1 pre2) st st'.
Proof.
  unfold start. intros Hrun.
  apply bind_fail_inv in Hrun as [Hrun | ([] & st1 & H1 & Hrun)].
  { apply preStart_cut in Hrun as (pre & Hpre & Hcut).
    exists pre, pre. split; [done|]. split; [done|]. by apply failsWithin_earlier. }
  apply preStart_run in H1 as (pre1 & Hpre1 & Htr1).
  apply bind_fail_inv in Hrun as [Hrun | (pre2 & st2 & H2 & Hrun)].
  { unfold rangeMap in Hrun. by simplify_eq. }
  unfold rangeMap in H2. simplify_eq.
  exists pre1, (iterOrder (seed st1) (map_to_list (preServices s))).
  split; [done|]. split; [apply iterOrder_perm|].
  set (pre2 := iterOrder (seed st1) (map_to_list (preServices s))) in *.
  unfold startEvents. eapply failsWithin_later; [exact Htr1|].
  match type of Hrun with
  | _ ?s1 = _ => assert (∀ ff, failsWithin ff s1 st' → failsWithin ff st1 st') as Hshift
  end.
  { intros ff (evs & Htr & Hcut). by exists evs. }
  apply Hshift. clear Hshift. rewrite <- (imap_ignore _ pre2).
  apply bind_fail_inv in Hrun as [Hrun | ([] & st3 & H3 & Hrun)].
  { apply failsWithin_earlier.
    apply (unitLoop_cut _ (λ _ (entry : string * Service),
             [EvLog Trace ("starting " +:+ entry.1); called (PreService entry.1) MStart]))
      in Hrun; [done | |].
    - intros i [name sv] sa sb Hbody. by apply loggedStep_ok in Hbody.
    - intros i [name sv] sa e sb Hbody.
      by apply (loggedStep_cut _ _ (Invoke (PreService name) MStart)) in Hbody. }
  apply (unitLoop_run _ (λ _ (entry : string * Service),
           [EvLog Trace ("starting " +:+ entry.1); called (PreService entry.1) MStart])) in H3.
  2:{ intros i [name sv] sa sb Hbody. by apply loggedStep_ok in Hbody. }
  eapply failsWithin_later; [exact H3|].
  apply bind_fail_inv in Hrun as [Hrun | ([] & st4 & H4 & Hrun)].
  { apply failsWithin_earlier.
    apply (unitLoop_cut _ (λ i pp,
             [EvLog Trace ("starting proxyprovider " +:+ pp_Tag pp);
              called (TheProxyProvider i) MStart])) in Hrun; [done | |].
    - intros i pp sa sb Hbody. by apply loggedStep_ok in Hbody.
    - intros i pp sa e sb Hbody.
      by apply (loggedStep_cut _ _ (Invoke (TheProxyProvider i) MStart)) in Hbody. }
  apply (unitLoop_run _ (λ i pp,
           [EvLog Trace ("starting proxyprovider " +:+ pp_Tag pp);
            called (TheProxyProvider i) MStart])) in H4.
  2:{ intros i pp sa sb Hbody. by apply loggedStep_ok in Hbody. }
  eapply failsWithin_later; [exact H4|].
  apply bind_fail_inv in Hrun as [Hrun | ([] & st5 & H5 & Hrun)].
  { apply failsWithin_earlier.
    apply (unitLoop_cut _ (λ i rp,
             [EvLog Trace ("starting ruleprovider " +:+ rp_Tag rp);
              called (TheRuleProvider i) MStart])) in Hrun; [done | |].
    - intros i rp sa sb Hbody. by apply loggedStep_ok in Hbody.
    - intros i rp sa e sb Hbody.
      by apply (loggedStep_cut _ _ (Invoke (TheRuleProvider i) MStart)) in Hbody. }
  apply (unitLoop_run _ (λ i rp,
           [EvLog Trace ("starting ruleprovider " +:+ rp_Tag rp);
            called (TheRuleProvider i) MStart])) in H5.
  2:{ intros i rp sa sb Hbody. by apply loggedStep_ok in Hbody. }
  eapply failsWithin_later; [exact H5|].
  apply (unitLoop_cut _ (λ i in_,
           [EvLog Trace ("initializing " +:+ startLabel i in_);
            called (TheInbound i) MStart])) in Hrun; [done | |].
  - intros i in_ sa sb Hbody. by apply loggedStep_ok in Hbody.
  - intros i in_ sa e sb Hbody.
    by apply (loggedStep_cut _ _ (Invoke (TheInbound i) MStart)) in Hbody.
Qed.

(** X6: a stage that fails has done exactly what a stage that succeeds
    does, up to the call that returned the error, and nothing after it:
    every component before the failing one, in the order of the stage, was
    started, and none after it was touched. *)
Theorem failed_stage_is_cut_short (e : Entry) s st err st' :
  stage pk e s st = (Fail err, st') →
  ∃ (pre1 pre2 : list (string * Service)) (evs : list Event),
    orderOf (preServices s) pre1 ∧
    orderOf (preServices s) pre2 ∧
    trace st' = trace st ++ evs ∧
    CutShort (stageEvents e s pre1 pre2) evs.
Proof.
  destruct e; cbn; intros Hrun.
  - apply preStart_cut in Hrun as (pre & Hpre & evs & Htr & Hcut). by exists pre, pre, evs.
  - apply start_cut in Hrun as (pre1 & pre2 & Hpre1 & Hpre2 & evs & Htr & Hcut).
    by exists pre1, pre2, evs.
Qed.

(** ** A New that fails *)

(** A call whose error is returned wrapped, followed by the rest of the
    function. *)
Lemma callThen_fail {A B} (ev : Ret → Event) (f : Ext A) (wrap : error → error)
    (k : A → M B) st err st' :
  (r ← call ev f; x ← orReturn r wrap; k x) st = (Fail err, st') →
  (∃ e, last (trace st') = Some (ev (Returned (Some e))) ∧ err = wrap e) ∨
  (∃ a st1, call ev f st = (Ok (inr a), st1) ∧ k a st1 = (Fail err, st')).
Proof.
  intros Hrun. rewrite bind_run in Hrun. unfold call in *.
  destruct (f (world st)) as [[a|e|v] w]; munfold; simplify_eq.
  - right. eauto.
  - left. exists e. cbn. by rewrite last_snoc.
Qed.

Lemma call_Built {A} (ev : Ret → Event) (f : Ext A) st a st1 :
  call ev f st = (Ok (inr a), st1) → Built f a.
Proof.
  unfold call. intros Hrun. exists (world st).
  destruct (f (world st)) as [[a'|e|v] w]; simplify_eq. by exists w.
Qed.

Lemma newRuleProvider_fail opts i o acc st err st' :
  RulProviders opts !! i = Some o →
  newRuleProvider pk i o acc st = (Fail err, st') →
  ∃ ev, last (trace st') = Some ev ∧ NewFailure pk opts ev err.
Proof.
  intros Hi Hrun. destruct acc as [[rps ro] dns]. unfold newRuleProvider in Hrun.
  apply callThen_fail in Hrun as [(e & Hlast & ->) | (rp & st1 & _ & Hrun)].
  { eexists. split; [exact Hlast | by apply (fail_newRuleProvider pk opts i o)]. }
  apply callThen_fail in Hrun as [(e & Hlast & ->) | (f & st2 & _ & Hrun)].
  { eexists. split; [exact Hlast | by apply (fail_formatRule pk opts i o)]. }
  munfold. by simplify_eq.
Qed.

Lemma newInbound_fail opts rt i o acc st err st' :
  Inbounds opts !! i = Some o →
  newInbound pk rt i o acc st = (Fail err, st') →
  ∃ ev, last (trace st') = Some ev ∧ NewFailure pk opts ev err.
Proof.
  intros Hi Hrun. unfold newInbound in Hrun.
  apply callThen_fail in Hrun as [(e & Hlast & ->) | (in_ & st1 & _ & Hrun)].
  { eexists. split; [exact Hlast | by apply (fail_newInbound pk opts i o)]. }
  munfold. by simplify_eq.
Qed.

Lemma newOutbound_fail opts rt i o acc st err st' :
  Outbounds opts !! i = Some o →
  newOutbound pk rt i o acc st = (Fail err, st') →
  ∃ ev, last (trace st') = Some ev ∧ NewFailure pk opts ev err.
Proof.
  intros Hi Hrun. unfold newOutbound in Hrun.
  apply callThen_fail in Hrun as [(e & Hlast & ->) | (out & st1 & _ & Hrun)].
  { eexists. split; [exact Hlast | by apply (fail_newOutbound pk opts i o)]. }
  munfold. by simplify_eq.
Qed.

Lemma newProxyProvider_fail opts rt i o acc st err st' :
  ProxyProviders opts !! i = Some o →
  newProxyProvider pk rt i o acc st = (Fail err, st') →
  ∃ ev, last (trace st') = Some ev ∧ NewFailure pk opts ev err.
Proof.
  intros Hi Hrun. destruct acc as [pps outs]. unfold newProxyProvider in Hrun.
  apply callThen_fail in Hrun as [(e & Hlast & ->) | (pp & st1 & Hpp & Hrun)].
  { eexists. split; [exact Hlast | by apply (fail_newProxyProvider pk opts i o)]. }
  apply call_Built in Hpp.
  apply callThen_fail in Hrun as [(e & Hlast & ->) | (cfgs & st2 & Hcfgs & Hrun)].
  { eexists. split; [exact Hlast | by apply (fail_getOutbounds pk opts i o)]. }
  apply call_Built in Hcfgs.
  apply bind_fail_inv in Hrun as [Hrun | (outs' & st3 & _ & Hrun)];
    [|munfold; by simplify_eq].
  apply forRange_fail in Hrun as (j & cfg & acc0 & st0 & Hj & Hrun).
  unfold newProviderOutbound in Hrun.
  apply callThen_fail in Hrun as [(e & Hlast & ->) | (out & st4 & _ & Hrun)];
    [|munfold; by simplify_eq].
  eexists. split; [exact Hlast|].
  by apply (fail_providedOutbound pk opts rt i o pp cfgs).
Qed.

Lemma defaultOutbound_returns_no_error rt (outs : list Outbound) st err st' :
  defaultOutbound pk rt outs st ≠ (Fail err, st').
Proof.
  unfold defaultOutbound, call. munfold.
  destruct (outbound_New pk rt _ _ _ (world st)) as [[out|oErr|v] w]; by munfold.
Qed.

Lemma Router_Initialize_fail opts rt ins outs captured pps rps st err st' :
  Router_Initialize rt ins outs (defaultOutbound pk rt) captured pps rps st = (Fail err, st') →
  ∃ ev, last (trace st') = Some ev ∧ NewFailure pk opts ev err.
Proof.
  unfold Router_Initialize. intros Hrun. destruct (r_WantsDefault rt outs).
  - apply bind_fail_inv in Hrun as [Hrun | ([out cap] & st1 & _ & Hrun)].
    { by apply defaultOutbound_returns_no_error in Hrun. }
    apply callThen_fail in Hrun as [(e & Hlast & ->) | ([] & st2 & _ & Hrun)];
      [|munfold; by simplify_eq].
    eexists. split; [exact Hlast | apply fail_initialize].
  - apply callThen_fail in Hrun as [(e & Hlast & ->) | ([] & st2 & _ & Hrun)];
      [|munfold; by simplify_eq].
    eexists. split; [exact Hlast | apply fail_initialize].
Qed.

(** X7: when [New] returns an error, the call that failed is the last event
    of the trace, so construction stopped there, and the error names the
    step: the error of the call wrapped with "create log factory",
    "parse ruleprovider[i]", "ruleprovider[i] format rule",
    "parse route options", "parse inbound[i]", "parse outbound[i]",
    "parse proxyprovider[i]", "get outbounds from proxyprovider[i]",
    "initialize platform interface", "create clash api server" or
    "create v2ray api server", where [i] is the index in the configuration;
    for an outbound definition returned by a proxy provider the label is
    made of the tag the provider reports and the index [j] of the
    definition in the list it returned; an error of [Router.Initialize] is
    returned as it is, without a label. *)
Theorem New_failure opts st err st' :
  New pk opts st = (Fail err, st') →
  ∃ ev, last (trace st') = Some ev ∧ NewFailure pk opts ev err.
Proof.
  unfold New. intros Hrun.
  apply bind_fail_inv in Hrun as [Hrun | (now & sa & _ & Hrun)]; [done|].
  apply bind_fail_inv in Hrun as [Hrun | ([] & sb & _ & Hrun)]; [done|].
  apply bind_fail_inv in Hrun as [Hrun | ([] & sc & _ & Hrun)]; [done|].
  apply callThen_fail in Hrun as [(e & Hlast & ->) | (lf & sd & _ & Hrun)].
  { eexists. split; [exact Hlast | apply fail_logFactory]. }
  apply bind_fail_inv in Hrun as [Hrun | ([[rps ro] dns] & se & _ & Hrun)].
  { apply forRange_fail in Hrun as (j & o & acc0 & st0 & Hj & Hrun).
    by eapply newRuleProvider_fail. }
  apply callThen_fail in Hrun as [(e & Hlast & ->) | (rt & sf & _ & Hrun)].
  { eexists. split; [exact Hlast | apply fail_newRouter]. }
  apply bind_fail_inv in Hrun as [Hrun | ([] & sg & _ & Hrun)].
  { by apply forRange_fail in Hrun as (j & o & acc0 & st0 & Hj & Hrun). }
  apply bind_fail_inv in Hrun as [Hrun | (ins & sh & _ & Hrun)].
  { apply forRange_fail in Hrun as (j & o & acc0 & st0 & Hj & Hrun).
    by eapply newInbound_fail. }
  apply bind_fail_inv in Hrun as [Hrun | (outs0 & si & _ & Hrun)].
  { apply forRange_fail in Hrun as (j & o & acc0 & st0 & Hj & Hrun).
    by eapply newOutbound_fail. }
  apply bind_fail_inv in Hrun as [Hrun | ([pps outs1] & sj & _ & Hrun)].
  { apply forRange_fail in Hrun as (j & o & acc0 & st0 & Hj & Hrun).
    by eapply newProxyProvider_fail. }
  apply bind_fail_inv in Hrun as [Hrun | (outs2 & sk & _ & Hrun)].
  { by eapply Router_Initialize_fail. }
  apply bind_fail_inv in Hrun as [Hrun | ([] & sl & _ & Hrun)].
  { destruct (PlatformInterface opts) as [pf|] eqn:Hpf; [|done].
    apply callStep_fail in Hrun as (e & Hlast & ->).
    eexists. split; [exact Hlast | apply fail_platform; by rewrite Hpf]. }
  apply bind_fail_inv in Hrun as [Hrun | (pre1 & sm & _ & Hrun)].
  { match type of Hrun with (if ?b then _ else _) _ = _ => destruct b end; [|done].
    apply bind_fail_inv in Hrun as [Hrun | ([] & sm & _ & Hrun)].
    { by destruct (lf_Observable lf). }
    apply callThen_fail in Hrun as [(e & Hlast & ->) | (sv & sn & _ & Hrun)];
      [|munfold; by simplify_eq].
    eexists. split; [exact Hlast | apply fail_clashServer]. }
  apply bind_fail_inv in Hrun as [Hrun | (pre2 & sn & _ & Hrun)].
  { match type of Hrun with (if ?b then _ else _) _ = _ => destruct b end; [|done].
    apply callThen_fail in Hrun as [(e & Hlast & ->) | (sv & so & _ & Hrun)];
      [|munfold; by simplify_eq].
    eexists. split; [exact Hlast | apply fail_v2rayServer]. }
  unfold makeDone in Hrun. munfold. by simplify_eq.
Qed.

(** ** What a run adds to the trace *)

Section Only.

Context (P : Event → Prop).

Lemma only_silent {A} (m : @M W A) :
  (∀ st r st', m st = (r, st') → trace st' = trace st) → emitsOnly (W:=W) P m.
Proof. intros Hm st r st' Hrun. exists []. rewrite app_nil_r. split; [by eapply Hm | done]. Qed.

Lemma only_ret {A} (a : A) : emitsOnly (W:=W) P (mret a : @M W A).
Proof. apply only_silent. intros st r st' Hrun. munfold. by simplify_eq. Qed.

Lemma only_fail {A} err : emitsOnly (W:=W) P (fail err : @M W A).
Proof. apply only_silent. intros st r st' Hrun. munfold. by simplify_eq. Qed.

Lemma only_panic {A} v : emitsOnly (W:=W) P (panic v : @M W A).
Proof. apply only_silent. intros st r st' Hrun. munfold. by simplify_eq. Qed.

Lemma only_readWorld {A} (f : W → A) : emitsOnly (W:=W) P (readWorld f).
Proof. apply only_silent. intros st r st' Hrun. munfold. by simplify_eq. Qed.

Lemma only_rangeMap {A} (m : gmap string A) : emitsOnly (W:=W) P (rangeMap m).
Proof. apply only_silent. intros st r st' Hrun. unfold rangeMap in Hrun. by simplify_eq. Qed.

Lemma only_makeDone : emitsOnly (W:=W) P (makeDone (W:=W)).
Proof. apply only_silent. intros st r st' Hrun. unfold makeDone in Hrun. by simplify_eq. Qed.

Lemma only_makeReloadChan : emitsOnly (W:=W) P (makeReloadChan (W:=W)).
Proof.
  apply only_silent. intros st r st' Hrun. unfold makeReloadChan in Hrun. by simplify_eq.
Qed.

Lemma only_orReturn {A} (r : error + A) wrap : emitsOnly (W:=W) P (orReturn r wrap).
Proof. destruct r; [apply only_fail | apply only_ret]. Qed.

Lemma only_common_Must err : emitsOnly (W:=W) P (common_Must err).
Proof. destruct err; [apply only_panic | apply only_ret]. Qed.

Lemma only_emit ev : P ev → emitsOnly (W:=W) P (emit ev).
Proof.
  intros Hev st r st' Hrun. munfold. simplify_eq. exists [ev]. split; [done | by constructor].
Qed.

Lemma only_logger lvl msg : P (EvLog lvl msg) → emitsOnly (W:=W) P (logger lvl msg).
Proof. apply only_emit. Qed.

Lemma only_effect ev (f : W → W) : P ev → emitsOnly (W:=W) P (effect ev f).
Proof.
  intros Hev st r st' Hrun. munfold. simplify_eq. exists [ev]. split; [done | by constructor].
Qed.

Lemma only_call {A} (ev : Ret → Event) (f : Ext A) : (∀ r, P (ev r)) → emitsOnly (W:=W) P (call ev f).
Proof.
  intros Hev st r st' Hrun. unfold call in Hrun.
  destruct (f (world st)) as [[a|e|v] w]; simplify_eq; eexists [_];
    (split; [done | by constructor]).
Qed.

Lemma only_bind {A B} (m : M A) (k : A → M B) :
  emitsOnly (W:=W) P m → (∀ a, emitsOnly (W:=W) P (k a)) → emitsOnly (W:=W) P (m ≫= k).
Proof.
  intros Hm Hk st r st' Hrun. rewrite bind_run in Hrun.
  destruct (m st) as [[a|err|v] st1] eqn:H1; apply Hm in H1 as (evs1 & Htr1 & Hall1).
  - apply Hk in Hrun as (evs2 & Htr2 & Hall2). exists (evs1 ++ evs2).
    split; [by rewrite Htr2, Htr1, app_assoc | by apply Forall_app].
  - simplify_eq. by exists evs1.
  - simplify_eq. by exists evs1.
Qed.

Lemma only_forRange {A B} (body : nat → A → B → M B) i xs acc :
  (∀ i x acc, emitsOnly (W:=W) P (body i x acc)) → emitsOnly (W:=W) P (forRange body i xs acc).
Proof.
  intros Hbody. revert i acc.
  induction xs as [|x xs IH]; intros i acc; cbn.
  - apply only_ret.
  - apply only_bind; auto.
Qed.



End Only.

(** Proves [emitsOnly] of a computation built from the combinators; [tac]
    proves that an event satisfies the predicate. *)
Ltac emits_only_with tac :=
  repeat first
    [ apply only_ret | apply only_fail | apply only_panic | apply only_readWorld
    | apply only_rangeMap | apply only_makeDone | apply only_makeReloadChan
    | apply only_orReturn | apply only_common_Must
    | apply only_bind | apply only_forRange
    | apply only_call | apply only_logger | apply only_emit | apply only_effect
    | progress intros
    | progress lazy zeta
    | tac
    | match goal with
      | |- emitsOnly _ ((match ?x with _ => _ end) _) => destruct x
      | |- emitsOnly _ (match ?x with _ => _ end) => destruct x
      end ].


Lemma New_only (P : Event → Prop) opts :
  (∀ c r, c ≠ StartOutbounds → P (EvNew c r)) →
  (∀ c m r, lifecycleCall (EvCall c m r) = false → P (EvCall c m r)) →
  P EvApplyDebugOptions →
  emitsOnly P (New pk opts).
Proof.
  intros Hnew Hcall Hdebug.
  unfold New, newRuleProvider, newInbound, newOutbound, newProxyProvider, newProviderOutbound,
    Router_Initialize, defaultOutbound.
  emits_only_with ltac:(first [exact Hdebug | by apply Hnew | by apply Hcall]).
Qed.

(** X8: construction activates nothing.  However [New] ends, with a Box,
    an error or a panic, it has called no [PreStart], [Start], [PostStart]
    or [Close] of any collaborator and not [startOutbounds]: nothing is
    started before [PreStart] or [Start] is called, and a [New] that fails
    midway closes none of the components it has constructed. *)
Theorem New_starts_and_closes_nothing opts st :
  ∃ evs, trace (New pk opts st).2 = trace st ++ evs ∧
         Forall (λ ev, lifecycleCall ev = false) evs.
Proof.
  destruct (New pk opts st) as [r st'] eqn:Hrun. cbn. revert st r st' Hrun.
  apply (New_only (λ ev, lifecycleCall ev = false)); [|done|done].
  intros c r Hc. by destruct c.
Qed.

(** ** A New that succeeds, step by step *)

Lemma callThen_ok {A B} (ev : Ret → Event) (f : Ext A) (wrap : error → error)
    (k : A → M B) st b st' :
  (r ← call ev f; x ← orReturn r wrap; k x) st = (Ok b, st') →
  ∃ a st1, Built f a ∧ trace st1 = trace st ++ [ev (Returned None)] ∧
           k a st1 = (Ok b, st').
Proof.
  intros Hrun. rewrite bind_run in Hrun. unfold call in *.
  destruct (f (world st)) as [[a|e|v] w] eqn:Hf; munfold; simplify_eq.
  exists a. eexists. split; [by exists (world st), w|]. split; [|exact Hrun]. done.
Qed.

Lemma callStep_Built {A} (ev : Ret → Event) (f : Ext A) (wrap : error → error) st a st' :
  (r ← call ev f; orReturn r wrap) st = (Ok a, st') →
  Built f a ∧ trace st' = trace st ++ [ev (Returned None)].
Proof.
  intros Hrun. rewrite bind_run in Hrun. unfold call in *.
  destruct (f (world st)) as [[a'|e|v] w] eqn:Hf; munfold; simplify_eq.
  split; [by exists (world st), w | done].
Qed.

Lemma concat_imap_singleton {A} (f : nat → A → Event) (xs : list A) :
  concat (imap (λ j x, [f j x]) xs) = imap f xs.
Proof.
  revert f. induction xs as [|x xs IH]; intros f; [done|].
  cbn. f_equal. apply (IH (f ∘ S)).
Qed.

Lemma New_run opts st box st' :
  New pk opts st = (Ok box, st') →
  ∃ ro dns outs0 outs1 clash v2ray evsRP evsIn evsOut evsPP evsInit,
    createdAt box = time_Now pk (world st) ∧
    Built (log_New pk (needClashAPI opts) (Log opts)) (logFactory box) ∧
    Iterated (newRuleProvider pk) 0 (RulProviders opts)
      ([], routeOrDefault (Route opts), dnsOrDefault (DNS opts))
      (ruleProviders box, ro, dns) evsRP ∧
    Built (route_NewRouter pk ro dns (NTP opts) (Inbounds opts)) (router box) ∧
    Iterated (newInbound pk (router box)) 0 (Inbounds opts) [] (inbounds box) evsIn ∧
    Iterated (newOutbound pk (router box)) 0 (Outbounds opts) [] outs0 evsOut ∧
    Iterated (newProxyProvider pk (router box)) 0 (ProxyProviders opts)
      ([], outs0) (proxyProviders box, outs1) evsPP ∧
    Ran (Router_Initialize (router box) (inbounds box) outs1
           (defaultOutbound pk (router box)) outs1 (proxyProviders box) (ruleProviders box))
        (outbounds box) evsInit ∧
    (∀ pf, PlatformInterface opts = Some pf → Built (pf_Initialize pf (router box)) tt) ∧
    preServices box = registered clash v2ray ∧
    postServices box = ∅ ∧
    (if needClashAPI opts
     then ∃ sv, clash = Some sv ∧ lf_Observable (logFactory box) = true ∧
                Built (experimental_NewClashServer pk (router box) (logFactory box)
                         (ClashAPI (experimentalOrDefault (Experimental opts)))) sv
     else clash = None) ∧
    (if needV2RayAPI opts
     then ∃ sv, v2ray = Some sv ∧
                Built (experimental_NewV2RayServer pk "v2ray-api"
                         (V2RayAPI (experimentalOrDefault (Experimental opts)))) sv
     else v2ray = None) ∧
    trace st' = trace st ++
      [EvApplyDebugOptions; EvNew (NewLogFactory (needClashAPI opts)) (Returned None)] ++
      evsRP ++
      EvNew (NewRouter ro dns) (Returned None) ::
      imap (λ i _, called (TheRuleProvider i) MSetRouter) (ruleProviders box) ++
      evsIn ++ evsOut ++ evsPP ++ evsInit ++ apiEvents opts ∧
    done st' = false.
Proof.
  unfold New. intros Hrun.
  apply bind_ok_inv in Hrun as (now & sa & Ha & Hrun). unfold readWorld in Ha. simplify_eq.
  apply bind_ok_inv in Hrun as ([] & sb & Hb & Hrun). unfold makeReloadChan in Hb. simplify_eq.
  apply bind_ok_inv in Hrun as ([] & sc & Hc & Hrun). unfold emit in Hc. simplify_eq.
  fold (needClashAPI opts) in Hrun. fold (needV2RayAPI opts) in Hrun.
  apply callThen_ok in Hrun as (lf & sd & Hlf & Htrd & Hrun). cbn in Htrd.
  apply bind_ok_inv in Hrun as ([[rps ro] dns] & sf & Hf & Hrun).
  apply forRange_Iterated in Hf as (evsRP & HtrRP & HitRP); [|apply newRuleProvider_grows].
  apply callThen_ok in Hrun as (rt & sg & Hrt & Htrg & Hrun).
  apply bind_ok_inv in Hrun as ([] & sh & Hh & Hrun).
  apply (unitLoop_run _ (λ i _, [called (TheRuleProvider i) MSetRouter])) in Hh.
  2:{ intros i rp s1 s2 Hbody. unfold effect in Hbody. by simplify_eq. }
  rewrite (concat_imap_singleton (λ i _, called (TheRuleProvider i) MSetRouter)) in Hh.
  apply bind_ok_inv in Hrun as (ins & sj & Hj & Hrun).
  apply forRange_Iterated in Hj as (evsIn & HtrIn & HitIn); [|apply newInbound_grows].
  apply bind_ok_inv in Hrun as (outs0 & sk & Hk & Hrun).
  apply forRange_Iterated in Hk as (evsOut & HtrOut & HitOut); [|apply newOutbound_grows].
  apply bind_ok_inv in Hrun as ([pps outs1] & sl & Hl & Hrun).
  apply forRange_Iterated in Hl as (evsPP & HtrPP & HitPP); [|apply newProxyProvider_grows].
  apply bind_ok_inv in Hrun as (outs2 & sm & Hm & Hrun).
  apply ran_of_run in Hm as (evsInit & HtrInit & HranInit); [|apply Router_Initialize_grows].
  apply bind_ok_inv in Hrun as ([] & sn & Hn & Hrun).
  assert (trace sn = trace sm ++
            match PlatformInterface opts with
            | Some _ => [called ThePlatform MPlatformInitialize]
            | None => []
            end ∧
          ∀ pf, PlatformInterface opts = Some pf → Built (pf_Initialize pf rt) tt)
    as [Htrn Hpf].
  { destruct (PlatformInterface opts) as [pf|].
    - apply callStep_Built in Hn as [Hb1 Htr1].
      split; [done|]. intros pf' ?. by simplify_eq.
    - munfold. simplify_eq. by rewrite app_nil_r. }
  clear Hn.
  apply bind_ok_inv in Hrun as (pre1 & so & Ho & Hrun).
  assert (∃ clash,
            pre1 = registered clash None ∧
            (if needClashAPI opts
             then ∃ sv, clash = Some sv ∧ lf_Observable lf = true ∧
                        Built (experimental_NewClashServer pk rt lf
                                 (ClashAPI (experimentalOrDefault (Experimental opts)))) sv
             else clash = None) ∧
            trace so = trace sn ++
              if needClashAPI opts
              then [EvNew NewClashServer (Returned None); called TheRouter MSetClashServer]
              else []) as (clash & Hpre1 & Hclash & Htro).
  { destruct (needClashAPI opts).
    - apply bind_ok_inv in Ho as ([] & s1 & Hobs & Ho).
      destruct (lf_Observable lf) eqn:Hobservable; [|done]. munfold. simplify_eq.
      apply callThen_ok in Ho as (sv & s2 & Hsv & Htr2 & Ho).
      unfold effect in Ho. munfold. simplify_eq.
      exists (Some sv). split; [done|]. split; [by exists sv|].
      cbn. by rewrite Htr2, <- app_assoc.
    - munfold. simplify_eq. exists None. by rewrite app_nil_r. }
  clear Ho.
  apply bind_ok_inv in Hrun as (pre2 & sp & Hp & Hrun).
  assert (∃ v2ray,
            pre2 = registered clash v2ray ∧
            (if needV2RayAPI opts
             then ∃ sv, v2ray = Some sv ∧
                        Built (experimental_NewV2RayServer pk "v2ray-api"
                                 (V2RayAPI (experimentalOrDefault (Experimental opts)))) sv
             else v2ray = None) ∧
            trace sp = trace so ++
              if needV2RayAPI opts
              then [EvNew (NewV2RayServer "v2ray-api") (Returned None);
                    called TheRouter MSetV2RayServer]
              else []) as (v2ray & Hpre2 & Hv2ray & Htrp).
  { subst pre1. destruct (needV2RayAPI opts).
    - apply callThen_ok in Hp as (sv & s2 & Hsv & Htr2 & Hp).
      unfold effect in Hp. munfold. simplify_eq.
      exists (Some sv). split; [done|]. split; [by exists sv|].
      cbn. by rewrite Htr2, <- app_assoc.
    - munfold. simplify_eq. exists None. by rewrite app_nil_r. }
  clear Hp.
  unfold makeDone in Hrun. munfold. simplify_eq. cbn.
  exists ro, dns, outs0, outs1, clash, v2ray, evsRP, evsIn, evsOut, evsPP, evsInit.
  split_and!; try done.
  rewrite Htrp, Htro, Htrn, HtrInit, HtrPP, HtrOut, HtrIn, Hh, Htrg, HtrRP, Htrd.
  unfold apiEvents. by rewrite <- !app_assoc.
Qed.

(** X9: what a [New] that succeeds registers.  The pre-services of the Box
    are the Clash API server under the name "clash api", present exactly
    when Clash API options or a platform interface are configured, and the
    V2Ray API server under the name "v2ray api", present exactly when V2Ray
    API options with a non-empty listen address are configured; no other
    pre-service and no post-service is registered.  The log factory is
    created observable exactly when the Clash API server is needed, and the
    Clash API server is built from that factory.  The platform interface is
    initialised and the servers are created and handed to the router at the
    very end of [New], in this order.  The Box is not closed and carries the
    time read at the beginning of [New]. *)
Theorem New_registers_api_services opts st box st' :
  New pk opts st = (Ok box, st') →
  ∃ (clash v2ray : option Service) (before : list Event),
    preServices box = registered clash v2ray ∧
    postServices box = ∅ ∧
    (is_Some clash ↔ needClashAPI opts = true) ∧
    (is_Some v2ray ↔ needV2RayAPI opts = true) ∧
    (∀ sv, clash = Some sv →
       lf_Observable (logFactory box) = true ∧
       Built (experimental_NewClashServer pk (router box) (logFactory box)
                (ClashAPI (experimentalOrDefault (Experimental opts)))) sv) ∧
    (∀ sv, v2ray = Some sv →
       Built (experimental_NewV2RayServer pk "v2ray-api"
                (V2RayAPI (experimentalOrDefault (Experimental opts)))) sv) ∧
    Built (log_New pk (needClashAPI opts) (Log opts)) (logFactory box) ∧
    trace st' = trace st ++ before ++ apiEvents opts ∧
    done st' = false ∧
    createdAt box = time_Now pk (world st).
Proof.
  intros Hnew.
  destruct (New_run _ _ _ _ Hnew)
    as (ro & dns & outs0 & outs1 & clash & v2ray & evsRP & evsIn & evsOut & evsPP & evsInit &
        Hat & Hlf & _ & _ & _ & _ & _ & _ & _ & Hpre & Hpost & Hclash & Hv2ray & Htr & Hd).
  exists clash, v2ray,
    ([EvApplyDebugOptions; EvNew (NewLogFactory (needClashAPI opts)) (Returned None)] ++
     evsRP ++
     EvNew (NewRouter ro dns) (Returned None) ::
     imap (λ i _, called (TheRuleProvider i) MSetRouter) (ruleProviders box) ++
     evsIn ++ evsOut ++ evsPP ++ evsInit).
  split; [done|]. split; [done|]. split.
  { destruct (needClashAPI opts).
    - destruct Hclash as (sv & -> & _). by split.
    - subst clash. split; [by intros [? ?] | done]. }
  split.
  { destruct (needV2RayAPI opts).
    - destruct Hv2ray as (sv & -> & _). by split.
    - subst v2ray. split; [by intros [? ?] | done]. }
  split.
  { intros sv ->. destruct (needClashAPI opts); [|done].
    destruct Hclash as (sv' & ? & ? & ?). by simplify_eq. }
  split.
  { intros sv ->. destruct (needV2RayAPI opts); [|done].
    destruct Hv2ray as (sv' & ? & ?). by simplify_eq. }
  split; [done|]. split; [|split; [exact Hd | exact Hat]].
  rewrite Htr. f_equal. cbn. do 2 f_equal. rewrite <- !app_assoc. cbn.
  by rewrite <- !app_assoc.
Qed.




(** ** Starting a Box that is closed *)

Lemma ignores_ret {A} (a : A) : ignoresDone (mret a : @M W A).
Proof. done. Qed.

Lemma ignores_fail {A} err : ignoresDone (fail err : @M W A).
Proof. done. Qed.

Lemma ignores_emit ev : ignoresDone (W:=W) (emit ev).
Proof. done. Qed.

Lemma ignores_logger lvl msg : ignoresDone (W:=W) (logger lvl msg).
Proof. done. Qed.

Lemma ignores_rangeMap {A} (m : gmap string A) : ignoresDone (W:=W) (rangeMap m).
Proof. done. Qed.

Lemma ignores_orReturn {A} (r : error + A) wrap : ignoresDone (W:=W) (orReturn r wrap).
Proof. by destruct r. Qed.

Lemma ignores_call {A} (ev : Ret → Event) (f : @Ext W A) : ignoresDone (call ev f).
Proof. intros b st. unfold call. cbn. by destruct (f (world st)) as [[a|e|v] w]. Qed.

Lemma ignores_bind {A B} (m : @M W A) (k : A → M B) :
  ignoresDone m → (∀ a, ignoresDone (k a)) → ignoresDone (m ≫= k).
Proof.
  intros Hm Hk b st. rewrite !bind_run, Hm.
  destruct (m st) as [[a|err|v] st1]; cbn; [apply Hk | done | done].
Qed.

Lemma ignores_forRange {A B} (body : nat → A → B → @M W B) i xs acc :
  (∀ i x acc, ignoresDone (body i x acc)) → ignoresDone (forRange body i xs acc).
Proof.
  intros Hbody. revert i acc.
  induction xs as [|x xs IH]; intros i acc; cbn.
  - apply ignores_ret.
  - apply ignores_bind; auto.
Qed.

Ltac ignores_done :=
  repeat first
    [ apply ignores_ret | apply ignores_fail | apply ignores_emit | apply ignores_logger
    | apply ignores_rangeMap | apply ignores_orReturn | apply ignores_call
    | apply ignores_bind | apply ignores_forRange
    | progress intros
    | progress lazy zeta
    | match goal with
      | |- ignoresDone ((match ?x with _ => _ end) _) => destruct x
      | |- ignoresDone (match ?x with _ => _ end) => destruct x
      end ].

(** X11: [preStart] and [start] never look at the closed marker.  On a Box
    that has been closed they run exactly as on an open one: the same
    calls in the same order, the same result, and the marker is left as it
    was.  A closed Box is not refused a start. *)
Theorem stage_ignores_closed_marker (e : Entry) s (b : bool) st :
  stage pk e s (withDone b st) = ((stage pk e s st).1, withDone b (stage pk e s st).2).
Proof.
  revert b st. change (ignoresDone (stage pk e s)).
  destruct e; cbn [stage].
  - unfold preStart. ignores_done.
  - unfold start, preStart. ignores_done.
Qed.

(** X12: [PreStart] and [Start] on a Box that is already closed.  When the
    stage succeeds, the call returns nil and the Box stays closed: a later
    [Close] returns [os.ErrClosed] at once, so what has just been started
    is not closed by it.  When the stage fails, the rollback closes
    nothing: the call returns the error of the stage in the state the
    stage left, with nothing added to the trace. *)
Theorem start_of_closed_Box (e : Entry) s st r st1 :
  done st = true →
  stage pk e s st = (r, st1) →
  match r with
  | Ok _ =>
      ∃ since, entry pk e s st = (Ok tt, record (startedLine e since) st1) ∧
               Close s (record (startedLine e since) st1) =
                 (Fail ErrClosed, record (startedLine e since) st1)
  | Fail err => entry pk e s st = (Fail err, st1)
  | Panic v => entry pk e s st = (Panic v, st1)
  end.
Proof.
  intros Hd Hstage.
  assert (done st1 = true) as Hd1.
  { pose proof (preserves_stage sameDone e s _ _ _ Hstage) as Hsame.
    unfold sameDone in Hsame. congruence. }
  destruct r as [[]|err|v].
  - exists (time_Since pk (createdAt s) (world st1)). split.
    + destruct e; cbn in *; unfold PreStart, Start, try; munfold; by rewrite Hstage.
    + by apply Close_closed.
  - rewrite (rollback_run e s st err st1 Hstage), (Close_closed s st1 Hd1). done.
  - destruct e; cbn in *; unfold PreStart, Start, try; munfold; by rewrite Hstage.
Qed.

(** X13: [New] registers no post-service, so [postStart] on a Box made by
    [New] starts no service: when it returns nil it has only logged and
    called [PostStart] for the outbounds that have that method, in index
    order. *)
Theorem postStart_after_New opts st box st' st1 st2 :
  New pk opts st = (Ok box, st') →
  postStart box st1 = (Ok tt, st2) →
  trace st2 = trace st1 ++ postStartEvents box [].
Proof.
  intros Hnew Hpost.
  destruct (New_run _ _ _ _ Hnew)
    as (ro & dns & outs0 & outs1 & clash & v2ray & evsRP & evsIn & evsOut & evsPP & evsInit &
        _ & _ & _ & _ & _ & _ & _ & _ & _ & _ & Hnone & _).
  apply postStart_run in Hpost as (post & Horder & Htr).
  unfold orderOf in Horder. rewrite Hnone, map_to_list_empty in Horder.
  apply Permutation_nil_r in Horder. by subst post.
Qed.

(** ** Panics *)

Lemma bind_panic_inv {A B} (m : M A) (k : A → M B) st v st' :
  (m ≫= k) st = (Panic v, st') →
  m st = (Panic v, st') ∨ ∃ a st1, m st = (Ok a, st1) ∧ k a st1 = (Panic v, st').
Proof.
  rewrite bind_run. destruct (m st) as [[a|e|v'] st1]; intros Hrun; simplify_eq; eauto.
Qed.

Lemma forRange_panic {A B} (body : nat → A → B → M B) xs i acc st v st' :
  forRange body i xs acc st = (Panic v, st') →
  ∃ j x acc0 st0, xs !! j = Some x ∧ body (i + j) x acc0 st0 = (Panic v, st').
Proof.
  revert i acc st. induction xs as [|x xs IH]; intros i acc st Hrun; [done|].
  rewrite forRange_cons in Hrun.
  destruct (body i x acc st) as [[acc'|e|v'] st1] eqn:H1; simplify_eq.
  - apply IH in Hrun as (j & y & acc0 & st0 & Hj & Hy).
    exists (S j), y, acc0, st0. split; [done|]. by replace (i + S j) with (S i + j) by lia.
  - exists 0, x, acc, st. by rewrite Nat.add_0_r.
Qed.

Lemma call_panic {A} (ev : Ret → Event) (f : Ext A) st v st' :
  call ev f st = (Panic v, st') → last (trace st') = Some (ev (Panicked v)).
Proof.
  unfold call. intros Hrun. destruct (f (world st)) as [[a|e|v'] w]; simplify_eq.
  cbn. by rewrite last_snoc.
Qed.

(** A call followed by the rest of the function panics in the call or in
    the rest. *)
Lemma callThen_panic {A B} (ev : Ret → Event) (f : Ext A) (wrap : error → error)
    (k : A → M B) st v st' :
  (r ← call ev f; x ← orReturn r wrap; k x) st = (Panic v, st') →
  last (trace st') = Some (ev (Panicked v)) ∨
  (∃ a st1, call ev f st = (Ok (inr a), st1) ∧ k a st1 = (Panic v, st')).
Proof.
  intros Hrun. apply bind_panic_inv in Hrun as [Hrun | (r & st1 & Hcall & Hrun)].
  - left. by apply call_panic in Hrun.
  - right. destruct r as [e|a]; munfold; simplify_eq. eauto.
Qed.

Lemma callStep_panic (ev : Ret → Event) (f : Ext unit) (wrap : error → error) st v st' :
  (r ← call ev f; orReturn r wrap) st = (Panic v, st') →
  last (trace st') = Some (ev (Panicked v)).
Proof.
  intros Hrun. apply bind_panic_inv in Hrun as [Hrun | (r & st1 & Hcall & Hrun)].
  - by apply call_panic in Hrun.
  - destruct r; munfold; by simplify_eq.
Qed.

Lemma loggedStep_panic lvl msg (ev : Ret → Event) (f : Ext unit) (wrap : error → error)
    st v st' :
  (logger lvl msg;; r ← call ev f; orReturn r wrap) st = (Panic v, st') →
  last (trace st') = Some (ev (Panicked v)).
Proof.
  intros Hrun. apply bind_panic_inv in Hrun as [Hrun | (a & st1 & _ & Hrun)].
  - unfold logger, emit in Hrun. by simplify_eq.
  - by apply callStep_panic in Hrun.
Qed.

Lemma preStart_panic s st v st' :
  preStart pk s st = (Panic v, st') →
  ∃ k, last (trace st') = Some (callOf k (Panicked v)) ∧
       lifecycleCall (callOf k (Panicked v)) = true.
Proof.
  unfold preStart. intros Hrun.
  apply bind_panic_inv in Hrun as [Hrun | (pre & st1 & _ & Hrun)].
  { unfold rangeMap in Hrun. by simplify_eq. }
  apply bind_panic_inv in Hrun as [Hrun | ([] & st2 & _ & Hrun)].
  { apply forRange_panic in Hrun as (j & [name sv] & [] & st0 & _ & Hrun).
    destruct (sv_PreStart sv) as [f|]; [|munfold; by simplify_eq].
    apply loggedStep_panic in Hrun. by exists (Invoke (PreService name) MPreStart). }
  apply bind_panic_inv in Hrun as [Hrun | (r & st3 & Hcall & Hrun)].
  { apply call_panic in Hrun. by exists (Construct StartOutbounds). }
  apply bind_panic_inv in Hrun as [Hrun | ([] & st4 & _ & Hrun)].
  { destruct r; munfold; by simplify_eq. }
  apply callStep_panic in Hrun. by exists (Invoke TheRouter MStart).
Qed.

Lemma start_panic s st v st' :
  start pk s st = (Panic v, st') →
  ∃ k, last (trace st') = Some (callOf k (Panicked v)) ∧
       lifecycleCall (callOf k (Panicked v)) = true.
Proof.
  unfold start. intros Hrun.
  apply bind_panic_inv in Hrun as [Hrun | ([] & st1 & _ & Hrun)].
  { by eapply preStart_panic. }
  apply bind_panic_inv in Hrun as [Hrun | (pre & st2 & _ & Hrun)].
  { unfold rangeMap in Hrun. by simplify_eq. }
  apply bind_panic_inv in Hrun as [Hrun | ([] & st3 & _ & Hrun)].
  { apply forRange_panic in Hrun as (j & [name sv] & [] & st0 & _ & Hrun).
    apply loggedStep_panic in Hrun. by exists (Invoke (PreService name) MStart). }
  apply bind_panic_inv in Hrun as [Hrun | ([] & st4 & _ & Hrun)].
  { apply forRange_panic in Hrun as (j & pp & [] & st0 & Hj & Hrun).
    apply loggedStep_panic in Hrun. by exists (Invoke (TheProxyProvider (0 + j)) MStart). }
  apply bind_panic_inv in Hrun as [Hrun | ([] & st5 & _ & Hrun)].
  { apply forRange_panic in Hrun as (j & rp & [] & st0 & Hj & Hrun).
    apply loggedStep_panic in Hrun. by exists (Invoke (TheRuleProvider (0 + j)) MStart). }
  apply forRange_panic in Hrun as (j & in_ & [] & st0 & Hj & Hrun).
  apply loggedStep_panic in Hrun. by exists (Invoke (TheInbound (0 + j)) MStart).
Qed.

(** X14: a panic is not rolled back.  [preStart] and [start] panic only
    when one of the calls that start a component panics; [PreStart] and
    [Start] then end with the same panic in the state the call left:
    [Close] is not run, nothing is logged, and the components started
    before the panic stay started. *)
Theorem panic_in_stage_is_not_rolled_back (e : Entry) s st v st1 :
  stage pk e s st = (Panic v, st1) →
  entry pk e s st = (Panic v, st1) ∧
  ∃ k, last (trace st1) = Some (callOf k (Panicked v)) ∧
       lifecycleCall (callOf k (Panicked v)) = true.
Proof.
  intros Hstage. split.
  - destruct e; cbn in *; unfold PreStart, Start, try; munfold; by rewrite Hstage.
  - destruct e; cbn in Hstage; [by eapply preStart_panic | by eapply start_panic].
Qed.

Lemma newRuleProvider_panic opts i o acc st v st' :
  newRuleProvider pk i o acc st = (Panic v, st') →
  ∃ ev, last (trace st') = Some ev ∧ NewPanic pk opts ev v.
Proof.
  intros Hrun. destruct acc as [[rps ro] dns]. unfold newRuleProvider in Hrun.
  apply callThen_panic in Hrun as [Hlast | (rp & st1 & _ & Hrun)].
  { eexists. split; [exact Hlast | by apply (panic_collaborator pk opts (Construct _))]. }
  apply callThen_panic in Hrun as [Hlast | (f & st2 & _ & Hrun)].
  { eexists. split; [exact Hlast | by apply (panic_collaborator pk opts (Invoke _ _))]. }
  munfold. by simplify_eq.
Qed.

Lemma newInbound_panic opts rt i o acc st v st' :
  newInbound pk rt i o acc st = (Panic v, st') →
  ∃ ev, last (trace st') = Some ev ∧ NewPanic pk opts ev v.
Proof.
  intros Hrun. unfold newInbound in Hrun.
  apply callThen_panic in Hrun as [Hlast | (in_ & st1 & _ & Hrun)].
  { eexists. split; [exact Hlast | by apply (panic_collaborator pk opts (Construct _))]. }
  munfold. by simplify_eq.
Qed.

Lemma newOutbound_panic opts rt i o acc st v st' :
  newOutbound pk rt i o acc st = (Panic v, st') →
  ∃ ev, last (trace st') = Some ev ∧ NewPanic pk opts ev v.
Proof.
  intros Hrun. unfold newOutbound in Hrun.
  apply callThen_panic in Hrun as [Hlast | (out & st1 & _ & Hrun)].
  { eexists. split; [exact Hlast | by apply (panic_collaborator pk opts (Construct _))]. }
  munfold. by simplify_eq.
Qed.

Lemma newProxyProvider_panic opts rt i o acc st v st' :
  newProxyProvider pk rt i o acc st = (Panic v, st') →
  ∃ ev, last (trace st') = Some ev ∧ NewPanic pk opts ev v.
Proof.
  intros Hrun. destruct acc as [pps outs]. unfold newProxyProvider in Hrun.
  apply callThen_panic in Hrun as [Hlast | (pp & st1 & _ & Hrun)].
  { eexists. split; [exact Hlast | by apply (panic_collaborator pk opts (Construct _))]. }
  apply callThen_panic in Hrun as [Hlast | (cfgs & st2 & _ & Hrun)].
  { eexists. split; [exact Hlast | by apply (panic_collaborator pk opts (Invoke _ _))]. }
  apply bind_panic_inv in Hrun as [Hrun | (outs' & st3 & _ & Hrun)];
    [|munfold; by simplify_eq].
  apply forRange_panic in Hrun as (j & cfg & acc0 & st0 & Hj & Hrun).
  unfold newProviderOutbound in Hrun.
  apply callThen_panic in Hrun as [Hlast | (out & st4 & _ & Hrun)];
    [|munfold; by simplify_eq].
  eexists. split; [exact Hlast | by apply (panic_collaborator pk opts (Construct _))].
Qed.

Lemma defaultOutbound_panic opts rt (outs : list Outbound) st v st' :
  defaultOutbound pk rt outs st = (Panic v, st') →
  ∃ ev, last (trace st') = Some ev ∧ NewPanic pk opts ev v.
Proof.
  unfold defaultOutbound, call. munfold. intros Hrun.
  destruct (outbound_New pk rt _ _ _ (world st)) as [[out|oErr|v'] w]; munfold; simplify_eq.
  - eexists. cbn. rewrite last_snoc. split; [done | apply panic_defaultOutbound].
  - eexists. cbn. rewrite last_snoc. split; [done|].
    by apply (panic_collaborator pk opts (Construct _)).
Qed.

Lemma Router_Initialize_panic opts rt ins outs captured pps rps st v st' :
  Router_Initialize rt ins outs (defaultOutbound pk rt) captured pps rps st = (Panic v, st') →
  ∃ ev, last (trace st') = Some ev ∧ NewPanic pk opts ev v.
Proof.
  unfold Router_Initialize. intros Hrun. destruct (r_WantsDefault rt outs).
  - apply bind_panic_inv in Hrun as [Hrun | ([out cap] & st1 & _ & Hrun)].
    { by eapply defaultOutbound_panic. }
    apply callThen_panic in Hrun as [Hlast | ([] & st2 & _ & Hrun)];
      [|munfold; by simplify_eq].
    eexists. split; [exact Hlast | by apply (panic_collaborator pk opts (Invoke _ _))].
  - apply callThen_panic in Hrun as [Hlast | ([] & st2 & _ & Hrun)];
      [|munfold; by simplify_eq].
    eexists. split; [exact Hlast | by apply (panic_collaborator pk opts (Invoke _ _))].
Qed.

(** X15: [New] panics in three cases only.  A constructor or a method it
    calls panics, and the panic passes through [New]; or the default
    outbound cannot be built, and [common.Must] panics with the error of
    its construction; or the Clash API server is needed and the log
    factory that [log.New] returned is not an observable factory, and the
    type assertion on it panics. *)
Theorem New_panic opts st v st' :
  New pk opts st = (Panic v, st') →
  ∃ ev, last (trace st') = Some ev ∧ NewPanic pk opts ev v.
Proof.
  unfold New. intros Hrun.
  apply bind_panic_inv in Hrun as [Hrun | (now & sa & _ & Hrun)]; [done|].
  apply bind_panic_inv in Hrun as [Hrun | ([] & sb & _ & Hrun)]; [done|].
  apply bind_panic_inv in Hrun as [Hrun | ([] & sc & _ & Hrun)]; [done|].
  fold (needClashAPI opts) in Hrun. fold (needV2RayAPI opts) in Hrun.
  apply callThen_panic in Hrun as [Hlast | (lf & sd & Hlf & Hrun)].
  { eexists. split; [exact Hlast | by apply (panic_collaborator pk opts (Construct _))]. }
  apply call_Built in Hlf.
  apply bind_panic_inv in Hrun as [Hrun | ([[rps ro] dns] & se & _ & Hrun)].
  { apply forRange_panic in Hrun as (j & o & acc0 & st0 & Hj & Hrun).
    by eapply newRuleProvider_panic. }
  apply callThen_panic in Hrun as [Hlast | (rt & sf & _ & Hrun)].
  { eexists. split; [exact Hlast | by apply (panic_collaborator pk opts (Construct _))]. }
  apply bind_panic_inv in Hrun as [Hrun | ([] & sg & _ & Hrun)].
  { by apply forRange_panic in Hrun as (j & o & acc0 & st0 & Hj & Hrun). }
  apply bind_panic_inv in Hrun as [Hrun | (ins & sh & _ & Hrun)].
  { apply forRange_panic in Hrun as (j & o & acc0 & st0 & Hj & Hrun).
    by eapply newInbound_panic. }
  apply bind_panic_inv in Hrun as [Hrun | (outs0 & si & _ & Hrun)].
  { apply forRange_panic in Hrun as (j & o & acc0 & st0 & Hj & Hrun).
    by eapply newOutbound_panic. }
  apply bind_panic_inv in Hrun as [Hrun | ([pps outs1] & sj & _ & Hrun)].
  { apply forRange_panic in Hrun as (j & o & acc0 & st0 & Hj & Hrun).
    by eapply newProxyProvider_panic. }
  apply bind_panic_inv in Hrun as [Hrun | (outs2 & sk & Hinit & Hrun)].
  { by eapply Router_Initialize_panic. }
  assert (∃ ev, last (trace sk) = Some ev) as [ev0 Hev0].
  { assert (preserves traceGrows (Router_Initialize rt ins outs1 (defaultOutbound pk rt) outs1
                                    pps rps)) as Hg by apply Router_Initialize_grows.
    unfold Router_Initialize in Hinit.
    destruct (r_WantsDefault rt outs1).
    - apply bind_ok_inv in Hinit as ([out cap] & s1 & _ & Hinit).
      apply callThen_ok in Hinit as ([] & s2 & _ & Htr & Hinit). munfold. simplify_eq.
      rewrite Htr, last_snoc. eauto.
    - apply callThen_ok in Hinit as ([] & s2 & _ & Htr & Hinit). munfold. simplify_eq.
      rewrite Htr, last_snoc. eauto. }
  apply bind_panic_inv in Hrun as [Hrun | ([] & sl & Hpf & Hrun)].
  { destruct (PlatformInterface opts) as [pf|] eqn:Hpf; [|done].
    apply callStep_panic in Hrun.
    eexists. split; [exact Hrun | by apply (panic_collaborator pk opts (Invoke _ _))]. }
  assert (∃ ev, last (trace sl) = Some ev) as [ev1 Hev1].
  { destruct (PlatformInterface opts) as [pf|].
    - apply callStep_Built in Hpf as [_ Htr]. rewrite Htr, last_snoc. eauto.
    - munfold. simplify_eq. eauto. }
  apply bind_panic_inv in Hrun as [Hrun | (pre1 & sm & _ & Hrun)].
  { destruct (needClashAPI opts) eqn:Hclash; [|done].
    apply bind_panic_inv in Hrun as [Hrun | ([] & sm & _ & Hrun)].
    { destruct (lf_Observable lf) eqn:Hobs; [done|]. munfold. simplify_eq.
      exists ev1. split; [done|]. by eapply panic_notObservable. }
    apply callThen_panic in Hrun as [Hlast | (sv & sn & _ & Hrun)];
      [|munfold; by simplify_eq].
    eexists. split; [exact Hlast | by apply (panic_collaborator pk opts (Construct _))]. }
  apply bind_panic_inv in Hrun as [Hrun | (pre2 & sn & _ & Hrun)].
  { destruct (needV2RayAPI opts); [|done].
    apply callThen_panic in Hrun as [Hlast | (sv & so & _ & Hrun)];
      [|munfold; by simplify_eq].
    eexists. split; [exact Hlast | by apply (panic_collaborator pk opts (Construct _))]. }
  unfold makeDone in Hrun. munfold. by simplify_eq.
Qed.

Lemma common_Close_panic c (closer : option (@Ext W unit)) st v st' :
  common_Close c closer st = (Panic v, st') →
  last (trace st') = Some (EvCall c MClose (Panicked v)).
Proof.
  destruct closer as [f|]; cbn; intros Hrun; [|done].
  apply bind_panic_inv in Hrun as [Hrun | (r & st1 & _ & Hrun)]; [|done].
  by apply call_panic in Hrun.
Qed.

Lemma closeCall_panic {B} msg c (f : @Ext W unit) (k : error + unit → B) st v st' :
  (logger Trace msg;; r ← call (EvCall c MClose) f; mret (k r)) st = (Panic v, st') →
  last (trace st') = Some (EvCall c MClose (Panicked v)).
Proof.
  intros Hrun. apply bind_panic_inv in Hrun as [Hrun | ([] & st1 & _ & Hrun)]; [done|].
  apply bind_panic_inv in Hrun as [Hrun | (r & st2 & _ & Hrun)]; [|done].
  by apply call_panic in Hrun.
Qed.

Lemma closeOutbound_panic {B} msg c (closer : option (@Ext W unit)) (k : option error → B)
    st v st' :
  (logger Trace msg;; r ← common_Close c closer; mret (k r)) st = (Panic v, st') →
  last (trace st') = Some (EvCall c MClose (Panicked v)).
Proof.
  intros Hrun. apply bind_panic_inv in Hrun as [Hrun | ([] & st1 & _ & Hrun)]; [done|].
  apply bind_panic_inv in Hrun as [Hrun | (r & st2 & _ & Hrun)]; [|done].
  by apply common_Close_panic in Hrun.
Qed.

(** X16: [Close] panics only when the close of a subsystem panics.  The
    teardown stops at that call: it is the last event of the trace, the
    panic is passed on with its value, and the subsystems that come later
    in the teardown order are not closed.  They stay so: the Box is marked
    closed before the teardown begins, and a later [Close] returns
    [os.ErrClosed] without closing anything. *)
Theorem Close_panic s st v st' :
  Close s st = (Panic v, st') →
  (∃ c, last (trace st') = Some (EvCall c MClose (Panicked v))) ∧
  done st' = true ∧
  Close s st' = (Fail ErrClosed, st').
Proof.
  intros Hrun.
  assert (done st' = true) as Hd.
  { pose proof (Close_sets_done s st) as Hd. by rewrite Hrun in Hd. }
  split; [|split; [done | by apply Close_closed]].
  unfold Close in Hrun.
  apply bind_panic_inv in Hrun as [Hrun | ([] & s0 & _ & Hrun)].
  { unfold closeDone in Hrun. by destruct (done st). }
  apply bind_panic_inv in Hrun as [Hrun | (post & s1 & _ & Hrun)].
  { unfold rangeMap in Hrun. by simplify_eq. }
  apply bind_panic_inv in Hrun as [Hrun | (e1 & s2 & _ & Hrun)].
  { apply forRange_panic in Hrun as (j & [name sv] & acc0 & st0 & _ & Hrun).
    apply closeCall_panic in Hrun. eauto. }
  apply bind_panic_inv in Hrun as [Hrun | (e2 & s3 & _ & Hrun)].
  { apply forRange_panic in Hrun as (j & rp & acc0 & st0 & _ & Hrun).
    apply closeCall_panic in Hrun. eauto. }
  apply bind_panic_inv in Hrun as [Hrun | (e3 & s4 & _ & Hrun)].
  { apply forRange_panic in Hrun as (j & pp & acc0 & st0 & _ & Hrun).
    apply closeCall_panic in Hrun. eauto. }
  apply bind_panic_inv in Hrun as [Hrun | (e4 & s5 & _ & Hrun)].
  { apply forRange_panic in Hrun as (j & in_ & acc0 & st0 & _ & Hrun).
    apply closeCall_panic in Hrun. eauto. }
  apply bind_panic_inv in Hrun as [Hrun | (e5 & s6 & _ & Hrun)].
  { apply forRange_panic in Hrun as (j & out & acc0 & st0 & _ & Hrun).
    apply closeOutbound_panic in Hrun. eauto. }
  apply bind_panic_inv in Hrun as [Hrun | ([] & s7 & _ & Hrun)]; [done|].
  apply bind_panic_inv in Hrun as [Hrun | (e6 & s8 & _ & Hrun)].
  { apply common_Close_panic in Hrun. eauto. }
  apply bind_panic_inv in Hrun as [Hrun | (pre & s9 & _ & Hrun)].
  { unfold rangeMap in Hrun. by simplify_eq. }
  apply bind_panic_inv in Hrun as [Hrun | (e7 & s10 & _ & Hrun)].
  { apply forRange_panic in Hrun as (j & [name sv] & acc0 & st0 & _ & Hrun).
    apply closeCall_panic in Hrun. eauto. }
  apply bind_panic_inv in Hrun as [Hrun | ([] & s11 & _ & Hrun)]; [done|].
  apply bind_panic_inv in Hrun as [Hrun | (e8 & s12 & _ & Hrun)].
  { apply common_Close_panic in Hrun. eauto. }
  match type of Hrun with match ?x with _ => _ end _ = _ => by destruct x end.
Qed.
End Proofs.

(** * The theorems at work on the concrete collaborators *)

Section Examples.

#[local] Existing Instance Demo.listExceptions.
#[local] Existing Instance Demo.seededIter.

(** ** Close *)

(** C1 on [Demo.box]: the close of the inbound and of the router fail, and
    the traversal still goes through every subsystem. *)
Lemma Close_visits_every_subsystem_witness :
  done Demo.st0 = false ∧
  Close Demo.box Demo.st0 = ((Close Demo.box Demo.st0).1, (Close Demo.box Demo.st0).2) ∧
  (∀ v, (Close Demo.box Demo.st0).1 ≠ Panic v) ∧
  ∃ (post pre : list (string * Service)) (vs : list Visit),
    post ≡ₚ map_to_list (postServices Demo.box) ∧
    pre ≡ₚ map_to_list (preServices Demo.box) ∧
    vs.*1 = closeTargets Demo.box post pre ∧
    Forall visitOk vs ∧
    trace (Close Demo.box Demo.st0).2 = trace Demo.st0 ++ concat (visitEvents <$> vs) ∧
    (Close Demo.box Demo.st0).1 = returned (foldVisits vs None) ∧
    (Forall (λ v, v.2 = None) vs → (Close Demo.box Demo.st0).1 = Ok tt).
Proof.
  assert (done Demo.st0 = false) as H1 by reflexivity.
  assert (Close Demo.box Demo.st0 = ((Close Demo.box Demo.st0).1, (Close Demo.box Demo.st0).2))
    as H2 by (vm_compute; reflexivity).
  assert (∀ v, (Close Demo.box Demo.st0).1 ≠ Panic v) as H3 by (intros v; vm_compute; discriminate).
  split; [exact H1|]. split; [exact H2|]. split; [exact H3|].
  exact (Close_visits_every_subsystem Demo.box Demo.st0 _ _ H1 H2 H3).
Defined.

(** What that call returned, and what it logged. *)
Example Close_aggregates_both_failures :
  (Close Demo.box Demo.st0).1 =
    Fail (EMulti [ECause "close inbound/mixed[0]" (ENew "listener gone");
                  ECause "close router" (ENew "router busy")]) ∧
  logLines (trace (Close Demo.box Demo.st0).2) =
    ["closing ruleprovider rp"; "closing proxyprovider pp"; "closing inbound/mixed[0]";
     "closing outbound/direct[0]"; "closing outbound/vmess[1]"; "closing router";
     "closing v2ray api"; "closing clash api"; "closing log factory"].
Proof. split; vm_compute; reflexivity. Qed.

(** C2 on [Demo.box]: the second call returns [os.ErrClosed] and adds
    nothing to the trace. *)
Example Close_twice :
  Close Demo.box (Close Demo.box Demo.st0).2 = (Fail ErrClosed, (Close Demo.box Demo.st0).2).
Proof. vm_compute. reflexivity. Qed.

(** ** Rollback *)

(** C3 as stated fails: when the router does not start, [Start] returns the
    error of [router.Start()] as it is, without the name of the component. *)
Lemma Start_returns_router_error_unwrapped :
  (Start Demo.packages Demo.boxRouterDown Demo.st0).1 =
    Fail (ENew "listen tcp :53: bind: address already in use") ∧
  last (trace (start Demo.packages Demo.boxRouterDown Demo.st0).2) =
    Some (EvCall TheRouter MStart
            (Returned (Some (ENew "listen tcp :53: bind: address already in use")))) ∧
  isWrapped (ENew "listen tcp :53: bind: address already in use") = false.
Proof. split_and!; vm_compute; reflexivity. Qed.

(** C3, amended, on a Box whose inbound does not start and whose close
    panics: the start error is logged and the panic is raised again. *)
Lemma rollback_returns_original_error_witness :
  stage Demo.packages ViaStart Demo.boxPanicsOnClose Demo.st0 =
    (Fail Demo.inboundStartError, (start Demo.packages Demo.boxPanicsOnClose Demo.st0).2) ∧
  (entry Demo.packages ViaStart Demo.boxPanicsOnClose Demo.st0).1 =
    Panic (PStr "panic on early close: close of nil listener") ∧
  logLines (trace (entry Demo.packages ViaStart Demo.boxPanicsOnClose Demo.st0).2) =
    logLines (trace (Close Demo.boxPanicsOnClose
                       (start Demo.packages Demo.boxPanicsOnClose Demo.st0).2).2).
Proof.
  assert (stage Demo.packages ViaStart Demo.boxPanicsOnClose Demo.st0 =
            (Fail Demo.inboundStartError,
             (start Demo.packages Demo.boxPanicsOnClose Demo.st0).2)) as H1
    by (vm_compute; reflexivity).
  split; [exact H1|].
  destruct (rollback_returns_original_error Demo.packages ViaStart Demo.boxPanicsOnClose
              Demo.st0 _ _ H1) as (_ & _ & Hpanic & _).
  destruct (Hpanic (PStr "close of nil listener")) as [Hr Htr]; [vm_compute; reflexivity|].
  split; [exact Hr|]. rewrite Htr. vm_compute. reflexivity.
Defined.

Example Start_panics_on_early_close :
  (Start Demo.packages (Demo.boxInboundDown (Demo.panicking "close of nil listener")) Demo.st0).1 =
    Panic (PStr "panic on early close: close of nil listener").
Proof. vm_compute. reflexivity. Qed.

Example Start_returns_start_error_not_close_error :
  (Start Demo.packages (Demo.boxInboundDown (Demo.failing "close failed")) Demo.st0).1 =
    Fail (ECause "initialize inbound/mixed[in-a]"
            (ENew "listen tcp :1080: bind: permission denied")).
Proof. vm_compute. reflexivity. Qed.

(** ** Tags *)

(** C4 as stated fails: the inbound configured with the tag "in-a" at
    index 0 is constructed and started under "in-a", and closed under
    "0". *)
Lemma Close_labels_inbound_by_index :
  New Demo.packages Demo.oneTaggedInbound Demo.st0 =
    (Ok (Demo.newBox Demo.packages Demo.oneTaggedInbound), Demo.afterNew Demo.oneTaggedInbound) ∧
  assignedTag "in-a" 0 = "in-a" ∧
  logLines (trace (start Demo.packages (Demo.newBox Demo.packages Demo.oneTaggedInbound)
                     (Demo.afterNew Demo.oneTaggedInbound)).2) =
    ["initializing inbound/mixed[in-a]"; "initializing inbound/tun[1]"] ∧
  logLines (trace (Close (Demo.newBox Demo.packages Demo.oneTaggedInbound)
                     (Demo.afterNew Demo.oneTaggedInbound)).2) =
    ["closing inbound/mixed[0]"; "closing inbound/tun[1]"; "closing outbound/direct[0]";
     "closing router"; "closing log factory"].
Proof. split_and!; vm_compute; reflexivity. Qed.

(** C4, amended, on the same configuration. *)
Lemma tags_assigned_by_New_witness :
  New Demo.packages Demo.oneTaggedInbound Demo.st0 =
    (Ok (Demo.newBox Demo.packages Demo.oneTaggedInbound), Demo.afterNew Demo.oneTaggedInbound) ∧
  inboundBuilt 0 {| ib_Type := "mixed"; ib_Tag := "in-a" |}
    ∈ trace (Demo.afterNew Demo.oneTaggedInbound) ∧
  inboundBuilt 1 {| ib_Type := "tun"; ib_Tag := "" |}
    ∈ trace (Demo.afterNew Demo.oneTaggedInbound) ∧
  outboundBuilt 0 {| ob_Type := "direct"; ob_Tag := "" |}
    ∈ trace (Demo.afterNew Demo.oneTaggedInbound) ∧
  length (inbounds (Demo.newBox Demo.packages Demo.oneTaggedInbound)) = 2.
Proof.
  assert (New Demo.packages Demo.oneTaggedInbound Demo.st0 =
            (Ok (Demo.newBox Demo.packages Demo.oneTaggedInbound),
             Demo.afterNew Demo.oneTaggedInbound)) as H1 by (vm_compute; reflexivity).
  split; [exact H1|].
  destruct (tags_assigned_by_New Demo.packages Demo.oneTaggedInbound Demo.st0 _ _ H1)
    as (Hin & Hout & _ & _ & Hlen & _).
  split; [apply Hin; reflexivity|]. split; [apply Hin; reflexivity|].
  split; [apply Hout; reflexivity|]. exact Hlen.
Defined.

(** ** Rule providers *)

(** C5 as stated fails: with no route rule and no DNS rule configured,
    [FormatRule] of the rule provider is called all the same, with two nil
    pointers. *)
Lemma FormatRule_called_on_empty_lists :
  ro_Rules (routeOrDefault (Route Demo.oneRuleProviderNoRules)) = [] ∧
  dns_Rules (dnsOrDefault (DNS Demo.oneRuleProviderNoRules)) = [] ∧
  formatCalls (trace (New Demo.packages Demo.oneRuleProviderNoRules Demo.st0).2) =
    [(0, None, None)].
Proof. split_and!; vm_compute; reflexivity. Qed.

(** C5, amended, on two rule providers and one configured route rule. *)
Lemma FormatRule_called_for_every_rule_provider_witness :
  New Demo.packages Demo.twoRuleProvidersWithRouteRules Demo.st0 =
    (Ok (Demo.newBox Demo.packages Demo.twoRuleProvidersWithRouteRules),
     Demo.afterNew Demo.twoRuleProvidersWithRouteRules) ∧
  ∃ (dnsRules : list DNSRule) (routeRules : list Rule) (before evs after : list Event),
    FormatChain Demo.packages 0 (RulProviders Demo.twoRuleProvidersWithRouteRules)
      (ruleProviders (Demo.newBox Demo.packages Demo.twoRuleProvidersWithRouteRules))
      (dns_Rules (dnsOrDefault (DNS Demo.twoRuleProvidersWithRouteRules)),
       ro_Rules (routeOrDefault (Route Demo.twoRuleProvidersWithRouteRules)))
      (dnsRules, routeRules) evs ∧
    trace (Demo.afterNew Demo.twoRuleProvidersWithRouteRules) =
      trace Demo.st0 ++ before ++ evs ++ after ∧
    (formatCalls evs).*1.*1 = seq 0 2.
Proof.
  assert (New Demo.packages Demo.twoRuleProvidersWithRouteRules Demo.st0 =
            (Ok (Demo.newBox Demo.packages Demo.twoRuleProvidersWithRouteRules),
             Demo.afterNew Demo.twoRuleProvidersWithRouteRules)) as H1
    by (vm_compute; reflexivity).
  split; [exact H1|].
  destruct (FormatRule_called_for_every_rule_provider Demo.packages
              Demo.twoRuleProvidersWithRouteRules Demo.st0 _ _ H1)
    as (dnsRules & routeRules & before & evs & after & Hchain & Htr & Hcalls & _).
  exists dnsRules, routeRules, before, evs, after. split; [exact Hchain|].
  split; [exact Htr | exact Hcalls].
Defined.

Example FormatRule_rewrites_non_empty_list :
  formatCalls (trace (Demo.afterNew Demo.twoRuleProvidersWithRouteRules)) =
    [(0, None, Some ["geoip:private"]); (1, None, Some ["geoip:private"; "route:ads"])].
Proof. vm_compute. reflexivity. Qed.

(** ** Services *)

(** C6 as stated fails: [New] registers "clash api" and then "v2ray api";
    two closes of that Box which differ only in the seed of the map
    iteration visit them in two different orders, the first of which is not
    the order of registration. *)
Lemma pre_services_closed_in_two_orders :
  (map_to_list (preServices (Demo.newBox Demo.packages Demo.bothApis))).*1 =
    ["clash api"; "v2ray api"] ∧
  preServicesClosed
    (trace (Close (Demo.newBox Demo.packages Demo.bothApis)
              (Demo.afterNew Demo.bothApis)).2) = ["v2ray api"; "clash api"] ∧
  preServicesClosed
    (trace (Close (Demo.newBox Demo.packages Demo.bothApis)
              (Demo.reseeded 1 (Demo.afterNew Demo.bothApis))).2) = ["clash api"; "v2ray api"].
Proof. split_and!; vm_compute; reflexivity. Qed.

(** C6, amended, on the close of that Box. *)
Lemma services_visited_in_iteration_order_witness :
  phaseRun Demo.packages Closing (Demo.newBox Demo.packages Demo.bothApis)
      (Demo.afterNew Demo.bothApis) =
    ((Close (Demo.newBox Demo.packages Demo.bothApis) (Demo.afterNew Demo.bothApis)).1,
     (Close (Demo.newBox Demo.packages Demo.bothApis) (Demo.afterNew Demo.bothApis)).2) ∧
  phaseCompleted Closing (Demo.afterNew Demo.bothApis)
    (Close (Demo.newBox Demo.packages Demo.bothApis) (Demo.afterNew Demo.bothApis)).1 ∧
  phaseVisited Closing (Demo.newBox Demo.packages Demo.bothApis) (Demo.afterNew Demo.bothApis)
    (Close (Demo.newBox Demo.packages Demo.bothApis) (Demo.afterNew Demo.bothApis)).2.
Proof.
  assert (phaseRun Demo.packages Closing (Demo.newBox Demo.packages Demo.bothApis)
            (Demo.afterNew Demo.bothApis) =
          ((Close (Demo.newBox Demo.packages Demo.bothApis) (Demo.afterNew Demo.bothApis)).1,
           (Close (Demo.newBox Demo.packages Demo.bothApis) (Demo.afterNew Demo.bothApis)).2))
    as H1 by (vm_compute; reflexivity).
  assert (phaseCompleted Closing (Demo.afterNew Demo.bothApis)
            (Close (Demo.newBox Demo.packages Demo.bothApis) (Demo.afterNew Demo.bothApis)).1)
    as H2 by (split; [reflexivity | intros v; vm_compute; discriminate]).
  split; [exact H1|]. split; [exact H2|].
  exact (services_visited_in_iteration_order Demo.packages Closing _ _ _ _ H1 H2).
Defined.

(** ** Outbounds *)

(** C7 as stated fails: the default outbound is built with the tag
    "direct"; "default" is only the tag field of the options it is built
    from. *)
Lemma default_outbound_is_tagged_direct :
  (New Demo.packages Demo.noOptions Demo.st0).1 = Ok (Demo.newBox Demo.packages Demo.noOptions) ∧
  trace (Demo.afterNew Demo.noOptions) =
    [EvApplyDebugOptions;
     EvNew (NewLogFactory false) (Returned None);
     EvNew (NewRouter (routeOrDefault None) (dnsOrDefault None)) (Returned None);
     EvNew (NewOutbound "outbound/direct" "direct" {| ob_Type := "direct"; ob_Tag := "default" |})
           (Returned None);
     EvCall TheRouter (MInitialize [] [] (Some "direct")) (Returned None)] ∧
  out_Tag <$> outbounds (Demo.newBox Demo.packages Demo.noOptions) = ["direct"] ∧
  "direct" ≠ "default".
Proof. split_and!; [vm_compute; reflexivity.. | discriminate]. Qed.

(** C7, amended, on the empty configuration. *)
Lemma default_outbound_built_once_and_closed_witness :
  New Demo.packages Demo.noOptions Demo.st0 =
    (Ok (Demo.newBox Demo.packages Demo.noOptions), Demo.afterNew Demo.noOptions) ∧
  ∃ (outs : list Outbound) (before evsInit after : list Event),
    trace (Demo.afterNew Demo.noOptions) = trace Demo.st0 ++ before ++ evsInit ++ after ∧
    (if r_WantsDefault (router (Demo.newBox Demo.packages Demo.noOptions)) outs
     then ∃ out,
       Built (outbound_New Demo.packages (router (Demo.newBox Demo.packages Demo.noOptions))
                "outbound/direct" "direct" directOptions) out ∧
       evsInit = [defaultBuilt (Returned None);
                  initialized (inbounds (Demo.newBox Demo.packages Demo.noOptions)) outs
                    (Some out)] ∧
       outbounds (Demo.newBox Demo.packages Demo.noOptions) = outs ++ [out]
     else evsInit = [initialized (inbounds (Demo.newBox Demo.packages Demo.noOptions)) outs None] ∧
          outbounds (Demo.newBox Demo.packages Demo.noOptions) = outs).
Proof.
  assert (New Demo.packages Demo.noOptions Demo.st0 =
            (Ok (Demo.newBox Demo.packages Demo.noOptions), Demo.afterNew Demo.noOptions)) as H1
    by (vm_compute; reflexivity).
  split; [exact H1|].
  destruct (default_outbound_built_once_and_closed Demo.packages Demo.noOptions Demo.st0 _ _ H1)
    as (outs & before & evsInit & after & Htr & Hcase).
  exists outs, before, evsInit, after. split; [exact Htr|].
  destruct (r_WantsDefault (router (Demo.newBox Demo.packages Demo.noOptions)) outs).
  - destruct Hcase as (out & Hout & Hev & Houts & _). exists out. split_and!; assumption.
  - exact Hcase.
Defined.

(** C8 as stated fails: two proxy providers that serve the same two nodes
    give the router four provider-supplied outbounds that are not
    distinctly tagged. *)
Lemma provided_outbounds_share_tags :
  (New Demo.packages Demo.twoProxyProviders Demo.st0).1 =
    Ok (Demo.newBox Demo.packages Demo.twoProxyProviders) ∧
  initializedWith (trace (Demo.afterNew Demo.twoProxyProviders)) =
    [["static"; "node-a"; "node-b"; "node-a"; "node-b"]] ∧
  ¬ NoDup ["static"; "node-a"; "node-b"; "node-a"; "node-b"].
Proof.
  split_and!; [vm_compute; reflexivity.. |].
  intros Hnd. apply NoDup_cons in Hnd as [_ Hnd]. apply NoDup_cons in Hnd as [Hnotin _].
  apply Hnotin. apply elem_of_cons. right. apply elem_of_cons. by left.
Qed.

(** C8, amended, on the same configuration. *)
Lemma Initialize_receives_static_then_provided_witness :
  New Demo.packages Demo.twoProxyProviders Demo.st0 =
    (Ok (Demo.newBox Demo.packages Demo.twoProxyProviders), Demo.afterNew Demo.twoProxyProviders) ∧
  ∃ (statics : list Outbound) (provided : list (list Outbound)) (dflt : option Outbound),
    length statics = 1 ∧
    length provided = 2 ∧
    Forall2 (Provided Demo.packages (router (Demo.newBox Demo.packages Demo.twoProxyProviders)))
      (proxyProviders (Demo.newBox Demo.packages Demo.twoProxyProviders)) provided ∧
    initialized (inbounds (Demo.newBox Demo.packages Demo.twoProxyProviders))
      (statics ++ concat provided) dflt ∈ trace (Demo.afterNew Demo.twoProxyProviders) ∧
    outbounds (Demo.newBox Demo.packages Demo.twoProxyProviders) =
      statics ++ concat provided ++ option_list dflt.
Proof.
  assert (New Demo.packages Demo.twoProxyProviders Demo.st0 =
            (Ok (Demo.newBox Demo.packages Demo.twoProxyProviders),
             Demo.afterNew Demo.twoProxyProviders)) as H1 by (vm_compute; reflexivity).
  split; [exact H1|].
  destruct (Initialize_receives_static_then_provided Demo.packages Demo.twoProxyProviders
              Demo.st0 _ _ H1)
    as (statics & provided & dflt & Hlen & _ & Hlenp & _ & Hall & _ & Hev & Houts).
  exists statics, provided, dflt. split; [exact Hlen|].
  split; [by rewrite <- (Forall2_length _ _ _ Hall), Hlenp|].
  split; [exact Hall|]. split; [exact Hev | exact Houts].
Defined.

(** C10 on packages that cannot build a direct outbound: [New] does not
    return the construction error, it panics with it. *)
Example New_panics_when_default_outbound_fails :
  (New Demo.packagesWithoutDirect Demo.noOptions Demo.st0).1 =
    Panic (PErr (ENew "direct: not available")).
Proof. vm_compute. reflexivity. Qed.

(** C9 on the channel of a new Box: three posts leave one notification,
    one read takes it, a second read finds nothing. *)
Example three_posts_one_notification :
  reloadChan (runReloadOps [Post; Post; Post] (Demo.afterNew Demo.noOptions)).2 = 1 ∧
  reloadChan (runReloadOps [Post; Post; Post; Read] (Demo.afterNew Demo.noOptions)).2 = 0 ∧
  (readReload (runReloadOps [Post; Post; Post; Read] (Demo.afterNew Demo.noOptions)).2).1 =
    Ok None.
Proof. split_and!; vm_compute; reflexivity. Qed.

End Examples.

(** * The further properties on the concrete collaborators *)

Section FurtherExamples.

#[local] Existing Instance Demo.listExceptions.
#[local] Existing Instance Demo.seededIter.

(** X1 on a Box whose inbound does not start and whose close panics: the
    Box is closed although the rollback did not finish. *)
Lemma failed_start_leaves_Box_closed_witness :
  stage Demo.packages ViaStart Demo.boxPanicsOnClose Demo.st0 =
    (Fail Demo.inboundStartError, (start Demo.packages Demo.boxPanicsOnClose Demo.st0).2) ∧
  done (entry Demo.packages ViaStart Demo.boxPanicsOnClose Demo.st0).2 = true ∧
  Close Demo.boxPanicsOnClose (entry Demo.packages ViaStart Demo.boxPanicsOnClose Demo.st0).2 =
    (Fail ErrClosed, (entry Demo.packages ViaStart Demo.boxPanicsOnClose Demo.st0).2).
Proof.
  assert (stage Demo.packages ViaStart Demo.boxPanicsOnClose Demo.st0 =
            (Fail Demo.inboundStartError,
             (start Demo.packages Demo.boxPanicsOnClose Demo.st0).2)) as H1
    by (vm_compute; reflexivity).
  split; [exact H1|].
  exact (failed_start_leaves_Box_closed Demo.packages ViaStart _ _ _ _ H1).
Defined.

(** X2 on a Box whose inbound neither starts nor closes: the rollback goes
    through every subsystem and the caller gets the start error. *)
Lemma failed_start_tears_down_every_subsystem_witness :
  stage Demo.packages ViaStart (Demo.boxInboundDown (Demo.failing "close failed")) Demo.st0 =
    (Fail Demo.inboundStartError,
     (start Demo.packages (Demo.boxInboundDown (Demo.failing "close failed")) Demo.st0).2) ∧
  done Demo.st0 = false ∧
  (∀ v, (Close (Demo.boxInboundDown (Demo.failing "close failed"))
           (start Demo.packages (Demo.boxInboundDown (Demo.failing "close failed"))
              Demo.st0).2).1 ≠ Panic v) ∧
  (entry Demo.packages ViaStart (Demo.boxInboundDown (Demo.failing "close failed"))
     Demo.st0).1 = Fail Demo.inboundStartError.
Proof.
  assert (stage Demo.packages ViaStart (Demo.boxInboundDown (Demo.failing "close failed"))
            Demo.st0 =
          (Fail Demo.inboundStartError,
           (start Demo.packages (Demo.boxInboundDown (Demo.failing "close failed"))
              Demo.st0).2)) as H1 by (vm_compute; reflexivity).
  assert (done Demo.st0 = false) as H2 by reflexivity.
  assert (∀ v, (Close (Demo.boxInboundDown (Demo.failing "close failed"))
                  (start Demo.packages (Demo.boxInboundDown (Demo.failing "close failed"))
                     Demo.st0).2).1 ≠ Panic v) as H3
    by (intros v; vm_compute; discriminate).
  split; [exact H1|]. split; [exact H2|]. split; [exact H3|].
  destruct (failed_start_tears_down_every_subsystem Demo.packages ViaStart _ _ _ _ H1 H2 H3)
    as (post & pre & vs & _ & _ & _ & _ & Hr & _).
  exact Hr.
Defined.

Example rollback_closes_what_was_never_started :
  logLines (trace (Start Demo.packages Demo.boxRouterDown Demo.st0).2) =
    ["pre-start clash api"; "pre-start v2ray api";
     "closing ruleprovider rp"; "closing proxyprovider pp"; "closing inbound/mixed[0]";
     "closing outbound/direct[0]"; "closing outbound/vmess[1]"; "closing router";
     "closing clash api"; "closing v2ray api"; "closing log factory"].
Proof. vm_compute. reflexivity. Qed.

(** X3 on [Demo.box]: [Start] returns nil and the Box is still open. *)
Lemma start_success_keeps_Box_open_witness :
  entry Demo.packages ViaStart Demo.box Demo.st0 =
    (Ok tt, (Start Demo.packages Demo.box Demo.st0).2) ∧
  done (Start Demo.packages Demo.box Demo.st0).2 = done Demo.st0.
Proof.
  assert (entry Demo.packages ViaStart Demo.box Demo.st0 =
            (Ok tt, (Start Demo.packages Demo.box Demo.st0).2)) as H1
    by (vm_compute; reflexivity).
  split; [exact H1|].
  destruct (start_success_keeps_Box_open Demo.packages ViaStart _ _ _ H1) as (_ & Hd & _).
  exact Hd.
Defined.

(** X4 on [Demo.box]: [PreStart] and then [Start]. *)
Lemma PreStart_then_Start_prestarts_twice_witness :
  PreStart Demo.packages Demo.box Demo.st0 =
    (Ok tt, (PreStart Demo.packages Demo.box Demo.st0).2) ∧
  Start Demo.packages Demo.box (PreStart Demo.packages Demo.box Demo.st0).2 =
    (Ok tt, (Start Demo.packages Demo.box (PreStart Demo.packages Demo.box Demo.st0).2).2) ∧
  ∃ (pre0 pre1 pre2 : list (string * @Service unit)) since0 since1 rest,
    trace (Start Demo.packages Demo.box (PreStart Demo.packages Demo.box Demo.st0).2).2 =
      trace Demo.st0 ++
      preStartEvents pre0 ++ [startedLine ViaPreStart since0] ++
      preStartEvents pre1 ++ rest ++ [startedLine ViaStart since1] ∧
    startEvents Demo.box pre1 pre2 = preStartEvents pre1 ++ rest.
Proof.
  assert (PreStart Demo.packages Demo.box Demo.st0 =
            (Ok tt, (PreStart Demo.packages Demo.box Demo.st0).2)) as H1
    by (vm_compute; reflexivity).
  assert (Start Demo.packages Demo.box (PreStart Demo.packages Demo.box Demo.st0).2 =
            (Ok tt, (Start Demo.packages Demo.box
                       (PreStart Demo.packages Demo.box Demo.st0).2).2)) as H2
    by (vm_compute; reflexivity).
  split; [exact H1|]. split; [exact H2|].
  destruct (PreStart_then_Start_prestarts_twice Demo.packages _ _ _ _ H1 H2)
    as (pre0 & pre1 & pre2 & since0 & since1 & rest & _ & _ & _ & Hrest & Htr).
  exists pre0, pre1, pre2, since0, since1, rest. split; [exact Htr | exact Hrest].
Defined.

Example router_started_twice :
  omap (λ ev, match ev with
              | EvCall TheRouter MStart r | EvNew StartOutbounds r => Some ev
              | _ => None
              end)
    (trace (Start Demo.packages Demo.box (PreStart Demo.packages Demo.box Demo.st0).2).2) =
    [EvNew StartOutbounds (Returned None); called TheRouter MStart;
     EvNew StartOutbounds (Returned None); called TheRouter MStart].
Proof. vm_compute. reflexivity. Qed.

(** X5 on a Box whose second outbound fails to post-start: the error
    carries the index 1, not the tag "select". *)
Lemma postStart_failure_witness :
  postStart Demo.boxLateOutbound Demo.st0 =
    (Fail (ECause "post-start 1" (ENew "dependency[proxy] not found")),
     (postStart Demo.boxLateOutbound Demo.st0).2) ∧
  ∃ ev, last (trace (postStart Demo.boxLateOutbound Demo.st0).2) = Some ev ∧
        PostStartFailure Demo.boxLateOutbound ev
          (ECause "post-start 1" (ENew "dependency[proxy] not found")).
Proof.
  assert (postStart Demo.boxLateOutbound Demo.st0 =
            (Fail (ECause "post-start 1" (ENew "dependency[proxy] not found")),
             (postStart Demo.boxLateOutbound Demo.st0).2)) as H1
    by (vm_compute; reflexivity).
  split; [exact H1|].
  exact (postStart_failure _ _ _ _ H1).
Defined.

(** X6 on a Box whose router does not start: the stage stops there. *)
Lemma failed_stage_is_cut_short_witness :
  stage Demo.packages ViaStart Demo.boxRouterDown Demo.st0 =
    (Fail (ENew "listen tcp :53: bind: address already in use"),
     (start Demo.packages Demo.boxRouterDown Demo.st0).2) ∧
  ∃ (pre1 pre2 : list (string * Service)) (evs : list Event),
    trace (start Demo.packages Demo.boxRouterDown Demo.st0).2 = trace Demo.st0 ++ evs ∧
    CutShort (stageEvents ViaStart Demo.boxRouterDown pre1 pre2) evs.
Proof.
  assert (stage Demo.packages ViaStart Demo.boxRouterDown Demo.st0 =
            (Fail (ENew "listen tcp :53: bind: address already in use"),
             (start Demo.packages Demo.boxRouterDown Demo.st0).2)) as H1
    by (vm_compute; reflexivity).
  split; [exact H1|].
  destruct (failed_stage_is_cut_short Demo.packages ViaStart _ _ _ _ H1)
    as (pre1 & pre2 & evs & _ & _ & Htr & Hcut).
  exists pre1, pre2, evs. split; [exact Htr | exact Hcut].
Defined.

(** X7 on packages that cannot build a direct outbound, for a
    configuration with a direct outbound at index 0. *)
Lemma New_failure_witness :
  New Demo.packagesWithoutDirect Demo.oneTaggedInbound Demo.st0 =
    (Fail (ECause "parse outbound[0]" (ENew "direct: not available")),
     (New Demo.packagesWithoutDirect Demo.oneTaggedInbound Demo.st0).2) ∧
  ∃ ev, last (trace (New Demo.packagesWithoutDirect Demo.oneTaggedInbound Demo.st0).2) =
          Some ev ∧
        NewFailure Demo.packagesWithoutDirect Demo.oneTaggedInbound ev
          (ECause "parse outbound[0]" (ENew "direct: not available")).
Proof.
  assert (New Demo.packagesWithoutDirect Demo.oneTaggedInbound Demo.st0 =
            (Fail (ECause "parse outbound[0]" (ENew "direct: not available")),
             (New Demo.packagesWithoutDirect Demo.oneTaggedInbound Demo.st0).2)) as H1
    by (vm_compute; reflexivity).
  split; [exact H1|].
  exact (New_failure Demo.packagesWithoutDirect _ _ _ _ H1).
Defined.

Example failed_New_leaves_inbounds_unclosed :
  trace (New Demo.packagesWithoutDirect Demo.oneTaggedInbound Demo.st0).2 =
    [EvApplyDebugOptions;
     EvNew (NewLogFactory false) (Returned None);
     EvNew (NewRouter (routeOrDefault None) (dnsOrDefault None)) (Returned None);
     inboundBuilt 0 {| ib_Type := "mixed"; ib_Tag := "in-a" |};
     inboundBuilt 1 {| ib_Type := "tun"; ib_Tag := "" |};
     EvNew (outboundCtor 0 {| ob_Type := "direct"; ob_Tag := "" |})
           (Returned (Some (ENew "direct: not available")))].
Proof. vm_compute. reflexivity. Qed.

(** X9 on a configuration with both API servers. *)
Lemma New_registers_api_services_witness :
  New Demo.packages Demo.bothApis Demo.st0 =
    (Ok (Demo.newBox Demo.packages Demo.bothApis), Demo.afterNew Demo.bothApis) ∧
  ∃ (clash v2ray : option Service) (before : list Event),
    preServices (Demo.newBox Demo.packages Demo.bothApis) = registered clash v2ray ∧
    postServices (Demo.newBox Demo.packages Demo.bothApis) = ∅ ∧
    is_Some clash ∧ is_Some v2ray ∧
    trace (Demo.afterNew Demo.bothApis) = trace Demo.st0 ++ before ++ apiEvents Demo.bothApis.
Proof.
  assert (New Demo.packages Demo.bothApis Demo.st0 =
            (Ok (Demo.newBox Demo.packages Demo.bothApis), Demo.afterNew Demo.bothApis)) as H1
    by (vm_compute; reflexivity).
  split; [exact H1|].
  destruct (New_registers_api_services Demo.packages Demo.bothApis Demo.st0 _ _ H1)
    as (clash & v2ray & before & Hpre & Hpost & Hclash & Hv2ray & _ & _ & _ & Htr & _).
  exists clash, v2ray, before. split; [exact Hpre|]. split; [exact Hpost|].
  split; [apply Hclash; reflexivity|]. split; [apply Hv2ray; reflexivity | exact Htr].
Defined.


Example router_bound_to_both_rule_providers :
  filter (λ ev, routerBinding ev = true)
    (trace (Demo.afterNew Demo.twoRuleProvidersWithRouteRules)) =
    [EvNew (NewRouter {| ro_Rules := ["geoip:private"; "route:ads"; "route:1"];
                         ro_Final := "direct" |}
                      (dnsOrDefault None)) (Returned None);
     called (TheRuleProvider 0) MSetRouter;
     called (TheRuleProvider 1) MSetRouter].
Proof. vm_compute. reflexivity. Qed.

(** X12 on [Demo.box] after it has been closed: [Start] succeeds, and the
    Box cannot be closed any more. *)
Lemma start_of_closed_Box_witness :
  done Demo.closed = true ∧
  stage Demo.packages ViaStart Demo.box Demo.closed =
    (Ok tt, (start Demo.packages Demo.box Demo.closed).2) ∧
  ∃ since,
    entry Demo.packages ViaStart Demo.box Demo.closed =
      (Ok tt, record (startedLine ViaStart since)
                (start Demo.packages Demo.box Demo.closed).2) ∧
    Close Demo.box (record (startedLine ViaStart since)
                      (start Demo.packages Demo.box Demo.closed).2) =
      (Fail ErrClosed, record (startedLine ViaStart since)
                         (start Demo.packages Demo.box Demo.closed).2).
Proof.
  assert (done Demo.closed = true) as H1 by reflexivity.
  assert (stage Demo.packages ViaStart Demo.box Demo.closed =
            (Ok tt, (start Demo.packages Demo.box Demo.closed).2)) as H2
    by (vm_compute; reflexivity).
  split; [exact H1|]. split; [exact H2|].
  exact (start_of_closed_Box Demo.packages ViaStart _ _ _ _ H1 H2).
Defined.

(** X13 on the Box of a configuration with one direct outbound. *)
Lemma postStart_after_New_witness :
  New Demo.packages Demo.oneTaggedInbound Demo.st0 =
    (Ok (Demo.newBox Demo.packages Demo.oneTaggedInbound), Demo.afterNew Demo.oneTaggedInbound) ∧
  postStart (Demo.newBox Demo.packages Demo.oneTaggedInbound)
      (Demo.afterNew Demo.oneTaggedInbound) =
    (Ok tt, (postStart (Demo.newBox Demo.packages Demo.oneTaggedInbound)
               (Demo.afterNew Demo.oneTaggedInbound)).2) ∧
  trace (postStart (Demo.newBox Demo.packages Demo.oneTaggedInbound)
           (Demo.afterNew Demo.oneTaggedInbound)).2 =
    trace (Demo.afterNew Demo.oneTaggedInbound) ++
    postStartEvents (Demo.newBox Demo.packages Demo.oneTaggedInbound) [].
Proof.
  assert (New Demo.packages Demo.oneTaggedInbound Demo.st0 =
            (Ok (Demo.newBox Demo.packages Demo.oneTaggedInbound),
             Demo.afterNew Demo.oneTaggedInbound)) as H1 by (vm_compute; reflexivity).
  assert (postStart (Demo.newBox Demo.packages Demo.oneTaggedInbound)
            (Demo.afterNew Demo.oneTaggedInbound) =
          (Ok tt, (postStart (Demo.newBox Demo.packages Demo.oneTaggedInbound)
                     (Demo.afterNew Demo.oneTaggedInbound)).2)) as H2
    by (vm_compute; reflexivity).
  split; [exact H1|]. split; [exact H2|].
  exact (postStart_after_New Demo.packages _ _ _ _ _ _ H1 H2).
Defined.

(** X14 on a Box whose router panics when started: [Start] ends with the
    panic and closes nothing. *)
Lemma panic_in_stage_is_not_rolled_back_witness :
  stage Demo.packages ViaStart Demo.boxRouterPanics Demo.st0 =
    (Panic (PStr "nil map"), (start Demo.packages Demo.boxRouterPanics Demo.st0).2) ∧
  entry Demo.packages ViaStart Demo.boxRouterPanics Demo.st0 =
    (Panic (PStr "nil map"), (start Demo.packages Demo.boxRouterPanics Demo.st0).2) ∧
  done (start Demo.packages Demo.boxRouterPanics Demo.st0).2 = false.
Proof.
  assert (stage Demo.packages ViaStart Demo.boxRouterPanics Demo.st0 =
            (Panic (PStr "nil map"),
             (start Demo.packages Demo.boxRouterPanics Demo.st0).2)) as H1
    by (vm_compute; reflexivity).
  split; [exact H1|].
  destruct (panic_in_stage_is_not_rolled_back Demo.packages ViaStart _ _ _ _ H1) as [Hr _].
  split; [exact Hr | reflexivity].
Defined.

(** X15 on packages that cannot build a direct outbound, and on packages
    whose log factory is not observable. *)
Lemma New_panic_witness :
  New Demo.packagesWithoutDirect Demo.noOptions Demo.st0 =
    (Panic (PErr (ENew "direct: not available")),
     (New Demo.packagesWithoutDirect Demo.noOptions Demo.st0).2) ∧
  ∃ ev, last (trace (New Demo.packagesWithoutDirect Demo.noOptions Demo.st0).2) = Some ev ∧
        NewPanic Demo.packagesWithoutDirect Demo.noOptions ev
          (PErr (ENew "direct: not available")).
Proof.
  assert (New Demo.packagesWithoutDirect Demo.noOptions Demo.st0 =
            (Panic (PErr (ENew "direct: not available")),
             (New Demo.packagesWithoutDirect Demo.noOptions Demo.st0).2)) as H1
    by (vm_compute; reflexivity).
  split; [exact H1|].
  exact (New_panic Demo.packagesWithoutDirect _ _ _ _ H1).
Defined.

Example New_panics_on_plain_log_factory :
  (New Demo.packagesPlainLog Demo.bothApis Demo.st0).1 =
    Panic (PStr "interface conversion: log.Factory is not log.ObservableFactory") ∧
  last (trace (New Demo.packagesPlainLog Demo.bothApis Demo.st0).2) =
    Some (EvCall TheRouter (MInitialize [] ["0"] None) (Returned None)).
Proof. split; vm_compute; reflexivity. Qed.

(** X16 on a Box whose inbound panics when closed: the outbounds, the
    router, the services and the log factory are never closed. *)
Lemma Close_panic_witness :
  Close Demo.boxPanicsOnClose Demo.st0 =
    (Panic (PStr "close of nil listener"), (Close Demo.boxPanicsOnClose Demo.st0).2) ∧
  logLines (trace (Close Demo.boxPanicsOnClose Demo.st0).2) =
    ["closing ruleprovider rp"; "closing proxyprovider pp"; "closing inbound/mixed[0]"] ∧
  Close Demo.boxPanicsOnClose (Close Demo.boxPanicsOnClose Demo.st0).2 =
    (Fail ErrClosed, (Close Demo.boxPanicsOnClose Demo.st0).2).
Proof.
  assert (Close Demo.boxPanicsOnClose Demo.st0 =
            (Panic (PStr "close of nil listener"),
             (Close Demo.boxPanicsOnClose Demo.st0).2)) as H1
    by (vm_compute; reflexivity).
  split; [exact H1|]. split; [vm_compute; reflexivity|].
  destruct (Close_panic _ _ _ _ H1) as (_ & _ & Hagain). exact Hagain.
Defined.

End FurtherExamples.
